(** * minesweeper_solver.ts: a shallow embedding and its properties

    The solver drives a Minesweeper page through puppeteer.  The embedding
    keeps the shape of the script:

    - [Cell], [BoardState]: the two interfaces at the top of the file;
    - [evalBoardState], [getBoardState]: the snapshot reader;
    - [printBoardState]: the console dump of a board;
    - [solveStep]: one solving step (rules 1, 2 and the random rule 3);
    - [solvingLoop]: the bounded main loop;
    - [clickCellOnPage]: the click on a cell, over the puppeteer calls of
      the class [Puppeteer];
    - [main], [gameStatus]: the opening click, the loop and the status of
      the game read from the page.

    The browser page, the clock and [Math.random] are outside the script;
    they are the fields of the class [Browser].  Every call of the script
    into the page is recorded in an event trace, so that statements about
    the actions the solver takes are statements about that trace. *)

From Stdlib Require Import List ZArith Bool Lia String Ascii.
From Stdlib Require Import DecimalString DecimalPos PrimFloat.
Import ListNotations.
Open Scope Z_scope.

(* ================================================================== *)
(** * JavaScript values *)

(** A JS [number] as the script uses it: an integer, or [NaN] (what
    [parseInt] gives for a class such as ["hdd_typeX"]). *)
Inductive JsNum : Type :=
| Int (z : Z)
| NaN.

(** [n === z] for a number [n] and an integer literal or counter [z]. *)
Definition numIs (n : JsNum) (z : Z) : bool :=
  match n with
  | Int k => k =? z
  | NaN => false
  end.

(** [n - z]. *)
Definition numSub (n : JsNum) (z : Z) : JsNum :=
  match n with
  | Int k => Int (k - z)
  | NaN => NaN
  end.

(** What a JS expression can throw in this script. *)
Inductive Error : Type :=
| GameContainerNotFound   (* 'Game container not found' *)
| NoCellsFound            (* 'No cells with valid IDs found' *)
| TypeError               (* property access on undefined or null *)
| PageError.              (* a rejected puppeteer call *)

Inductive result (A : Type) : Type :=
| Ok (a : A)
| Throw (e : Error).
Arguments Ok {A} a.
Arguments Throw {A} e.

(* ================================================================== *)
(** * Data model (lines 4-15) *)

Record Cell : Type := mkCell {
  revealed : bool;
  flagged : bool;
  value : option JsNum          (* number | null *)
}.

Definition Board : Type := list (list Cell).   (* board[row][col] *)

Record BoardState : Type := mkBoardState {
  board : Board;
  width : Z;                    (* number of columns *)
  height : Z;                   (* number of rows *)
  gameOver : bool
}.

Definition Pos : Type := (Z * Z)%type.          (* [row, col] *)

(** [board[r][c]]; [None] stands for [undefined] (also when [board[r]] is
    [undefined], where the script would already throw). *)
Definition getCell (b : Board) (r c : Z) : option Cell :=
  if (r <? 0) || (c <? 0) then None
  else match nth_error b (Z.to_nat r) with
       | Some rw => nth_error rw (Z.to_nat c)
       | None => None
       end.

(** [xs[i] = x] on an index inside the array. *)
Fixpoint setNth {A : Type} (xs : list A) (i : nat) (x : A) : option (list A) :=
  match xs, i with
  | [], _ => None
  | _ :: tl, O => Some (x :: tl)
  | y :: tl, S j => match setNth tl j x with
                    | Some tl' => Some (y :: tl')
                    | None => None
                    end
  end.

(** [board[row][col] = cell].  The reader only writes inside the grid it
    has just allocated ([evalBoardState_total] below); [None] marks the
    writes it never performs. *)
Definition setCell (b : Board) (row col : nat) (cell : Cell) : option Board :=
  match nth_error b row with
  | Some rw => match setNth rw col cell with
               | Some rw' => setNth b row rw'
               | None => None
               end
  | None => None
  end.

(** [for (let i = 0; i < n; i++)] over a bound that the loop body does not
    change. *)
Definition range (n : Z) : list Z := map Z.of_nat (seq 0 (Z.to_nat n)).

(* ================================================================== *)
(** * The snapshot reader (lines 52-126) *)

(** A DOM element as the reader sees it. *)
Record Element : Type := mkElement {
  id : string;
  classList : list string
}.

(** [s.startsWith(p)] *)
Definition startsWith (p s : string) : bool := String.prefix p s.

(** [xs.includes(s)] *)
Definition includes (s : string) (xs : list string) : bool :=
  existsb (String.eqb s) xs.

(** [s.replace(pat, '')]: the first occurrence of [pat] is removed. *)
Fixpoint replaceFirst (pat s : string) : string :=
  if String.prefix pat s
  then String.substring (String.length pat) (String.length s - String.length pat) s
  else match s with
       | EmptyString => EmptyString
       | String c tl => String c (replaceFirst pat tl)
       end.

(** The two built-ins of the JS runtime that the reader applies to strings
    taken from the page. *)
Class JsRuntime : Type := {
  (** [parseInt(s)] *)
  parseInt : string -> JsNum;
  (** [id.match(/cell_(\d+)_(\d+)/)] followed by [.map(Number)], giving
      the two groups [(col, row)]; [None] when the match is [null]. *)
  matchCellId : string -> option (nat * nat)
}.

Section SnapshotReader.
Context {JS : JsRuntime}.

Definition emptyCell : Cell := mkCell false false None.

(** Lines 94-115: the state of one cell from its class list, and whether
    the cell sets [gameOver]. *)
Definition cellStateOf (classes : list string) : Cell * bool :=
  if includes "hdd_opened" classes then
    match find (startsWith "hdd_type") classes with
    | Some valueClass =>
        let v := parseInt (replaceFirst "hdd_type" valueClass) in
        if numIs v 10 then (mkCell true false (Some (Int (-2))), true)
        else if numIs v 11 then (mkCell true false (Some (Int (-1))), true)
        else (mkCell true false (Some v), false)
    | None => (mkCell true false (Some (Int 0)), false)
    end
  else if includes "hdd_flag" classes then (mkCell false true None, false)
  else (emptyCell, false).

(** Lines 66-72: [[row, col]] of every id; a [null] match throws. *)
Fixpoint parseCoords (ids : list string) : result (list (nat * nat)) :=
  match ids with
  | [] => Ok []
  | i :: tl =>
      match matchCellId i with
      | None => Throw TypeError
      | Some (col, row) =>
          match parseCoords tl with
          | Ok cs => Ok ((row, col) :: cs)
          | Throw e => Throw e
          end
      end
  end.

(** Lines 87-118: the [cells.forEach] that fills the board. *)
Fixpoint populate (cells : list Element) (b : Board) (over : bool)
  : result (Board * bool) :=
  match cells with
  | [] => Ok (b, over)
  | cell :: tl =>
      if negb (startsWith "cell_" (id cell)) then populate tl b over
      else match matchCellId (id cell) with
           | None => Throw TypeError
           | Some (col, row) =>
               let '(cellState, mine) := cellStateOf (classList cell) in
               match setCell b row col cellState with
               | Some b' => populate tl b' (over || mine)
               | None => Throw TypeError
               end
           end
  end.

(** The callback of [page.evaluate] (lines 55-122).  [game] is the list
    [game.querySelectorAll('[id^="cell_"]')], or [None] when [#game] is
    not in the document. *)
Definition evalBoardState (game : option (list Element)) : result BoardState :=
  match game with
  | None => Throw GameContainerNotFound
  | Some cells =>
      let cellIds := map id cells in
      match parseCoords (filter (startsWith "cell_") cellIds) with
      | Throw e => Throw e
      | Ok coords =>
          if (List.length coords =? 0)%nat then Throw NoCellsFound
          else
            let h := S (list_max (map fst coords)) in
            let w := S (list_max (map snd coords)) in
            let board0 := repeat (repeat emptyCell w) h in
            match populate cells board0 false with
            | Throw e => Throw e
            | Ok (b, over) => Ok (mkBoardState b (Z.of_nat w) (Z.of_nat h) over)
            end
      end
  end.

End SnapshotReader.

(* ================================================================== *)
(** * The console dump of a board (lines 181-196) *)

(** [`${n}`] for a number [n].  Every digit is written, which is what a
    template literal does for the safe integers (up to 2^53 - 1 in size):
    past them JS keeps 17 significant digits, and from 1e21 on it writes
    an exponent, which this function does not follow. *)
Definition numToString (n : JsNum) : string :=
  match n with
  | Int z => NilZero.string_of_int (Z.to_int z)
  | NaN => "NaN"
  end.

(** The text added to [rowState] for one cell. *)
Definition showCell (cell : Cell) : string :=
  if flagged cell then "F "
  else if negb (revealed cell) then ". "
  else match value cell with
       | Some v =>
           if numIs v 0 then "0 "
           else if numIs v (-1) then "[M] "
           else if numIs v (-2) then "M "
           else numToString v ++ " "
       | None => "null "
       end.

Fixpoint printRow (b : Board) (row : Z) (cols : list Z) (rowState : string)
  : result string :=
  match cols with
  | [] => Ok rowState
  | col :: tl =>
      match getCell b row col with
      | None => Throw TypeError
      | Some cell => printRow b row tl (rowState ++ showCell cell)
      end
  end.

Fixpoint printRows (b : Board) (w : Z) (rows : list Z) : result (list string) :=
  match rows with
  | [] => Ok []
  | row :: tl =>
      match printRow b row (range w) "" with
      | Throw e => Throw e
      | Ok line => match printRows b w tl with
                   | Ok lines => Ok (line :: lines)
                   | Throw e => Throw e
                   end
      end
  end.

(** The lines written after ['Board state:']. *)
Definition printBoardState (b : Board) (w h : Z) : result (list string) :=
  printRows b w (range h).

(* ================================================================== *)
(** * Neighbours and counts (lines 218-237, 290-302) *)

(** The two nested loops [for dr = -1..1], [for dc = -1..1] with the
    centre skipped and the bounds test of line 227 (and 296): the
    positions whose cells the loop body reads, in scan order. *)
Definition neighborsOf (w h row col : Z) : list Pos :=
  flat_map (fun dr =>
    flat_map (fun dc =>
      if (dr =? 0) && (dc =? 0) then []
      else
        let nr := row + dr in
        let nc := col + dc in
        if (nr >=? 0) && (nr <? h) && (nc >=? 0) && (nc <? w)
        then [(nr, nc)] else [])
      [-1; 0; 1])
    [-1; 0; 1].

(** The three accumulators of lines 218-220. *)
Record Counts : Type := mkCounts {
  unopenedNeighbors : Z;
  flaggedNeighbors : Z;
  neighbors : list Pos
}.

(** Lines 228-234, over the in-bounds positions. *)
Fixpoint countLoop (b : Board) (ps : list Pos) (acc : Counts) : result Counts :=
  match ps with
  | [] => Ok acc
  | (nr, nc) :: tl =>
      match getCell b nr nc with
      | None => Throw TypeError
      | Some neighbor =>
          if negb (revealed neighbor) && negb (flagged neighbor) then
            countLoop b tl (mkCounts (unopenedNeighbors acc + 1)
                                     (flaggedNeighbors acc)
                                     (neighbors acc ++ [(nr, nc)]))
          else if flagged neighbor then
            countLoop b tl (mkCounts (unopenedNeighbors acc)
                                     (flaggedNeighbors acc + 1)
                                     (neighbors acc))
          else countLoop b tl acc
      end
  end.

Definition countNeighbors (s : BoardState) (row col : Z) : result Counts :=
  countLoop (board s) (neighborsOf (width s) (height s) row col)
            (mkCounts 0 0 []).

(** Lines 290-302: the search for a revealed neighbour, which stops at
    the first one found. *)
Fixpoint hasRevealedNeighbor (b : Board) (ps : list Pos) : result bool :=
  match ps with
  | [] => Ok false
  | (nr, nc) :: tl =>
      match getCell b nr nc with
      | None => Throw TypeError
      | Some neighbor =>
          if revealed neighbor then Ok true else hasRevealedNeighbor b tl
      end
  end.

(** Lines 285-306: the candidates of rule 3, in scan order. *)
Fixpoint candidatesRow (s : BoardState) (row : Z) (cols : list Z)
  : result (list Pos) :=
  match cols with
  | [] => Ok []
  | col :: tl =>
      match getCell (board s) row col with
      | None => Throw TypeError
      | Some cell =>
          let here :=
            if negb (revealed cell) && negb (flagged cell) then
              match hasRevealedNeighbor (board s)
                      (neighborsOf (width s) (height s) row col) with
              | Ok true => Ok [(row, col)]
              | Ok false => Ok []
              | Throw e => Throw e
              end
            else Ok [] in
          match here with
          | Throw e => Throw e
          | Ok c => match candidatesRow s row tl with
                    | Ok cs => Ok (c ++ cs)
                    | Throw e => Throw e
                    end
          end
      end
  end.

Fixpoint candidatesRows (s : BoardState) (rows : list Z) : result (list Pos) :=
  match rows with
  | [] => Ok []
  | row :: tl =>
      match candidatesRow s row (range (width s)) with
      | Throw e => Throw e
      | Ok c => match candidatesRows s tl with
                | Ok cs => Ok (c ++ cs)
                | Throw e => Throw e
                end
      end
  end.

Definition candidates (s : BoardState) : result (list Pos) :=
  candidatesRows s (range (height s)).

(* ================================================================== *)
(** * The world outside the script *)

(** The page, the clock and the random source.  [clickCell] (lines
    129-178) only talks to the page: it is taken whole, as what one call
    does to the world. *)
Class Browser (World : Type) : Type := {
  (** [await delay(ms)] *)
  delay : Z -> World -> World;
  (** The cells [page.evaluate] finds: [None] without a [#game] element. *)
  gameCells : World -> option (list Element);
  (** [await clickCell(page, row, col, isRightClick)] *)
  clickCell : Z -> Z -> bool -> World -> result World;
  (** [Math.floor(Math.random() * n)] *)
  randomIndex : Z -> World -> Z * World
}.

(** What the script does to the world, in order. *)
Inductive Event : Type :=
| EvSnapshot (s : BoardState)                    (* getBoardState returned s *)
| EvClick (row col : Z) (isRightClick : bool)    (* clickCell was called *)
| EvSkip (row col : Z).                          (* 'Skipping already flagged cell' *)

Inductive outcome (A : Type) : Type :=
| Done (a : A)
| Thrown (e : Error)
| OutOfFuel.
Arguments Done {A} a.
Arguments Thrown {A} e.
Arguments OutOfFuel {A}.

(** A computation of the script: it changes the world, leaves a trace and
    ends with a value, an exception, or not within the fuel given. *)
Definition M (World A : Type) : Type := World -> World * list Event * outcome A.

Definition ret {World A : Type} (a : A) : M World A :=
  fun w => (w, [], Done a).

Definition bind {World A B : Type} (m : M World A) (k : A -> M World B)
  : M World B :=
  fun w =>
    match m w with
    | (w1, evs1, Done a) =>
        match k a w1 with
        | (w2, evs2, r) => (w2, evs1 ++ evs2, r)
        end
    | (w1, evs1, Thrown e) => (w1, evs1, Thrown e)
    | (w1, evs1, OutOfFuel) => (w1, evs1, OutOfFuel)
    end.

Notation "x <- m ;; k" := (bind m (fun x => k))
  (at level 61, m at next level, right associativity).
Notation "m ;;; k" := (bind m (fun _ => k))
  (at level 61, right associativity).

Definition throw {World A : Type} (e : Error) : M World A :=
  fun w => (w, [], Thrown e).

Definition outOfFuel {World A : Type} : M World A :=
  fun w => (w, [], OutOfFuel).

Definition emit {World : Type} (e : Event) : M World unit :=
  fun w => (w, [e], Done tt).

Definition liftResult {World A : Type} (r : result A) : M World A :=
  match r with
  | Ok a => ret a
  | Throw e => throw e
  end.

(** The mutable variables of [solveStep]: the four taken from the latest
    snapshot (always assigned together) and [actionTaken]. *)
Record Locals : Type := mkLocals {
  state : BoardState;
  actionTaken : bool
}.

(** How a piece of [solveStep] ends: it falls through to the next
    statement, or it executes [return b]. *)
Inductive Flow : Type :=
| Next (L : Locals)
| Return (b : bool).

Section Solver.
Context {JS : JsRuntime} {World : Type} {B : Browser World}.

Local Abbreviation M := (M World).

(** Lines 52-126. *)
Definition getBoardState : M BoardState :=
  fun w =>
    let w1 := delay 1000 w in
    match evalBoardState (gameCells w1) with
    | Ok s => (w1, [EvSnapshot s], Done s)
    | Throw e => (w1, [], Thrown e)
    end.

Definition doClick (row col : Z) (isRightClick : bool) : M unit :=
  fun w =>
    match clickCell row col isRightClick w with
    | Ok w1 => (w1, [EvClick row col isRightClick], Done tt)
    | Throw e => (w, [EvClick row col isRightClick], Thrown e)
    end.

Definition print (s : BoardState) : M unit :=
  _ <- liftResult (printBoardState (board s) (width s) (height s)) ;; ret tt.

(** Lines 248-258 and 267-277: the snapshot taken after a click. *)
Definition refetch : M Flow :=
  newState <- getBoardState ;;
  print newState ;;;
  if gameOver newState then ret (Return false)
  else ret (Next (mkLocals newState true)).

(** Lines 242-259: rule 1 over the recorded neighbours. *)
Fixpoint flagLoop (ns : list Pos) (L : Locals) : M Flow :=
  match ns with
  | [] => ret (Next L)
  | (nr, nc) :: tl =>
      match getCell (board (state L)) nr nc with
      | None => throw TypeError
      | Some c =>
          if flagged c then emit (EvSkip nr nc) ;;; flagLoop tl L
          else
            doClick nr nc true ;;;
            r <- refetch ;;
            match r with
            | Return b => ret (Return b)
            | Next L' => flagLoop tl L'
            end
      end
  end.

(** Lines 265-278: rule 2 over the recorded neighbours. *)
Fixpoint revealLoop (ns : list Pos) (L : Locals) : M Flow :=
  match ns with
  | [] => ret (Next L)
  | (nr, nc) :: tl =>
      doClick nr nc false ;;;
      r <- refetch ;;
      match r with
      | Return b => ret (Return b)
      | Next L' => revealLoop tl L'
      end
  end.

(** Line 215: the value of a cell that carries a constraint; [None] for
    the cells the scan passes over with [continue]. *)
Definition constraintValue (cell : Cell) : option JsNum :=
  if negb (revealed cell) then None
  else match value cell with
       | None => None
       | Some v =>
           if numIs v 0 || numIs v (-1) || numIs v (-2) then None else Some v
       end.

(** Lines 239-279, once the counts of the cell are known. *)
Definition applyRules (v : JsNum) (k : Counts) (L : Locals) : M Flow :=
  r <- (if (unopenedNeighbors k >? 0) &&
           match numSub v (flaggedNeighbors k) with
           | Int d => unopenedNeighbors k =? d
           | NaN => false
           end
        then flagLoop (neighbors k) L
        else ret (Next L)) ;;
  match r with
  | Return b => ret (Return b)
  | Next L1 =>
      if (unopenedNeighbors k >? 0) && numIs v (flaggedNeighbors k)
      then revealLoop (neighbors k) L1
      else ret (Next L1)
  end.

(** Lines 214-279: the body of the two scanning loops. *)
Definition cellBody (row col : Z) (L : Locals) : M Flow :=
  match getCell (board (state L)) row col with
  | None => throw TypeError
  | Some cell =>
      match constraintValue cell with
      | None => ret (Next L)
      | Some v =>
          k <- liftResult (countNeighbors (state L) row col) ;;
          applyRules v k L
      end
  end.

(** Line 213: [for (col = ...; col < width; col++)].  [width] is assigned
    in the body, so the loop is run on fuel. *)
Fixpoint colLoop (fuel : nat) (row col : Z) (L : Locals) : M Flow :=
  match fuel with
  | O => outOfFuel
  | S n =>
      if col <? width (state L) then
        r <- cellBody row col L ;;
        match r with
        | Return b => ret (Return b)
        | Next L' => colLoop n row (col + 1) L'
        end
      else ret (Next L)
  end.

(** Line 212: [for (row = ...; row < height; row++)]. *)
Fixpoint rowLoop (colFuel fuel : nat) (row : Z) (L : Locals) : M Flow :=
  match fuel with
  | O => outOfFuel
  | S n =>
      if row <? height (state L) then
        r <- colLoop colFuel row 0 L ;;
        match r with
        | Return b => ret (Return b)
        | Next L' => rowLoop colFuel n (row + 1) L'
        end
      else ret (Next L)
  end.

(** [candidates[i]] *)
Definition nthPos (cs : list Pos) (i : Z) : option Pos :=
  if i <? 0 then None else nth_error cs (Z.to_nat i).

(** Line 309: [Math.floor(Math.random() * n)]. *)
Definition pick (n : Z) : M Z :=
  fun w => let '(i, w1) := randomIndex n w in (w1, [], Done i).

(** Lines 283-322: rule 3. *)
Definition randomMove (L : Locals) : M bool :=
  cs <- liftResult (candidates (state L)) ;;
  if Z.of_nat (List.length cs) >? 0 then
    i <- pick (Z.of_nat (List.length cs)) ;;
    match nthPos cs i with
    | None => throw TypeError
    | Some (row, col) =>
        doClick row col false ;;;
        newState <- getBoardState ;;
        print newState ;;;
        if gameOver newState then ret false else ret true
    end
  else ret (actionTaken L).

(** Lines 198-326. *)
Definition solveStep (fuel : nat) : M bool :=
  s <- getBoardState ;;
  print s ;;;
  if gameOver s then ret false
  else
    r <- rowLoop fuel fuel 0 (mkLocals s false) ;;
    match r with
    | Return b => ret b
    | Next L =>
        if negb (actionTaken L) then randomMove L
        else ret (actionTaken L)
    end.

(** One call of [solveStep] as the main loop sees it. *)
Record StepRecord : Type := mkStepRecord {
  stepEvents : list Event;
  stepOutcome : outcome bool
}.

(** Lines 353-361: [while (maxIterations--)], with [maxIterations] counting
    down from its initial value to 0, and the [delay] after a step that
    took an action. *)
Fixpoint solvingLoop (fuel : nat) (maxIterations : nat) (w : World)
  : World * list StepRecord * outcome unit :=
  match maxIterations with
  | O => (w, [], Done tt)
  | S n =>
      match solveStep fuel w with
      | (w1, evs, Done taken) =>
          if negb taken then (w1, [mkStepRecord evs (Done taken)], Done tt)
          else
            match solvingLoop fuel n (delay 1000 w1) with
            | (w2, recs, r) => (w2, mkStepRecord evs (Done taken) :: recs, r)
            end
      | (w1, evs, Thrown e) => (w1, [mkStepRecord evs (Thrown e)], Thrown e)
      | (w1, evs, OutOfFuel) => (w1, [mkStepRecord evs OutOfFuel], OutOfFuel)
      end
  end.

End Solver.

(* ================================================================== *)
(** * Sample worlds

    Concrete instances of [JsRuntime] and [Browser], on which the
    definitions above can be run. *)

Module Sample.

(** ** The string built-ins on ASCII input *)

Definition isSpace (c : ascii) : bool :=
  let n := nat_of_ascii c in
  ((9 <=? n) && (n <=? 13) || (n =? 32))%nat.

Fixpoint trimStart (s : string) : string :=
  match s with
  | String c tl => if isSpace c then trimStart tl else s
  | EmptyString => s
  end.

(** The value of [c] as a digit in [radix], if it is one. *)
Definition digitVal (radix : Z) (c : ascii) : option Z :=
  let n := Z.of_nat (nat_of_ascii c) in
  let v := if (48 <=? n) && (n <=? 57) then Some (n - 48)
           else if (97 <=? n) && (n <=? 122) then Some (n - 87)
           else if (65 <=? n) && (n <=? 90) then Some (n - 55)
           else None in
  match v with
  | Some d => if d <? radix then Some d else None
  | None => None
  end.

(** The number written by the longest prefix of digits; [acc] is [None]
    until a digit has been read. *)
Fixpoint readDigits (radix : Z) (s : string) (acc : option Z) : option Z :=
  match s with
  | EmptyString => acc
  | String c tl =>
      match digitVal radix c with
      | Some d =>
          readDigits radix tl
            (Some (radix * match acc with Some a => a | None => 0 end + d))
      | None => acc
      end
  end.

(** [parseInt(s)] without a radix: leading white space, a sign, an
    optional [0x], then digits. *)
Definition parseInt (s : string) : JsNum :=
  let s1 := trimStart s in
  let '(sign, s2) :=
    match s1 with
    | String "-" tl => (-1, tl)
    | String "+" tl => (1, tl)
    | _ => (1, s1)
    end in
  let '(radix, s3) :=
    if String.prefix "0x" s2 || String.prefix "0X" s2
    then (16, String.substring 2 (String.length s2 - 2) s2)
    else (10, s2) in
  match readDigits radix s3 None with
  | Some n => Int (sign * n)
  | None => NaN
  end.

(** The longest prefix of decimal digits, and what follows it. *)
Fixpoint spanDigits (s : string) : string * string :=
  match s with
  | String c tl =>
      match digitVal 10 c with
      | Some _ => let '(ds, r) := spanDigits tl in (String c ds, r)
      | None => (EmptyString, s)
      end
  | EmptyString => (EmptyString, EmptyString)
  end.

Definition numberOfDigits (ds : string) : nat :=
  match readDigits 10 ds None with
  | Some n => Z.to_nat n
  | None => O
  end.

(** [/cell_(\d+)_(\d+)/] tried at the start of [s]. *)
Definition matchCellIdAt (s : string) : option (nat * nat) :=
  if String.prefix "cell_" s then
    let '(d1, r1) := spanDigits (String.substring 5 (String.length s - 5) s) in
    match d1, r1 with
    | String _ _, String "_" r2 =>
        match spanDigits r2 with
        | (String _ _ as d2, _) => Some (numberOfDigits d1, numberOfDigits d2)
        | _ => None
        end
    | _, _ => None
    end
  else None.

(** The first match in [s], scanning from the left. *)
Fixpoint matchCellId (s : string) : option (nat * nat) :=
  match matchCellIdAt s with
  | Some m => Some m
  | None => match s with
            | String _ tl => matchCellId tl
            | EmptyString => None
            end
  end.

#[export] Instance asciiRuntime : JsRuntime :=
  Build_JsRuntime parseInt matchCellId.

(** ** Rendering a board as the page shows it *)

Definition dec (n : Z) : string := NilZero.string_of_uint (N.to_uint (Z.to_N n)).

Definition classesOf (cell : Cell) : list string :=
  if revealed cell then
    match value cell with
    | Some (Int (-1)) => ["cell"; "hdd_opened"; "hdd_type11"]%string
    | Some (Int (-2)) => ["cell"; "hdd_opened"; "hdd_type10"]%string
    | Some (Int n) => ["cell"; "hdd_opened"; "hdd_type" ++ dec n]%string
    | _ => ["cell"; "hdd_opened"]%string
    end
  else if flagged cell then ["cell"; "hdd_closed"; "hdd_flag"]%string
  else ["cell"; "hdd_closed"]%string.

Definition renderRow (row : Z) (cells : list Cell) : list Element :=
  map (fun '(col, cell) =>
         mkElement ("cell_" ++ dec col ++ "_" ++ dec row)%string (classesOf cell))
      (combine (range (Z.of_nat (List.length cells))) cells).

Definition render (b : Board) : list Element :=
  flat_map (fun '(row, cells) => renderRow row cells)
           (combine (range (Z.of_nat (List.length b))) b).

(** Short names for drawing boards. *)
Definition o : Cell := mkCell false false None.                 (* unopened *)
Definition F : Cell := mkCell false true None.                  (* flagged *)
Definition n (v : Z) : Cell := mkCell true false (Some (Int v)). (* opened *)

(** ** A scripted page

    The page shows the first board of [pages]; every click moves it on to
    the next one, if there is one.  [randoms] are the values
    [Math.floor(Math.random() * n)] will take, then 0. *)
Record Script : Type := mkScript {
  pages : list Board;
  randoms : list Z
}.

#[export] Instance scriptBrowser : Browser Script := {|
  delay := fun _ w => w;
  gameCells := fun w => match pages w with
                        | p :: _ => Some (render p)
                        | [] => None
                        end;
  clickCell := fun _ _ _ w =>
    Ok (mkScript (match pages w with
                  | _ :: (_ :: _) as next => next
                  | last => last
                  end) (randoms w));
  randomIndex := fun _ w => (hd 0 (randoms w), mkScript (pages w) (tl (randoms w)))
|}.

(** ** A page that plays by the rules of the game

    A left click on a mine ends the game and shows the mines; on a safe
    cell it opens the cell and, when no mine touches it, the cells around
    it, and so on.  A right click sets or removes a flag. *)
Record Game : Type := mkGame {
  gWidth : Z;
  gHeight : Z;
  mines : list Pos;
  opened : list Pos;
  flags : list Pos;
  exploded : option Pos;
  dice : list Z
}.

Definition posEqb (p q : Pos) : bool :=
  (fst p =? fst q) && (snd p =? snd q).

Definition mem (p : Pos) (ps : list Pos) : bool := existsb (posEqb p) ps.

Definition adjacent (p q : Pos) : bool :=
  negb (posEqb p q) &&
  (Z.abs (fst p - fst q) <=? 1) && (Z.abs (snd p - snd q) <=? 1).

Definition minesAround (g : Game) (p : Pos) : Z :=
  Z.of_nat (List.length (filter (adjacent p) (mines g))).

Definition inside (g : Game) (p : Pos) : bool :=
  (0 <=? fst p) && (fst p <? gHeight g) && (0 <=? snd p) && (snd p <? gWidth g).

Definition around (p : Pos) : list Pos :=
  let '(r, c) := p in
  [(r - 1, c - 1); (r - 1, c); (r - 1, c + 1); (r, c - 1); (r, c + 1);
   (r + 1, c - 1); (r + 1, c); (r + 1, c + 1)].

(** Opening the cells of [todo], spreading from those with no mine around. *)
Fixpoint spread (fuel : nat) (g : Game) (todo acc : list Pos) : list Pos :=
  match fuel with
  | O => acc
  | S k =>
      match todo with
      | [] => acc
      | p :: tl =>
          if inside g p && negb (mem p acc) && negb (mem p (flags g))
             && negb (mem p (mines g))
          then if minesAround g p =? 0
               then spread k g (around p ++ tl) (p :: acc)
               else spread k g tl (p :: acc)
          else spread k g tl acc
      end
  end.

Definition leftClick (g : Game) (p : Pos) : Game :=
  match exploded g with
  | Some _ => g
  | None =>
      if negb (inside g p) || mem p (flags g) || mem p (opened g) then g
      else if mem p (mines g)
      then mkGame (gWidth g) (gHeight g) (mines g) (opened g) (flags g)
                  (Some p) (dice g)
      else mkGame (gWidth g) (gHeight g) (mines g)
                  (spread (Z.to_nat (9 * gWidth g * gHeight g + 1)) g [p] (opened g))
                  (flags g) None (dice g)
  end.

Definition rightClick (g : Game) (p : Pos) : Game :=
  match exploded g with
  | Some _ => g
  | None =>
      if negb (inside g p) || mem p (opened g) then g
      else mkGame (gWidth g) (gHeight g) (mines g) (opened g)
                  (if mem p (flags g)
                   then filter (fun q => negb (posEqb p q)) (flags g)
                   else p :: flags g)
                  None (dice g)
  end.

Definition cellAt (g : Game) (p : Pos) : Cell :=
  if mem p (opened g) then n (minesAround g p)
  else if match exploded g with Some q => posEqb p q | None => false end
  then n (-1)
  else if mem p (flags g) then F
  else if match exploded g with Some _ => mem p (mines g) | None => false end
  then n (-2)
  else o.

Definition boardOf (g : Game) : Board :=
  map (fun r => map (fun c => cellAt g (r, c)) (range (gWidth g)))
      (range (gHeight g)).

#[export] Instance gameBrowser : Browser Game := {|
  delay := fun _ g => g;
  gameCells := fun g => Some (render (boardOf g));
  clickCell := fun row col isRightClick g =>
    Ok (if isRightClick then rightClick g (row, col) else leftClick g (row, col));
  randomIndex := fun _ g =>
    (hd 0 (dice g),
     mkGame (gWidth g) (gHeight g) (mines g) (opened g) (flags g)
            (exploded g) (tl (dice g)))
|}.

(** ** Sample situations *)

(** One row, a 2 between two unopened cells. *)
Definition rule1Board : BoardState :=
  mkBoardState [[o; n 2; o]] 3 1 false.

(** A page that shows this row and, after the first click, a mine opened
    at (0, 0). *)
Definition rule1Script : Script :=
  mkScript [board rule1Board; [[n (-1); n 2; o]]] [].

(** The same row on a page that plays by the rules: both unopened cells
    are mines. *)
Definition rule1Game : Game :=
  mkGame 3 1 [(0, 0); (0, 2)] [(0, 1)] [] None [].

(** One row: a flagged mine, a 1, an unopened safe cell. *)
Definition rule2Game : Game :=
  mkGame 3 1 [(0, 0)] [(0, 1)] [(0, 0)] None [].

(** Two rows; the flag at (0, 0) is wrong, the mine is at (0, 2). *)
Definition wrongFlagGame : Game :=
  mkGame 3 2 [(0, 2)] [(0, 1)] [(0, 0)] None [].

(** A page that never changes: one row, a 1 between two unopened cells. *)
Definition steadyScript : Script :=
  mkScript [[[o; n 1; o]]] [].

(** Two rows; the only mine, at (0, 0), is flagged, and (0, 1) is open. *)
Definition cascadeGame : Game :=
  mkGame 3 2 [(0, 0)] [(0, 1)] [(0, 0)] None [].

End Sample.

(* ================================================================== *)
(** * What the statements speak of *)

(** The three components of a run. *)
Definition worldOf {W A : Type} (x : W * list Event * outcome A) : W :=
  fst (fst x).
Definition traceOf {W A : Type} (x : W * list Event * outcome A) : list Event :=
  snd (fst x).
Definition outcomeOf {W A : Type} (x : W * list Event * outcome A) : outcome A :=
  snd x.

(** The two invariants of a cell: [value] is set exactly on revealed
    cells, and no cell is both flagged and revealed. *)
Definition cellInvariant (c : Cell) : Prop :=
  (value c <> None <-> revealed c = true) /\
  (flagged c && revealed c = false).

(** A grid of [height] rows of [width] cells. *)
Definition rectangular (s : BoardState) : Prop :=
  0 <= width s /\ 0 <= height s /\
  List.length (board s) = Z.to_nat (height s) /\
  Forall (fun rw => List.length rw = Z.to_nat (width s)) (board s).

Definition isRevealed (b : Board) (p : Pos) : bool :=
  match getCell b (fst p) (snd p) with
  | Some c => revealed c
  | None => false
  end.

Definition isFlagged (b : Board) (p : Pos) : bool :=
  match getCell b (fst p) (snd p) with
  | Some c => flagged c
  | None => false
  end.

(** Neither revealed nor flagged. *)
Definition isUnopened (b : Board) (p : Pos) : bool :=
  match getCell b (fst p) (snd p) with
  | Some c => negb (revealed c) && negb (flagged c)
  | None => false
  end.

(** The neighbours of a cell that are neither revealed nor flagged, and
    those that are flagged. *)
Definition unopenedOf (s : BoardState) (row col : Z) : list Pos :=
  filter (isUnopened (board s)) (neighborsOf (width s) (height s) row col).

Definition flaggedOf (s : BoardState) (row col : Z) : list Pos :=
  filter (isFlagged (board s)) (neighborsOf (width s) (height s) row col).

(** Every position of the grid, row by row. *)
Definition positions (s : BoardState) : list Pos :=
  flat_map (fun row => map (fun col => (row, col)) (range (width s)))
           (range (height s)).

(** A cell of the frontier: neither revealed nor flagged, with a revealed
    neighbour. *)
Definition frontier (s : BoardState) (p : Pos) : bool :=
  isUnopened (board s) p &&
  existsb (isRevealed (board s))
          (neighborsOf (width s) (height s) (fst p) (snd p)).

(** The same, spelled out on the cells. *)
Definition onFrontier (s : BoardState) (row col : Z) : Prop :=
  exists cell,
    getCell (board s) row col = Some cell /\
    revealed cell = false /\ flagged cell = false /\
    exists nr nc ncell,
      In (nr, nc) (neighborsOf (width s) (height s) row col) /\
      getCell (board s) nr nc = Some ncell /\ revealed ncell = true.

(** The kind of a click (line 131). *)
Inductive ActionKind : Type := Reveal | Flag.

Definition kindOf (isRightClick : bool) : ActionKind :=
  if isRightClick then Flag else Reveal.

Definition Action : Type := (Pos * ActionKind)%type.

(** The clicks of a trace. *)
Fixpoint actions (evs : list Event) : list Action :=
  match evs with
  | [] => []
  | EvClick r c k :: tl => ((r, c), kindOf k) :: actions tl
  | _ :: tl => actions tl
  end.

(** The cells a trace clicks or skips, in order. *)
Fixpoint visited (evs : list Event) : list Pos :=
  match evs with
  | [] => []
  | EvClick r c _ :: tl => (r, c) :: visited tl
  | EvSkip r c :: tl => (r, c) :: visited tl
  | EvSnapshot _ :: tl => visited tl
  end.

Fixpoint skips (evs : list Event) : list Pos :=
  match evs with
  | [] => []
  | EvSkip r c :: tl => (r, c) :: skips tl
  | _ :: tl => skips tl
  end.

(** The board of the last snapshot of a trace that starts on board [b]. *)
Fixpoint latestBoard (b : Board) (evs : list Event) : Board :=
  match evs with
  | [] => b
  | EvSnapshot s :: tl => latestBoard (board s) tl
  | _ :: tl => latestBoard b tl
  end.

(** Every click of the trace is a flag on a cell that the latest board
    shows without a flag, and every skip is of a cell it shows flagged. *)
Fixpoint flagTraceOk (b : Board) (evs : list Event) : bool :=
  match evs with
  | [] => true
  | EvSnapshot s :: tl => flagTraceOk (board s) tl
  | EvClick r c k :: tl => k && negb (isFlagged b (r, c)) && flagTraceOk b tl
  | EvSkip r c :: tl => isFlagged b (r, c) && flagTraceOk b tl
  end.

Definition hasClick (evs : list Event) : bool :=
  match actions evs with
  | [] => false
  | _ :: _ => true
  end.

(** Some snapshot taken after a click shows the game over; [clicked]
    tells whether a click came before the trace. *)
Fixpoint gameOverAfterClick (clicked : bool) (evs : list Event) : bool :=
  match evs with
  | [] => false
  | EvClick _ _ _ :: tl => gameOverAfterClick true tl
  | EvSnapshot s :: tl => (clicked && gameOver s) || gameOverAfterClick clicked tl
  | EvSkip _ _ :: tl => gameOverAfterClick clicked tl
  end.

(** A page on which a step cannot fail: [Inv] holds of every world the
    script can reach, the page always shows a grid of [W0] columns and
    [H0] rows, clicks succeed, and the random index is in range. *)
Record wellBehaved {JS : JsRuntime} {World : Type} {B : Browser World}
       (Inv : World -> Prop) (W0 H0 : Z) : Prop := {
  wb_delay : forall ms w, Inv w -> Inv (delay ms w);
  wb_page :
    forall w, Inv w ->
              exists s, evalBoardState (gameCells w) = Ok s /\
                        width s = W0 /\ height s = H0;
  wb_click :
    forall row col k w, Inv w ->
                        exists w', clickCell row col k w = Ok w' /\ Inv w';
  wb_random :
    forall n w, Inv w -> 0 < n ->
                0 <= fst (randomIndex n w) < n /\ Inv (snd (randomIndex n w))
}.

(** Locals that hold a full grid of [W0] columns and [H0] rows. *)
Definition goodLocalsAt (W0 H0 : Z) (L : Locals) : Prop :=
  rectangular (state L) /\ width (state L) = W0 /\ height (state L) = H0.

(** The piece ends with [Next] or [Return], in a world of the invariant. *)
Definition finishesIn {World : Type} (Inv : World -> Prop) (W0 H0 : Z)
           (x : World * list Event * outcome Flow) : Prop :=
  Inv (worldOf x) /\
  exists f, outcomeOf x = Done f /\
            forall L', f = Next L' -> goodLocalsAt W0 H0 L'.

(** What running a piece of the scan from locals [L] leaves behind: if
    it falls through, every snapshot it took was alive and [actionTaken]
    has been raised by its clicks; if it returns, it returns [false]
    after a snapshot that shows the game over. *)
Definition flowOk (L : Locals) (evs : list Event) (r : outcome Flow) : Prop :=
  match r with
  | Done (Next L') =>
      gameOverAfterClick true evs = false /\
      actionTaken L' = actionTaken L || hasClick evs
  | Done (Return b) => b = false /\ gameOverAfterClick false evs = true
  | _ => True
  end.

(** The ends of a dimension of [n] cells. *)
Definition atEnd (n i : Z) : Prop := i = 0 \/ i = n - 1.

(** The hard cap of line 353. *)
Definition maxIterations : nat := 100.

(** Scenario A: a 3x3 board, the centre opened with value 0, the eight
    cells around it unopened and without a flag. *)
Definition scenarioA : BoardState :=
  mkBoardState
    [[Sample.o; Sample.o; Sample.o];
     [Sample.o; Sample.n 0; Sample.o];
     [Sample.o; Sample.o; Sample.o]]
    3 3 false.

(** The board the page of [Sample.rule2Game] shows. *)
Definition rule2Board : BoardState :=
  mkBoardState [[Sample.F; Sample.n 1; Sample.o]] 3 1 false.

(** The board the page of [Sample.wrongFlagGame] shows. *)
Definition wrongFlagBoard : BoardState :=
  mkBoardState [[Sample.F; Sample.n 1; Sample.o];
                [Sample.o; Sample.o; Sample.o]] 3 2 false.

(** A page that shows scenario A, then the cell (1, 2) opened; the random
    index is 4. *)
Definition scenarioAScript : Sample.Script :=
  Sample.mkScript
    [board scenarioA;
     [[Sample.o; Sample.o; Sample.o];
      [Sample.o; Sample.n 0; Sample.n 1];
      [Sample.o; Sample.o; Sample.o]]]
    [4].

(** The board the page of [Sample.wrongFlagGame] shows once the mine at
    (0, 2) has been hit. *)
Definition lostGame : Sample.Game :=
  Sample.leftClick Sample.wrongFlagGame (0, 2).

(* ================================================================== *)
(** * The rest of the script

    The click on a cell (lines 129-178), the status of the game (lines
    340-347 and 364-371) and the main function around the solving loop
    (lines 328-373). *)

(** ** [clickCell] on the puppeteer page *)

(** [#cell_${col}_${row}] without the [#]: the id of the cell. *)
Definition cellId (row col : Z) : string :=
  ("cell_" ++ numToString (Int col) ++ "_" ++ numToString (Int row))%string.

Definition cellSelector (row col : Z) : string :=
  String "#"%char (cellId row col).

(** What [cell.boundingBox()] resolves to. *)
Record Box : Type := mkBox {
  box_x : float;
  box_y : float;
  box_width : float;
  box_height : float
}.

(** The puppeteer calls of [clickCell].  Each takes the world to the
    world after the call.  A promise that [clickCell] awaits outside a
    [try] gives a [result], [Throw] when it was rejected; for the two
    awaited inside a [try] a boolean tells whether the promise resolved
    ([true]) or was rejected, the error being dropped by the [catch]. *)
Class Puppeteer (World : Type) : Type := {
  (** [await page.$(selector)]: is there such an element? *)
  page_query : string -> World -> World * result bool;
  (** [await page.click(selector, { button })], right button when [true] *)
  page_click : string -> bool -> World -> World * bool;
  (** [await cell.boundingBox()] *)
  handle_boundingBox : string -> World -> World * result (option Box);
  (** [await page.mouse.click(x, y, { button })] *)
  mouse_click : float -> float -> bool -> World -> World * result unit;
  (** [await page.waitForFunction(..., { timeout: 10000 }, selector)] *)
  page_waitForFunction : string -> World -> World * bool;
  (** [await delay(ms)] *)
  timer_delay : Z -> World -> World
}.

(** The calls [clickCell] makes and the two warnings that tell how the
    wait for the DOM went. *)
Inductive PageEvent : Type :=
| PgQuery (selector : string)
| PgClick (selector : string) (rightButton resolved : bool)
| PgBox (selector : string)
| PgMouse (x y : float) (rightButton resolved : bool)
| PgWait (selector : string) (resolved : bool)
| PgTimeoutWarning (attempt : Z)    (* 'DOM update timeout (retry attempt/3)' *)
| PgGaveUp                          (* 'DOM update failed after retries' *)
| PgDelay (ms : Z).

Section ClickCell.
Context {World : Type} {P : Puppeteer World}.

(** Lines 155-171: [while (retries--)] from [retries] down, with the
    value [retries] has when the loop is left. *)
Fixpoint waitLoop (selector : string) (retries : nat) (w : World)
  : World * list PageEvent * Z :=
  match retries with
  | O => (w, [], -1)
  | S n =>
      let '(w1, resolved) := page_waitForFunction selector w in
      if resolved then (w1, [PgWait selector true], Z.of_nat n)
      else
        let '(w2, evs, remaining) := waitLoop selector n (timer_delay 1000 w1) in
        (w2,
         PgWait selector false :: PgTimeoutWarning (3 - Z.of_nat n)
           :: PgDelay 1000 :: evs,
         remaining)
  end.

(** Lines 154-177: what follows the click. *)
Definition afterClick (selector : string) (w : World) (before : list PageEvent)
  : World * list PageEvent * result unit :=
  let '(w1, evs, remaining) := waitLoop selector 3 w in
  (timer_delay 1000 w1,
   before ++ evs ++ (if remaining <? 0 then [PgGaveUp] else []) ++ [PgDelay 1000],
   Ok tt).

(** Lines 129-178. *)
Definition clickCellOnPage (row col : Z) (isRightClick : bool) (w : World)
  : World * list PageEvent * result unit :=
  let selector := cellSelector row col in
  let '(w1, cell) := page_query selector w in
  match cell with
  | Throw e => (w1, [PgQuery selector], Throw e)
  | Ok false => (w1, [PgQuery selector], Ok tt)
  | Ok true =>
      let '(w2, clicked) := page_click selector isRightClick w1 in
      if clicked then
        afterClick selector w2
                   [PgQuery selector; PgClick selector isRightClick true]
      else
        let '(w3, boundingBox) := handle_boundingBox selector w2 in
        match boundingBox with
        | Throw e =>
            (w3, [PgQuery selector; PgClick selector isRightClick false;
                  PgBox selector], Throw e)
        | Ok None =>
            (w3, [PgQuery selector; PgClick selector isRightClick false;
                  PgBox selector], Ok tt)
        | Ok (Some bb) =>
            let x := (box_x bb + box_width bb / 2)%float in
            let y := (box_y bb + box_height bb / 2)%float in
            let '(w4, moused) := mouse_click x y isRightClick w3 in
            match moused with
            | Ok _ =>
                afterClick selector w4
                           [PgQuery selector;
                            PgClick selector isRightClick false;
                            PgBox selector; PgMouse x y isRightClick true]
            | Throw e =>
                (w4, [PgQuery selector; PgClick selector isRightClick false;
                      PgBox selector; PgMouse x y isRightClick false],
                 Throw e)
            end
        end
  end.

(** The world the solver runs in, with [clickCell] as the script has it:
    [cells] reads the page and [random] is [Math.floor(Math.random() * n)]. *)
Definition browserOf (cells : World -> option (list Element))
           (random : Z -> World -> Z * World) : Browser World := {|
  delay := timer_delay;
  gameCells := cells;
  clickCell := fun row col isRightClick w =>
    match clickCellOnPage row col isRightClick w with
    | (w1, _, Ok _) => Ok w1
    | (_, _, Throw e) => Throw e
    end;
  randomIndex := random
|}.

End ClickCell.

(** ** The status of the game and the main function *)

(** The class lists of [#smiley] and [#game], [None] for an element that
    is not in the document. *)
Class StatusPage (World : Type) : Type := {
  smileyClasses : World -> option (list string);
  gameClasses : World -> option (list string)
}.

(** Lines 343-344 and 367-368. *)
Definition lossCondition (smiley game : option (list string)) : bool :=
  match smiley with
  | Some classes => includes "hd_lose" classes || includes "hdd_lose" classes
  | None => false
  end
  || match game with
     | Some classes => includes "gameover" classes
     | None => false
     end.

(** Lines 340-347 and 364-371: the callback of [page.evaluate]. *)
Definition gameStatus (smiley game : option (list string)) : string :=
  if lossCondition smiley game then "lost"
  else if match smiley with
          | Some classes => includes "hd_win" classes
          | None => false
          end
       then "won"
       else "ongoing".

Section Main.
Context {JS : JsRuntime} {World : Type} {B : Browser World}
        {SP : StatusPage World}.

Definition statusOf (w : World) : string :=
  gameStatus (smileyClasses w) (gameClasses w).

(** Lines 328-337: the first click, on the centre cell, and the snapshot
    after it. *)
Definition opening : M World BoardState :=
  s <- getBoardState ;;
  doClick (height s / 2) (width s / 2) false ;;;
  initial <- getBoardState ;;
  print initial ;;;
  ret initial.

(** Lines 328-373: the opening, then the status at once when the first
    click hit a mine, else the solving loop and the status after it. *)
Definition main (fuel : nat) (w : World)
  : World * list Event * list StepRecord * outcome string :=
  match opening w with
  | (w1, evs, Done initial) =>
      if gameOver initial then (w1, evs, [], Done (statusOf w1))
      else
        match solvingLoop fuel maxIterations w1 with
        | (w2, recs, Done _) => (w2, evs, recs, Done (statusOf w2))
        | (w2, recs, Thrown e) => (w2, evs, recs, Thrown e)
        | (w2, recs, OutOfFuel) => (w2, evs, recs, OutOfFuel)
        end
  | (w1, evs, Thrown e) => (w1, evs, [], Thrown e)
  | (w1, evs, OutOfFuel) => (w1, evs, [], OutOfFuel)
  end.

End Main.

(** ** Sample pages for the click and for the status *)

Module SamplePage.

(** A page that answers [clickCell] by a script: is the cell in the
    page, does [page.click] resolve, the bounding box of the cell, does
    the mouse click resolve, and how the successive waits end ([true]
    once the list is used up).  [slept] adds up the delays. *)
Record Page : Type := mkPage {
  cellInPage : bool;
  clickResolves : bool;
  boxOfCell : option Box;
  mouseResolves : bool;
  waits : list bool;
  slept : Z
}.

#[export] Instance scriptedPage : Puppeteer Page := {|
  page_query := fun _ p => (p, Ok (cellInPage p));
  page_click := fun _ _ p => (p, clickResolves p);
  handle_boundingBox := fun _ p => (p, Ok (boxOfCell p));
  mouse_click := fun _ _ _ p =>
    (p, if mouseResolves p then Ok tt else Throw PageError);
  page_waitForFunction := fun _ p =>
    match waits p with
    | [] => (p, true)
    | b :: tl =>
        (mkPage (cellInPage p) (clickResolves p) (boxOfCell p)
                (mouseResolves p) tl (slept p), b)
    end;
  timer_delay := fun ms p =>
    mkPage (cellInPage p) (clickResolves p) (boxOfCell p) (mouseResolves p)
           (waits p) (slept p + ms)
|}.

(** [page.click] is rejected, the cell is a square of 24 pixels at
    (10, 20), and the cell changes during the third wait. *)
Definition slowPage : Page :=
  mkPage true false (Some (mkBox 10 20 24 24)) true [false; false] 0.

(** The smiley and the game element of a page that plays by the rules:
    the game is lost once a mine was opened, and won once every cell
    without a mine is open. *)
Definition allOpen (g : Sample.Game) : bool :=
  forallb (fun row =>
             forallb (fun col =>
                        Sample.mem (row, col) (Sample.mines g)
                        || Sample.mem (row, col) (Sample.opened g))
                     (range (Sample.gWidth g)))
          (range (Sample.gHeight g)).

#[export] Instance gameStatusPage : StatusPage Sample.Game := {|
  smileyClasses := fun g =>
    Some match Sample.exploded g with
         | Some _ => ["top-area-face"; "hd_lose"]%string
         | None => if allOpen g then ["top-area-face"; "hd_win"]%string
                   else ["top-area-face"; "hd_unpressed"]%string
         end;
  gameClasses := fun g => Some ["game"]%string
|}.

(** A page of one row of two cells, with a smiley; the cell (0, 1) is
    written twice. *)
Definition twiceWritten : list Element :=
  [mkElement "cell_0_0" ["cell"; "hdd_closed"];
   mkElement "cell_1_0" ["cell"; "hdd_opened"; "hdd_type2"];
   mkElement "smiley" ["hd_unpressed"];
   mkElement "cell_1_0" ["cell"; "hdd_closed"; "hdd_flag"]]%string.

(** A page of one row of two cells, the first one a mine that was
    clicked. *)
Definition mineShown : list Element :=
  [mkElement "cell_0_0" ["cell"; "hdd_opened"; "hdd_type11"];
   mkElement "cell_1_0" ["cell"; "hdd_closed"]]%string.

(** Three rows of three cells with one mine, in the centre. *)
Definition centreMineGame : Sample.Game :=
  Sample.mkGame 3 3 [(1, 1)] [] [] None [].

End SamplePage.

(** ** A page that grows *)

Module SampleGrowth.

(** The page after [clicks] clicks. *)
Record Page : Type := mkPage { clicks : nat }.

(** What the page shows of its only row after [k] clicks: an opened 1 in
    the column [k] and, from the first click on, in the column [k - 1],
    and a closed cell in the column [k + 1].  The cells further to the
    left have no element. *)
Definition opened1 (col : nat) : Element :=
  mkElement (cellId 0 (Z.of_nat col)) ["cell"; "hdd_opened"; "hdd_type1"]%string.

Definition closed (col : nat) : Element :=
  mkElement (cellId 0 (Z.of_nat col)) ["cell"; "hdd_closed"]%string.

Definition cellsAfter (k : nat) : list Element :=
  match k with
  | O => []
  | S j => [opened1 j]
  end ++ [opened1 k; closed (S k)].

(** Every click, whatever its cell and button, makes the row one cell
    longer. *)
#[export] Instance growingBrowser : Browser Page := {|
  delay := fun _ p => p;
  gameCells := fun p => Some (cellsAfter (clicks p));
  clickCell := fun _ _ _ p => Ok (mkPage (S (clicks p)));
  randomIndex := fun _ p => (0, p)
|}.

Definition start : Page := mkPage 0.

End SampleGrowth.

(** What the reader returns on the growing page after [k] clicks: one row
    of [k + 2] cells, an opened 1 at [k] (and at [k - 1]) and an unopened
    cell at [k + 1]. *)
Definition shownAfter (k : nat) (s : BoardState) : Prop :=
  evalBoardState (JS := Sample.asciiRuntime)
                 (Some (SampleGrowth.cellsAfter k)) = Ok s /\
  rectangular s /\
  width s = Z.of_nat k + 2 /\ height s = 1 /\ gameOver s = false /\
  getCell (board s) 0 (Z.of_nat k) = Some (Sample.n 1) /\
  getCell (board s) 0 (Z.of_nat k + 1) = Some Sample.o /\
  (0 < Z.of_nat k -> getCell (board s) 0 (Z.of_nat k - 1) = Some (Sample.n 1)).

(** A cell whose value is written digit by digit: no value, [NaN], or
    a safe integer ([Number.MAX_SAFE_INTEGER] is 2^53 - 1). *)
Definition safeValue (c : Cell) : bool :=
  match value c with
  | Some (Int z) => Z.abs z <=? 9007199254740991
  | _ => true
  end.

Definition safeValues (b : Board) : bool := forallb (forallb safeValue) b.

(** The number written by the digits of [d] after those that gave
    [acc]. *)
Fixpoint uintValue (d : Decimal.uint) (acc : Z) : Z :=
  match d with
  | Decimal.Nil => acc
  | Decimal.D0 l => uintValue l (10 * acc + 0)
  | Decimal.D1 l => uintValue l (10 * acc + 1)
  | Decimal.D2 l => uintValue l (10 * acc + 2)
  | Decimal.D3 l => uintValue l (10 * acc + 3)
  | Decimal.D4 l => uintValue l (10 * acc + 4)
  | Decimal.D5 l => uintValue l (10 * acc + 5)
  | Decimal.D6 l => uintValue l (10 * acc + 6)
  | Decimal.D7 l => uintValue l (10 * acc + 7)
  | Decimal.D8 l => uintValue l (10 * acc + 8)
  | Decimal.D9 l => uintValue l (10 * acc + 9)
  end.

(** ** What the further statements speak of *)

Section ReaderStatements.
Context {JS : JsRuntime}.

(** The last element of the page whose id starts with ["cell_"] and
    names the cell [(row, col)]. *)
Fixpoint lastWriter (cells : list Element) (row col : nat) : option Element :=
  match cells with
  | [] => None
  | e :: tl =>
      match lastWriter tl row col with
      | Some e' => Some e'
      | None =>
          if startsWith "cell_" (id e) &&
             match matchCellId (id e) with
             | Some (c, r) => (r =? row)%nat && (c =? col)%nat
             | None => false
             end
          then Some e else None
      end
  end.

(** An opened cell whose value class reads 10 or 11. *)
Definition showsMine (classes : list string) : Prop :=
  includes "hdd_opened" classes = true /\
  exists valueClass,
    find (startsWith "hdd_type") classes = Some valueClass /\
    (parseInt (replaceFirst "hdd_type" valueClass) = Int 10 \/
     parseInt (replaceFirst "hdd_type" valueClass) = Int 11).

End ReaderStatements.

(** The text of one row of the dump. *)
Definition showRow (rw : list Cell) : string :=
  fold_left (fun rowState cell => (rowState ++ showCell cell)%string) rw
            EmptyString.

(** ** Traces of [clickCell] *)

(** The event is about the element [selector] and the button
    [rightButton]. *)
Definition addresses (selector : string) (rightButton : bool)
           (ev : PageEvent) : Prop :=
  match ev with
  | PgQuery s | PgBox s | PgWait s _ => s = selector
  | PgClick s b _ => s = selector /\ b = rightButton
  | PgMouse _ _ b _ => b = rightButton
  | PgTimeoutWarning _ | PgGaveUp | PgDelay _ => True
  end.

(** A click that puppeteer reports as done. *)
Definition wentThrough (ev : PageEvent) : bool :=
  match ev with
  | PgClick _ _ resolved | PgMouse _ _ _ resolved => resolved
  | _ => false
  end.

(** What [clickCell] does after the click: waiting and warning. *)
Definition isWaiting (ev : PageEvent) : bool :=
  match ev with
  | PgWait _ _ | PgTimeoutWarning _ | PgGaveUp | PgDelay _ => true
  | _ => false
  end.

(** One failed attempt of the wait, as the console and the timers see
    it. *)
Definition failedAttempt (selector : string) (attempt : nat)
  : list PageEvent :=
  [PgWait selector false; PgTimeoutWarning (Z.of_nat attempt); PgDelay 1000].

(** No click follows another without a snapshot in between; [pending]
    tells whether a click is waiting for its snapshot. *)
Fixpoint snapshotBetweenClicks (pending : bool) (evs : list Event) : bool :=
  match evs with
  | [] => true
  | EvClick _ _ _ :: tl => negb pending && snapshotBetweenClicks true tl
  | EvSnapshot _ :: tl => snapshotBetweenClicks false tl
  | EvSkip _ _ :: tl => snapshotBetweenClicks pending tl
  end.

(** Is a click still waiting for its snapshot at the end of the trace? *)
Fixpoint pendingAfter (pending : bool) (evs : list Event) : bool :=
  match evs with
  | [] => pending
  | EvClick _ _ _ :: tl => pendingAfter true tl
  | EvSnapshot _ :: tl => pendingAfter false tl
  | EvSkip _ _ :: tl => pendingAfter pending tl
  end.

(** A trace in which every click is followed by its snapshot before the
    next click, and by the end when the piece ends with a value. *)
Definition sepOk {X : Type} (evs : list Event) (r : outcome X) : Prop :=
  snapshotBetweenClicks false evs = true /\
  match r with
  | Done _ => pendingAfter false evs = false
  | _ => True
  end.

(** Every click comes after a snapshot that was taken since the click
    before it and that shows no mine; [live] tells whether the board was
    read since the last click and showed no mine. *)
Fixpoint liveClicks (live : bool) (evs : list Event) : bool :=
  match evs with
  | [] => true
  | EvClick _ _ _ :: tl => live && liveClicks false tl
  | EvSnapshot s :: tl => liveClicks (negb (gameOver s)) tl
  | EvSkip _ _ :: tl => liveClicks live tl
  end.

Fixpoint liveAfter (live : bool) (evs : list Event) : bool :=
  match evs with
  | [] => live
  | EvClick _ _ _ :: tl => liveAfter false tl
  | EvSnapshot s :: tl => liveAfter (negb (gameOver s)) tl
  | EvSkip _ _ :: tl => liveAfter live tl
  end.

(** A piece of the scan that starts on a live board clicks only on a
    live board, and leaves one when the scan goes on. *)
Definition liveOk (evs : list Event) (r : outcome Flow) : Prop :=
  liveClicks true evs = true /\
  match r with
  | Done (Next _) => liveAfter true evs = true
  | _ => True
  end.

(** The test of rule 1 or of rule 2 succeeds for the cell [(row, col)]
    of the board. *)
Definition ruleApplies (s : BoardState) (row col : Z) : bool :=
  match getCell (board s) row col with
  | Some cell =>
      match constraintValue cell with
      | Some v =>
          let u := Z.of_nat (List.length (unopenedOf s row col)) in
          let f := Z.of_nat (List.length (flaggedOf s row col)) in
          (u >? 0) &&
          (match numSub v f with
           | Int d => u =? d
           | NaN => false
           end
           || numIs v f)
      | None => false
      end
  | None => false
  end.

(* ================================================================== *)
(** * The snapshot reader builds well-formed boards *)

Lemma setNth_Forall {A : Type} (P : A -> Prop) (xs : list A) :
  forall i x xs', Forall P xs -> P x -> setNth xs i x = Some xs' -> Forall P xs'.
Proof.
  induction xs as [|y tl IH]; intros i x xs' Hall Hx Hset; simpl in Hset.
  - discriminate.
  - inversion Hall; subst. destruct i as [|j].
    + inversion Hset; subst. constructor; assumption.
    + destruct (setNth tl j x) as [tl'|] eqn:E; [|discriminate].
      inversion Hset; subst. constructor; [assumption|].
      apply (IH j x tl'); assumption.
Qed.

Lemma setNth_length {A : Type} (xs : list A) :
  forall i x xs', setNth xs i x = Some xs' -> List.length xs' = List.length xs.
Proof.
  induction xs as [|y tl IH]; intros i x xs' Hset; simpl in Hset.
  - discriminate.
  - destruct i as [|j].
    + inversion Hset; reflexivity.
    + destruct (setNth tl j x) as [tl'|] eqn:E; [|discriminate].
      inversion Hset; subst. simpl. f_equal. apply (IH j x tl' E).
Qed.

Lemma setNth_inside {A : Type} (xs : list A) :
  forall i x, (i < List.length xs)%nat -> exists xs', setNth xs i x = Some xs'.
Proof.
  induction xs as [|y tl IH]; intros i x Hi; simpl in *.
  - lia.
  - destruct i as [|j]; [eauto|].
    destruct (IH j x) as [tl' E]; [lia|]. rewrite E. eauto.
Qed.

Lemma nth_error_Forall {A : Type} (P : A -> Prop) (xs : list A) i x :
  Forall P xs -> nth_error xs i = Some x -> P x.
Proof.
  intros Hall Hn. rewrite Forall_forall in Hall.
  apply Hall. eapply nth_error_In; eauto.
Qed.

Lemma getCell_Forall (P : Cell -> Prop) (b : Board) r c cell :
  Forall (Forall P) b -> getCell b r c = Some cell -> P cell.
Proof.
  unfold getCell. intros Hall Hget.
  destruct ((r <? 0) || (c <? 0)); [discriminate|].
  destruct (nth_error b (Z.to_nat r)) as [rw|] eqn:E; [|discriminate].
  eapply nth_error_Forall; [|exact Hget].
  eapply nth_error_Forall with (P := Forall P); eauto.
Qed.

Lemma setCell_Forall (P : Cell -> Prop) (b b' : Board) row col cell :
  Forall (Forall P) b -> P cell -> setCell b row col cell = Some b' ->
  Forall (Forall P) b'.
Proof.
  unfold setCell. intros Hall Hc Hset.
  destruct (nth_error b row) as [rw|] eqn:E; [|discriminate].
  destruct (setNth rw col cell) as [rw'|] eqn:E'; [|discriminate].
  eapply setNth_Forall; [exact Hall| |exact Hset].
  eapply setNth_Forall; [|exact Hc|exact E'].
  eapply nth_error_Forall with (P := Forall P); eauto.
Qed.

Lemma setCell_shape (w : nat) (b b' : Board) row col cell :
  Forall (fun rw => List.length rw = w) b ->
  setCell b row col cell = Some b' ->
  List.length b' = List.length b /\ Forall (fun rw => List.length rw = w) b'.
Proof.
  unfold setCell. intros Hall Hset.
  destruct (nth_error b row) as [rw|] eqn:E; [|discriminate].
  destruct (setNth rw col cell) as [rw'|] eqn:E'; [|discriminate].
  split; [eapply setNth_length; eauto|].
  eapply setNth_Forall; [exact Hall| |exact Hset].
  simpl. rewrite (setNth_length _ _ _ _ E').
  eapply nth_error_Forall with (P := fun rw => List.length rw = w); eauto.
Qed.

Lemma setCell_inside (w : nat) (b : Board) row col cell :
  Forall (fun rw => List.length rw = w) b ->
  (row < List.length b)%nat -> (col < w)%nat ->
  exists b', setCell b row col cell = Some b'.
Proof.
  unfold setCell. intros Hall Hr Hc.
  destruct (nth_error b row) as [rw|] eqn:E.
  - assert (Hl : List.length rw = w)
      by (eapply nth_error_Forall with (P := fun rw => List.length rw = w); eauto).
    destruct (setNth_inside rw col cell) as [rw' E']; [lia|].
    rewrite E'. apply setNth_inside. assumption.
  - apply nth_error_None in E. lia.
Qed.

Section SnapshotFacts.
Context {JS : JsRuntime}.

Lemma cellStateOf_invariant (classes : list string) :
  cellInvariant (fst (cellStateOf classes)).
Proof.
  unfold cellStateOf, cellInvariant.
  destruct (includes "hdd_opened" classes).
  - destruct (find (startsWith "hdd_type") classes) as [vc|]; simpl.
    + destruct (numIs _ 10); [simpl; intuition congruence|].
      destruct (numIs _ 11); simpl; intuition congruence.
    + intuition congruence.
  - destruct (includes "hdd_flag" classes); simpl; intuition congruence.
Qed.

Lemma populate_Forall (P : Cell -> Prop) :
  (forall classes, P (fst (cellStateOf classes))) ->
  forall cells b over b' over',
    Forall (Forall P) b -> populate cells b over = Ok (b', over') ->
    Forall (Forall P) b'.
Proof.
  intros HP. induction cells as [|cell tl IH]; intros b over b' over' Hall Hpop;
    simpl in Hpop.
  - inversion Hpop; subst; assumption.
  - destruct (negb (startsWith "cell_" (id cell))); [eapply IH; eauto|].
    destruct (matchCellId (id cell)) as [[col row]|]; [|discriminate].
    specialize (HP (classList cell)).
    destruct (cellStateOf (classList cell)) as [cs mine].
    destruct (setCell b row col cs) as [b1|] eqn:E; [|discriminate].
    eapply IH; [|exact Hpop]. eapply setCell_Forall; eauto.
Qed.

Lemma populate_shape (w : nat) :
  forall cells b over b' over',
    Forall (fun rw => List.length rw = w) b ->
    populate cells b over = Ok (b', over') ->
    List.length b' = List.length b /\ Forall (fun rw => List.length rw = w) b'.
Proof.
  induction cells as [|cell tl IH]; intros b over b' over' Hall Hpop;
    simpl in Hpop.
  - inversion Hpop; subst; auto.
  - destruct (negb (startsWith "cell_" (id cell))); [eapply IH; eauto|].
    destruct (matchCellId (id cell)) as [[col row]|]; [|discriminate].
    destruct (cellStateOf (classList cell)) as [cs mine].
    destruct (setCell b row col cs) as [b1|] eqn:E; [|discriminate].
    destruct (setCell_shape _ _ _ _ _ _ Hall E) as [Hl Hall1].
    destruct (IH _ _ _ _ Hall1 Hpop) as [Hl' Hall']. split; congruence.
Qed.

Lemma Forall_repeat {A : Type} (P : A -> Prop) (x : A) (k : nat) :
  P x -> Forall P (repeat x k).
Proof. intros Hx. induction k; simpl; constructor; assumption. Qed.

(** A board produced by the reader is a full grid of its own dimensions
    whose cells satisfy the invariants. *)
Lemma evalBoardState_wellformed (game : option (list Element)) (s : BoardState) :
  evalBoardState game = Ok s ->
  rectangular s /\ Forall (Forall cellInvariant) (board s).
Proof.
  unfold evalBoardState. intros H.
  destruct game as [cells|]; [|discriminate].
  destruct (parseCoords _) as [coords|]; [|discriminate].
  destruct (List.length coords =? 0)%nat; [discriminate|].
  set (h := S (list_max (map fst coords))) in *.
  set (w := S (list_max (map snd coords))) in *.
  clearbody h w.
  destruct (populate cells (repeat (repeat emptyCell w) h) false)
    as [[b over]|] eqn:E; [|discriminate].
  inversion H; subst; clear H.
  assert (Hrows : Forall (fun rw : list Cell => List.length rw = w)
                         (repeat (repeat emptyCell w) h))
    by (apply Forall_repeat; apply repeat_length).
  destruct (populate_shape _ _ _ _ _ _ Hrows E) as [Hl Hall].
  rewrite repeat_length in Hl.
  split.
  - unfold rectangular; cbn [board width height].
    rewrite !Nat2Z.id. repeat split; try lia; assumption.
  - simpl. eapply populate_Forall; [apply cellStateOf_invariant| |exact E].
    apply Forall_repeat, Forall_repeat.
    unfold cellInvariant, emptyCell; simpl. intuition congruence.
Qed.

Lemma In_list_max (l : list nat) (x : nat) : In x l -> (x <= list_max l)%nat.
Proof.
  intros Hin. pose proof (proj1 (list_max_le l (list_max l)) (le_n _)) as Hall.
  rewrite Forall_forall in Hall. apply Hall. assumption.
Qed.

Lemma parseCoords_total (ids : list string) :
  (forall i, In i ids -> matchCellId i <> None) ->
  exists coords,
    parseCoords ids = Ok coords /\
    List.length coords = List.length ids /\
    forall i col row, In i ids -> matchCellId i = Some (col, row) ->
                      In (row, col) coords.
Proof.
  induction ids as [|i tl IH]; intros Hall; simpl.
  - exists []. repeat split. intros i col row [].
  - destruct IH as (cs & -> & Hlen & Hin);
      [intros j Hj; apply Hall; right; assumption|].
    pose proof (Hall i (or_introl eq_refl)) as Hi.
    destruct (matchCellId i) as [[col row]|] eqn:E; [|congruence].
    exists ((row, col) :: cs). split; [reflexivity|].
    split; [simpl; congruence|].
    intros j c r [<-|Hj] Hm.
    + rewrite E in Hm. inversion Hm; subst. left; reflexivity.
    + right. eapply Hin; eauto.
Qed.

Lemma populate_total (w h : nat) :
  forall cells b over,
    List.length b = h -> Forall (fun rw => List.length rw = w) b ->
    (forall cell, In cell cells -> startsWith "cell_" (id cell) = true ->
                  exists col row, matchCellId (id cell) = Some (col, row) /\
                                  (row < h)%nat /\ (col < w)%nat) ->
    exists b' over', populate cells b over = Ok (b', over').
Proof.
  induction cells as [|cell tl IH]; intros b over Hl Hall Hin; simpl.
  - eauto.
  - destruct (startsWith "cell_" (id cell)) eqn:Es; simpl.
    + destruct (Hin cell (or_introl eq_refl) Es) as (col & row & -> & Hr & Hc).
      destruct (cellStateOf (classList cell)) as [cs mine].
      destruct (setCell_inside w b row col cs Hall) as [b1 E1]; [lia|lia|].
      rewrite E1.
      destruct (setCell_shape _ _ _ _ _ _ Hall E1) as [Hl1 Hall1].
      apply IH; [lia|assumption|].
      intros c Hc'. apply Hin. right; assumption.
    + apply IH; [assumption|assumption|].
      intros c Hc'. apply Hin. right; assumption.
Qed.

(** The reader returns a board as soon as the page has a cell and every
    id that starts with ["cell_"] has the two numbers: none of its writes
    falls outside the grid it allocates. *)
Lemma evalBoardState_total (cells : list Element) :
  (forall cell, In cell cells -> startsWith "cell_" (id cell) = true ->
                matchCellId (id cell) <> None) ->
  (exists cell, In cell cells /\ startsWith "cell_" (id cell) = true) ->
  exists s, evalBoardState (Some cells) = Ok s.
Proof.
  intros Hids (c0 & Hc0 & Hs0). unfold evalBoardState.
  destruct (parseCoords_total (filter (startsWith "cell_") (map id cells)))
    as (coords & -> & Hlen & Hin).
  { intros i Hi. apply filter_In in Hi. destruct Hi as [Hi Hs].
    apply in_map_iff in Hi. destruct Hi as (cell & <- & Hcell).
    apply Hids; assumption. }
  assert (Hne : (List.length coords =? 0)%nat = false).
  { apply Nat.eqb_neq. rewrite Hlen.
    assert (Hi0 : In (id c0) (filter (startsWith "cell_") (map id cells)))
      by (apply filter_In; split; [apply in_map; assumption|assumption]).
    destruct (filter (startsWith "cell_") (map id cells)); [contradiction|].
    simpl. lia. }
  rewrite Hne.
  set (h := S (list_max (map fst coords))).
  set (w := S (list_max (map snd coords))).
  destruct (populate_total w h cells (repeat (repeat emptyCell w) h) false)
    as (b & over & ->); [apply repeat_length| | |eauto].
  - apply Forall_repeat. apply repeat_length.
  - intros cell Hcell Hs.
    pose proof (Hids cell Hcell Hs) as Hm.
    destruct (matchCellId (id cell)) as [[col row]|] eqn:E; [|congruence].
    exists col, row. split; [reflexivity|].
    assert (Hc : In (row, col) coords).
    { apply (Hin (id cell)); [|assumption].
      apply filter_In. split; [apply in_map; assumption|assumption]. }
    split.
    + apply Nat.lt_succ_r. apply In_list_max.
      change row with (fst (row, col)). apply in_map. assumption.
    + apply Nat.lt_succ_r. apply In_list_max.
      change col with (snd (row, col)). apply in_map. assumption.
Qed.

End SnapshotFacts.

(* ================================================================== *)
(** * Reading a well-formed board never fails *)

Lemma In_range (n i : Z) : In i (range n) <-> 0 <= i < n.
Proof.
  unfold range. rewrite in_map_iff. split.
  - intros [k [Hk Hin]]. apply in_seq in Hin. lia.
  - intros Hi. exists (Z.to_nat i). split; [lia|]. apply in_seq. lia.
Qed.

Lemma getCell_inside (s : BoardState) (r c : Z) :
  rectangular s -> 0 <= r < height s -> 0 <= c < width s ->
  exists cell, getCell (board s) r c = Some cell.
Proof.
  intros (_ & _ & Hl & Hall) Hr Hc. unfold getCell.
  replace ((r <? 0) || (c <? 0)) with false
    by (symmetry; apply orb_false_iff; split; apply Z.ltb_ge; lia).
  destruct (nth_error (board s) (Z.to_nat r)) as [rw|] eqn:E.
  - assert (Hw : List.length rw = Z.to_nat (width s))
      by (eapply nth_error_Forall
            with (P := fun rw => List.length rw = Z.to_nat (width s)); eauto).
    destruct (nth_error rw (Z.to_nat c)) as [cell|] eqn:E'; [eauto|].
    apply nth_error_None in E'. lia.
  - apply nth_error_None in E. lia.
Qed.

Lemma printRow_total (b : Board) (row : Z) :
  forall cols acc,
    (forall col, In col cols -> exists cell, getCell b row col = Some cell) ->
    exists line, printRow b row cols acc = Ok line.
Proof.
  induction cols as [|col tl IH]; intros acc Hin; simpl.
  - eauto.
  - destruct (Hin col (or_introl eq_refl)) as [cell ->].
    apply IH. intros c Hc. apply Hin. right; assumption.
Qed.

Lemma printRows_total (b : Board) (w : Z) :
  forall rows,
    (forall row col, In row rows -> In col (range w) ->
                     exists cell, getCell b row col = Some cell) ->
    exists lines, printRows b w rows = Ok lines.
Proof.
  induction rows as [|row tl IH]; intros Hin; simpl.
  - eauto.
  - destruct (printRow_total b row (range w) "") as [line ->].
    { intros col Hc. apply Hin; [left; reflexivity|assumption]. }
    destruct IH as [lines ->]; [|eauto].
    intros r c Hr Hc. apply Hin; [right|]; assumption.
Qed.

Lemma printBoardState_total (s : BoardState) :
  rectangular s ->
  exists lines, printBoardState (board s) (width s) (height s) = Ok lines.
Proof.
  intros Hrect. apply printRows_total.
  intros row col Hr Hc. apply In_range in Hr, Hc.
  apply getCell_inside; assumption.
Qed.

(* ================================================================== *)
(** * Neighbours *)

Lemma In_neighborsOf (w h row col nr nc : Z) :
  In (nr, nc) (neighborsOf w h row col) <->
  0 <= nr < h /\ 0 <= nc < w /\
  Z.abs (nr - row) <= 1 /\ Z.abs (nc - col) <= 1 /\ (nr, nc) <> (row, col).
Proof.
  unfold neighborsOf. rewrite in_flat_map. split.
  - intros (dr & Hdr & Hin). rewrite in_flat_map in Hin.
    destruct Hin as (dc & Hdc & Hin).
    destruct ((dr =? 0) && (dc =? 0)) eqn:E0; [contradiction|].
    destruct ((row + dr >=? 0) && (row + dr <? h) &&
              (col + dc >=? 0) && (col + dc <? w)) eqn:E1; [|contradiction].
    destruct Hin as [Heq|[]]. inversion Heq; subst; clear Heq.
    rewrite !andb_true_iff in E1. destruct E1 as [[[H1 H2] H3] H4].
    rewrite Z.geb_le in H1, H3. rewrite Z.ltb_lt in H2, H4.
    rewrite andb_false_iff, !Z.eqb_neq in E0.
    simpl in Hdr, Hdc.
    repeat split; try lia.
    intros Heq; inversion Heq; lia.
  - intros (Hr & Hc & Har & Hac & Hne).
    exists (nr - row). split; [simpl; lia|].
    rewrite in_flat_map. exists (nc - col). split; [simpl; lia|].
    replace (row + (nr - row)) with nr by lia.
    replace (col + (nc - col)) with nc by lia.
    replace ((nr - row =? 0) && (nc - col =? 0)) with false.
    + replace ((nr >=? 0) && (nr <? h) && (nc >=? 0) && (nc <? w)) with true.
      * left; reflexivity.
      * symmetry. rewrite !andb_true_iff, !Z.geb_le, !Z.ltb_lt. lia.
    + symmetry. rewrite andb_false_iff, !Z.eqb_neq.
      destruct (Z.eq_dec nr row) as [->|]; [|lia].
      right. intros Hz. apply Hne. f_equal. lia.
Qed.

(** Deciding every comparison of the goal from the hypotheses. *)
Ltac decide_bounds :=
  repeat match goal with
  | |- context [?a >=? ?b] => rewrite (Z.geb_leb a b)
  | |- context [?a <=? ?b] =>
      first [ rewrite (proj2 (Z.leb_le a b)) by lia
            | rewrite (proj2 (Z.leb_gt a b)) by lia ]
  | |- context [?a <? ?b] =>
      first [ rewrite (proj2 (Z.ltb_lt a b)) by lia
            | rewrite (proj2 (Z.ltb_ge a b)) by lia ]
  end.

(** The number of neighbours, by how many of the four sides of the cell
    lie on the border. *)
Lemma neighborsOf_length (w h row col : Z) :
  0 <= row < h -> 0 <= col < w ->
  let rows := (if 0 <? row then 1 else 0) + (if row <? h - 1 then 1 else 0) + 1 in
  let cols := (if 0 <? col then 1 else 0) + (if col <? w - 1 then 1 else 0) + 1 in
  Z.of_nat (List.length (neighborsOf w h row col)) = rows * cols - 1.
Proof.
  intros Hr Hc. unfold neighborsOf.
  cbn [flat_map Z.eqb andb app].
  destruct (Z.ltb_spec 0 row), (Z.ltb_spec row (h - 1)),
           (Z.ltb_spec 0 col), (Z.ltb_spec col (w - 1));
    decide_bounds; reflexivity.
Qed.

Lemma neighborsOf_NoDup (w h row col : Z) :
  0 <= row < h -> 0 <= col < w -> NoDup (neighborsOf w h row col).
Proof.
  intros Hr Hc. unfold neighborsOf.
  cbn [flat_map Z.eqb andb app].
  destruct (Z.ltb_spec 0 row), (Z.ltb_spec row (h - 1)),
           (Z.ltb_spec 0 col), (Z.ltb_spec col (w - 1));
    decide_bounds; cbn [app];
    repeat (constructor;
            [ simpl; intros Hin;
              repeat (destruct Hin as [Hin|Hin]; [inversion Hin; lia|]);
              exact Hin | ]);
    constructor.
Qed.

(* ================================================================== *)
(** * Traces *)

Lemma actions_app (e1 e2 : list Event) :
  actions (e1 ++ e2) = actions e1 ++ actions e2.
Proof.
  induction e1 as [|[s|r c k|r c] tl IH]; simpl; rewrite ?IH; reflexivity.
Qed.

Lemma visited_app (e1 e2 : list Event) :
  visited (e1 ++ e2) = visited e1 ++ visited e2.
Proof.
  induction e1 as [|[s|r c k|r c] tl IH]; simpl; rewrite ?IH; reflexivity.
Qed.

Lemma skips_app (e1 e2 : list Event) :
  skips (e1 ++ e2) = skips e1 ++ skips e2.
Proof.
  induction e1 as [|[s|r c k|r c] tl IH]; simpl; rewrite ?IH; reflexivity.
Qed.

Lemma hasClick_app (e1 e2 : list Event) :
  hasClick (e1 ++ e2) = hasClick e1 || hasClick e2.
Proof.
  unfold hasClick. rewrite actions_app.
  destruct (actions e1); simpl; [destruct (actions e2)|]; reflexivity.
Qed.

Lemma latestBoard_app (b : Board) (e1 e2 : list Event) :
  latestBoard b (e1 ++ e2) = latestBoard (latestBoard b e1) e2.
Proof.
  revert b. induction e1 as [|[s|r c k|r c] tl IH]; intros b; simpl;
    rewrite ?IH; reflexivity.
Qed.

Lemma flagTraceOk_app (b : Board) (e1 e2 : list Event) :
  flagTraceOk b (e1 ++ e2) =
  flagTraceOk b e1 && flagTraceOk (latestBoard b e1) e2.
Proof.
  revert b. induction e1 as [|[s|r c k|r c] tl IH]; intros b; simpl;
    rewrite ?IH, ?andb_assoc; reflexivity.
Qed.

Lemma gameOverAfterClick_app (c : bool) (e1 e2 : list Event) :
  gameOverAfterClick c (e1 ++ e2) =
  gameOverAfterClick c e1 || gameOverAfterClick (c || hasClick e1) e2.
Proof.
  revert c. induction e1 as [|[s|r k0 k|r k0] tl IH]; intros c; simpl.
  - rewrite orb_false_r. reflexivity.
  - rewrite IH, orb_assoc. reflexivity.
  - rewrite IH. rewrite !orb_true_r. reflexivity.
  - rewrite IH. reflexivity.
Qed.

Lemma gameOverAfterClick_mono (evs : list Event) :
  gameOverAfterClick false evs = true -> gameOverAfterClick true evs = true.
Proof.
  induction evs as [|[s|r c k|r c] tl IH]; simpl; intros H.
  - discriminate.
  - apply orb_true_iff. right. apply IH. assumption.
  - assumption.
  - apply IH. assumption.
Qed.

Lemma gameOverAfterClick_no_click (evs : list Event) :
  hasClick evs = false -> gameOverAfterClick false evs = false.
Proof.
  unfold hasClick.
  induction evs as [|[s|r c k|r c] tl IH]; simpl; intros H.
  - reflexivity.
  - apply IH. assumption.
  - discriminate.
  - apply IH. assumption.
Qed.

(* ================================================================== *)
(** * The pieces of [solveStep] *)

Section SolverFacts.
Context {JS : JsRuntime} {World : Type} {B : Browser World}.

Lemma bind_inv {X Y : Type} (m : M World X) (k : X -> M World Y) w w' evs r :
  bind m k w = (w', evs, r) ->
  (exists w1 evs1 a evs2,
      m w = (w1, evs1, Done a) /\ k a w1 = (w', evs2, r) /\ evs = evs1 ++ evs2)
  \/ (exists e, m w = (w', evs, Thrown e) /\ r = Thrown e)
  \/ (m w = (w', evs, OutOfFuel) /\ r = OutOfFuel).
Proof.
  unfold bind. destruct (m w) as [[w1 evs1] [a|e|]]; intros H.
  - left. destruct (k a w1) as [[w2 evs2] r2] eqn:Ek. inversion H; subst.
    exists w1, evs1, a, evs2. repeat split; auto.
  - right; left. inversion H; subst. eauto.
  - right; right. inversion H; subst. auto.
Qed.

Lemma bind_ret {X Y : Type} (a : X) (k : X -> M World Y) w :
  bind (ret a) k w = k a w.
Proof. unfold bind, ret. destruct (k a w) as [[w2 evs2] r2]. reflexivity. Qed.

Lemma bind_done {X Y : Type} (m : M World X) (k : X -> M World Y) w w1 evs1 a :
  m w = (w1, evs1, Done a) ->
  bind m k w
  = (worldOf (k a w1), evs1 ++ traceOf (k a w1), outcomeOf (k a w1)).
Proof.
  unfold bind. intros ->. destruct (k a w1) as [[w2 evs2] r2]. reflexivity.
Qed.

Lemma doClick_ok row col k (w w1 : World) :
  clickCell row col k w = Ok w1 ->
  doClick row col k w = (w1, [EvClick row col k], Done tt).
Proof. unfold doClick. intros ->. reflexivity. Qed.

Lemma getBoardState_inv w w' evs r :
  getBoardState w = (w', evs, r) ->
  w' = delay 1000 w /\
  ((exists s, evalBoardState (gameCells w') = Ok s /\ evs = [EvSnapshot s] /\
              r = Done s /\ rectangular s /\
              Forall (Forall cellInvariant) (board s))
   \/ (exists e, evs = [] /\ r = Thrown e)).
Proof.
  unfold getBoardState. intros H.
  destruct (evalBoardState (gameCells (delay 1000 w))) as [s|e] eqn:E;
    inversion H; subst; split; auto.
  - left. exists s. destruct (evalBoardState_wellformed _ _ E).
    repeat (split; [solve [auto]|]); assumption.
  - right. eauto.
Qed.

Lemma getBoardState_ok (w : World) (s : BoardState) :
  evalBoardState (gameCells (delay 1000 w)) = Ok s ->
  getBoardState w = (delay 1000 w, [EvSnapshot s], Done s).
Proof. unfold getBoardState. intros ->. reflexivity. Qed.

Lemma print_rectangular (s : BoardState) (w : World) :
  rectangular s -> print s w = (w, [], Done tt).
Proof.
  intros Hr. unfold print, bind.
  destruct (printBoardState_total s Hr) as [lines ->]. reflexivity.
Qed.

(** The snapshot after a click: it shows the game over and the step
    returns [false], or it becomes the current board, or reading fails. *)
Lemma refetch_inv w w' evs r :
  refetch w = (w', evs, r) ->
  (exists s, evs = [EvSnapshot s] /\
             r = Done (if gameOver s then Return false
                       else Next (mkLocals s true)))
  \/ (evs = [] /\ exists e, r = Thrown e).
Proof.
  unfold refetch. intros H.
  apply bind_inv in H.
  destruct H as [(w1 & evs1 & s & evs2 & Hg & Hk & ->)|[(e & Hg & ->)|[Hg ->]]];
    apply getBoardState_inv in Hg; destruct Hg as [-> Hg].
  - destruct Hg as [(s' & _ & -> & Hs & Hrect & _)|(e & _ & Hs)]; [|discriminate].
    inversion Hs; subst s'; clear Hs.
    unfold bind in Hk. rewrite (print_rectangular _ _ Hrect) in Hk.
    left. exists s.
    destruct (gameOver s); unfold ret in Hk; inversion Hk; subst; auto.
  - destruct Hg as [(s' & _ & _ & Hs & _)|(e' & -> & _)]; [discriminate|].
    right. eauto.
  - destruct Hg as [(s' & _ & _ & Hs & _)|(e' & _ & Hs)]; discriminate.
Qed.

Lemma doClick_inv row col k w w' evs r :
  doClick row col k w = (w', evs, r) ->
  evs = [EvClick row col k] /\ (r = Done tt \/ exists e, r = Thrown e).
Proof.
  unfold doClick. destruct (clickCell row col k w); intros H;
    inversion H; subst; eauto.
Qed.

(** A click followed by the snapshot and the continuation [K] of the
    loop (lines 247-258 and 266-277). *)
Lemma click_refetch_inv (K : Flow -> M World Flow) row col k w w' evs r :
  (doClick row col k ;;; x <- refetch ;; K x) w = (w', evs, r) ->
  (evs = [EvClick row col k] /\ exists e, r = Thrown e)
  \/ (exists s w1 evs2,
        evs = EvClick row col k :: EvSnapshot s :: evs2 /\
        K (if gameOver s then Return false else Next (mkLocals s true)) w1
          = (w', evs2, r)).
Proof.
  intros H. apply bind_inv in H.
  destruct H as [(w1 & evs1 & [] & evs2 & Hc & Hk & ->)|[(e & Hc & ->)|[Hc ->]]];
    apply doClick_inv in Hc; destruct Hc as [-> Hc].
  - apply bind_inv in Hk.
    destruct Hk as [(w2 & evs3 & x & evs4 & Hf & Hk & ->)|[(e & Hf & ->)|[Hf ->]]];
      apply refetch_inv in Hf.
    + destruct Hf as [(s & -> & Hx)|(_ & e & Hx)]; [|discriminate].
      inversion Hx; subst x. right. exists s, w2, evs4. auto.
    + destruct Hf as [(s & _ & Hx)|(-> & _)]; [discriminate|].
      left. eauto.
    + destruct Hf as [(s & _ & Hx)|(_ & e & Hx)]; discriminate.
  - left. eauto.
  - destruct Hc as [Hc|[e Hc]]; discriminate.
Qed.

(** What the counting loop of lines 222-237 computes. *)
Lemma countLoop_spec (b : Board) :
  forall ps acc k,
    countLoop b ps acc = Ok k ->
    neighbors k = neighbors acc ++ filter (isUnopened b) ps /\
    unopenedNeighbors k =
      unopenedNeighbors acc + Z.of_nat (List.length (filter (isUnopened b) ps)) /\
    flaggedNeighbors k =
      flaggedNeighbors acc + Z.of_nat (List.length (filter (isFlagged b) ps)).
Proof.
  induction ps as [|[nr nc] tl IH]; intros acc k H; simpl in H.
  - inversion H; subst. simpl. rewrite app_nil_r. repeat split; lia.
  - unfold isUnopened, isFlagged in *. simpl.
    destruct (getCell b nr nc) as [c|]; [|discriminate].
    destruct (revealed c), (flagged c); simpl in *;
      apply IH in H; destruct H as (Hn & Hu & Hf); simpl in *;
      rewrite ?Hn, ?Hu, ?Hf, <- ?app_assoc; simpl;
      repeat split; try reflexivity; lia.
Qed.

Lemma countNeighbors_spec (s : BoardState) (row col : Z) (k : Counts) :
  countNeighbors s row col = Ok k ->
  neighbors k = unopenedOf s row col /\
  unopenedNeighbors k = Z.of_nat (List.length (unopenedOf s row col)) /\
  flaggedNeighbors k = Z.of_nat (List.length (flaggedOf s row col)).
Proof.
  unfold countNeighbors, unopenedOf, flaggedOf. intros H.
  apply countLoop_spec in H. simpl in H. exact H.
Qed.

(** Rule 1 walks the recorded neighbours in order: it flags those the
    current board shows without a flag and skips the others, until a
    snapshot shows the game over or a call fails. *)
Lemma flagLoop_trace :
  forall ns L w w' evs r,
    flagLoop ns L w = (w', evs, r) ->
    flagTraceOk (board (state L)) evs = true /\
    (exists rest, ns = visited evs ++ rest) /\
    (forall L', r = Done (Next L') ->
                visited evs = ns /\ latestBoard (board (state L)) evs = board (state L')) /\
    (forall b, r = Done (Return b) ->
               b = false /\ gameOverAfterClick false evs = true).
Proof.
  induction ns as [|[nr nc] tl IH]; intros L w w' evs r H; simpl in H.
  - unfold ret in H. inversion H; subst. simpl.
    split; [reflexivity|]. split; [exists []; reflexivity|].
    split; [|intros b Hb; discriminate].
    intros L' HL'. inversion HL'; subst. auto.
  - destruct (getCell (board (state L)) nr nc) as [c|] eqn:Ec.
    + destruct (flagged c) eqn:Ef.
      * unfold bind, emit in H.
        destruct (flagLoop tl L w) as [[w2 evs2] r2] eqn:E2.
        inversion H; subst; clear H.
        destruct (IH _ _ _ _ _ E2) as (Hok & [rest Hpre] & Hnext & Hret).
        simpl. unfold isFlagged at 1. simpl. rewrite Ec, Ef, Hok.
        split; [reflexivity|].
        split; [exists rest; rewrite Hpre at 1; reflexivity|].
        split.
        -- intros L' HL'. destruct (Hnext L' HL') as [Hv Hb].
           split; [rewrite Hv; reflexivity|assumption].
        -- intros b Hb. apply (Hret b Hb).
      * apply click_refetch_inv in H.
        destruct H as [(-> & e & ->)|(s & w1 & evs2 & -> & HK)].
        -- simpl. unfold isFlagged. simpl. rewrite Ec, Ef.
           split; [reflexivity|]. split; [exists tl; reflexivity|].
           split; intros; discriminate.
        -- simpl. unfold isFlagged at 1. simpl. rewrite Ec, Ef. simpl.
           destruct (gameOver s) eqn:Eg.
           ++ unfold ret in HK. inversion HK; subst. simpl.
              split; [reflexivity|]. split; [exists tl; reflexivity|].
              split; [intros; discriminate|].
              intros b Hb. inversion Hb; subst. auto.
           ++ destruct (IH _ _ _ _ _ HK) as (Hok & [rest Hpre] & Hnext & Hret).
              simpl in Hok, Hnext. rewrite Hok.
              split; [reflexivity|].
              split; [exists rest; rewrite Hpre at 1; reflexivity|].
              split.
              ** intros L' HL'. destruct (Hnext L' HL') as [Hv Hb].
                 split; [rewrite Hv; reflexivity|assumption].
              ** intros b Hb. simpl. apply (Hret b) in Hb.
                 destruct Hb as [-> Hb]. split; [reflexivity|].
                 apply gameOverAfterClick_mono. assumption.
    + unfold throw in H. inversion H; subst. simpl.
      split; [reflexivity|]. split; [exists ((nr, nc) :: tl); reflexivity|].
      split; intros; discriminate.
Qed.

(** Rule 2 clicks the recorded neighbours in order, never skipping. *)
Lemma revealLoop_trace :
  forall ns L w w' evs r,
    revealLoop ns L w = (w', evs, r) ->
    skips evs = [] /\
    (exists rest, map (fun p => (p, Reveal)) ns = actions evs ++ rest) /\
    (forall L', r = Done (Next L') ->
                actions evs = map (fun p => (p, Reveal)) ns).
Proof.
  induction ns as [|[nr nc] tl IH]; intros L w w' evs r H; simpl in H.
  - unfold ret in H. inversion H; subst. simpl.
    split; [reflexivity|]. split; [exists []; reflexivity|]. reflexivity.
  - apply click_refetch_inv in H.
    destruct H as [(-> & e & ->)|(s & w1 & evs2 & -> & HK)]; simpl.
    + split; [reflexivity|]. split; [exists (map (fun p => (p, Reveal)) tl); reflexivity|].
      intros; discriminate.
    + destruct (gameOver s).
      * unfold ret in HK. inversion HK; subst. simpl.
        split; [reflexivity|].
        split; [exists (map (fun p => (p, Reveal)) tl); reflexivity|].
        intros; discriminate.
      * destruct (IH _ _ _ _ _ HK) as (Hs & [rest Hpre] & Hnext).
        split; [assumption|].
        split; [exists rest; rewrite Hpre; reflexivity|].
        intros L' HL'. rewrite (Hnext L' HL'). reflexivity.
Qed.

Lemma flowOk_app (L L1 : Locals) (e1 e2 : list Event) (r : outcome Flow) :
  flowOk L e1 (Done (Next L1)) -> flowOk L1 e2 r -> flowOk L (e1 ++ e2) r.
Proof.
  unfold flowOk. intros [H1 H2] Hr.
  destruct r as [[L2|b]|e|]; auto.
  - destruct Hr as [H3 H4].
    rewrite gameOverAfterClick_app, hasClick_app. simpl.
    rewrite H1, H3, H4, H2. simpl.
    split; [reflexivity|]. symmetry. apply orb_assoc.
  - destruct Hr as [-> H3]. split; [reflexivity|].
    rewrite gameOverAfterClick_app. apply orb_true_iff. right.
    destruct (false || hasClick e1); [apply gameOverAfterClick_mono|]; assumption.
Qed.

(** One click of either rule, its snapshot, and the rest of the loop. *)
Lemma click_then_flow (loop : Locals -> M World Flow) row col k L w w' evs r :
  (forall L1 w1 w2 evs2 r2, loop L1 w1 = (w2, evs2, r2) -> flowOk L1 evs2 r2) ->
  (doClick row col k ;;;
   x <- refetch ;;
   match x with
   | Return b => ret (Return b)
   | Next L' => loop L'
   end) w = (w', evs, r) ->
  flowOk L evs r.
Proof.
  intros Hloop H. apply click_refetch_inv in H.
  destruct H as [(-> & e & ->)|(s & w1 & evs2 & -> & HK)]; [exact I|].
  destruct (gameOver s) eqn:Eg.
  - unfold ret in HK. inversion HK; subst. simpl. rewrite Eg. auto.
  - apply Hloop in HK. unfold flowOk in *.
    destruct r as [[L2|b]|e|]; auto; simpl; rewrite Eg; simpl.
    + destruct HK as [H1 H2]. split; [assumption|].
      rewrite H2. unfold hasClick. simpl. rewrite orb_true_r. reflexivity.
    + destruct HK as [-> H1]. split; [reflexivity|].
      apply gameOverAfterClick_mono. assumption.
Qed.

Lemma flagLoop_flow :
  forall ns L w w' evs r, flagLoop ns L w = (w', evs, r) -> flowOk L evs r.
Proof.
  induction ns as [|[nr nc] tl IH]; intros L w w' evs r H; simpl in H.
  - unfold ret in H. inversion H; subst. simpl.
    rewrite orb_false_r. auto.
  - destruct (getCell (board (state L)) nr nc) as [c|].
    + destruct (flagged c).
      * unfold bind, emit in H.
        destruct (flagLoop tl L w) as [[w2 evs2] r2] eqn:E2.
        inversion H; subst; clear H. apply IH in E2.
        unfold flowOk in *. destruct r as [[L2|b]|e|]; auto.
      * eapply click_then_flow; [|exact H]. intros; eapply IH; eauto.
    + unfold throw in H. inversion H; subst. exact I.
Qed.

Lemma revealLoop_flow :
  forall ns L w w' evs r, revealLoop ns L w = (w', evs, r) -> flowOk L evs r.
Proof.
  induction ns as [|[nr nc] tl IH]; intros L w w' evs r H; simpl in H.
  - unfold ret in H. inversion H; subst. simpl.
    rewrite orb_false_r. auto.
  - eapply click_then_flow; [|exact H]. intros; eapply IH; eauto.
Qed.

Lemma flowOk_ret (L : Locals) : flowOk L [] (Done (Next L)).
Proof. simpl. rewrite orb_false_r. auto. Qed.

(** The two rules in sequence, on any counts. *)
Lemma applyRules_inv (v : JsNum) (k : Counts) (L : Locals) w w' evs r :
  applyRules v k L w = (w', evs, r) ->
  exists w1 evs1 r1 evs2,
    (if (unopenedNeighbors k >? 0) &&
        match numSub v (flaggedNeighbors k) with
        | Int d => unopenedNeighbors k =? d
        | NaN => false
        end
     then flagLoop (neighbors k) L
     else ret (Next L)) w = (w1, evs1, r1) /\
    evs = evs1 ++ evs2 /\
    match r1 with
    | Done (Next L1) =>
        (if (unopenedNeighbors k >? 0) && numIs v (flaggedNeighbors k)
         then revealLoop (neighbors k) L1
         else ret (Next L1)) w1 = (w', evs2, r)
    | _ => evs2 = [] /\ r = r1 /\ w' = w1
    end.
Proof.
  unfold applyRules. intros H. apply bind_inv in H.
  destruct H as [(w1 & evs1 & x & evs2 & H1 & Hk & ->)|[(e & H1 & ->)|[H1 ->]]].
  - exists w1, evs1, (Done x), evs2. split; [exact H1|]. split; [reflexivity|].
    destruct x as [L1|b]; [exact Hk|].
    unfold ret in Hk. inversion Hk; subst. auto.
  - exists w', evs, (Thrown e), []. rewrite app_nil_r. auto.
  - exists w', evs, OutOfFuel, []. rewrite app_nil_r. auto.
Qed.

Lemma applyRules_flow (v : JsNum) (k : Counts) (L : Locals) w w' evs r :
  applyRules v k L w = (w', evs, r) -> flowOk L evs r.
Proof.
  intros H. apply applyRules_inv in H.
  destruct H as (w1 & evs1 & r1 & evs2 & H1 & -> & H2).
  assert (F1 : flowOk L evs1 r1).
  { destruct (_ && _) in H1; [eapply flagLoop_flow; eauto|].
    unfold ret in H1. inversion H1; subst. apply flowOk_ret. }
  destruct r1 as [[L1|b]|e|].
  - eapply flowOk_app; [exact F1|].
    destruct (_ && _) in H2; [eapply revealLoop_flow; eauto|].
    unfold ret in H2. inversion H2; subst. apply flowOk_ret.
  - destruct H2 as (-> & -> & _). rewrite app_nil_r. exact F1.
  - destruct H2 as (-> & -> & _). exact I.
  - destruct H2 as (-> & -> & _). exact I.
Qed.

Lemma cellBody_flow (row col : Z) (L : Locals) w w' evs r :
  cellBody row col L w = (w', evs, r) -> flowOk L evs r.
Proof.
  unfold cellBody. intros H.
  destruct (getCell (board (state L)) row col) as [cell|];
    [|unfold throw in H; inversion H; subst; exact I].
  destruct (constraintValue cell) as [v|];
    [|unfold ret in H; inversion H; subst; apply flowOk_ret].
  apply bind_inv in H.
  destruct H as [(w1 & evs1 & k & evs2 & H1 & Hk & ->)|[(e & H1 & ->)|[H1 ->]]];
    try exact I.
  unfold liftResult in H1. destruct (countNeighbors (state L) row col);
    unfold ret, throw in H1; inversion H1; subst.
  simpl. eapply applyRules_flow; eauto.
Qed.

Lemma colLoop_flow :
  forall fuel row col L w w' evs r,
    colLoop fuel row col L w = (w', evs, r) -> flowOk L evs r.
Proof.
  induction fuel as [|n IH]; intros row col L w w' evs r H; simpl in H.
  - unfold outOfFuel in H. inversion H; subst. exact I.
  - destruct (col <? width (state L));
      [|unfold ret in H; inversion H; subst; apply flowOk_ret].
    apply bind_inv in H.
    destruct H as [(w1 & evs1 & x & evs2 & H1 & Hk & ->)|[(e & H1 & ->)|[H1 ->]]];
      try exact I.
    apply cellBody_flow in H1. destruct x as [L1|b].
    + eapply flowOk_app; [exact H1|]. eapply IH; eauto.
    + unfold ret in Hk. inversion Hk; subst. rewrite app_nil_r. exact H1.
Qed.

Lemma rowLoop_flow (colFuel : nat) :
  forall fuel row L w w' evs r,
    rowLoop colFuel fuel row L w = (w', evs, r) -> flowOk L evs r.
Proof.
  induction fuel as [|n IH]; intros row L w w' evs r H; simpl in H.
  - unfold outOfFuel in H. inversion H; subst. exact I.
  - destruct (row <? height (state L));
      [|unfold ret in H; inversion H; subst; apply flowOk_ret].
    apply bind_inv in H.
    destruct H as [(w1 & evs1 & x & evs2 & H1 & Hk & ->)|[(e & H1 & ->)|[H1 ->]]];
      try exact I.
    apply colLoop_flow in H1. destruct x as [L1|b].
    + eapply flowOk_app; [exact H1|]. eapply IH; eauto.
    + unfold ret in Hk. inversion Hk; subst. rewrite app_nil_r. exact H1.
Qed.

End SolverFacts.

(* ================================================================== *)
(** * Properties of the board model *)

(** C4 (neighbour enumeration).  For an in-bounds position the
    enumeration returns exactly the grid-adjacent positions that lie on
    the board, each once, at most 8 of them; on a board of at least two
    rows and two columns a corner cell has 3 of them and a cell on an edge
    that is not a corner has 5. *)
Theorem neighborsOf_clipped :
  forall w h row col : Z,
    0 <= row < h -> 0 <= col < w ->
    (forall nr nc,
        In (nr, nc) (neighborsOf w h row col) <->
        0 <= nr < h /\ 0 <= nc < w /\
        Z.abs (nr - row) <= 1 /\ Z.abs (nc - col) <= 1 /\
        (nr, nc) <> (row, col)) /\
    NoDup (neighborsOf w h row col) /\
    (List.length (neighborsOf w h row col) <= 8)%nat /\
    (2 <= w -> 2 <= h -> atEnd h row /\ atEnd w col ->
     List.length (neighborsOf w h row col) = 3%nat) /\
    (2 <= w -> 2 <= h ->
     (atEnd h row /\ ~ atEnd w col) \/ (~ atEnd h row /\ atEnd w col) ->
     List.length (neighborsOf w h row col) = 5%nat).
Proof.
  intros w h row col Hr Hc.
  split; [intros nr nc; apply In_neighborsOf|].
  split; [apply neighborsOf_NoDup; assumption|].
  pose proof (neighborsOf_length w h row col Hr Hc) as Hlen.
  cbv zeta in Hlen. unfold atEnd.
  repeat split; intros;
    destruct (Z.ltb_spec 0 row), (Z.ltb_spec row (h - 1)),
             (Z.ltb_spec 0 col), (Z.ltb_spec col (w - 1)); lia.
Qed.

(** C5 (neighbour count).  On every board of at least two rows and two
    columns, a corner cell has exactly 3 neighbours, a cell on an edge
    that is not a corner exactly 5, and an interior cell exactly 8. *)
Theorem neighbor_count_invariant :
  forall w h row col : Z,
    2 <= w -> 2 <= h -> 0 <= row < h -> 0 <= col < w ->
    (atEnd h row /\ atEnd w col ->
     List.length (neighborsOf w h row col) = 3%nat) /\
    ((atEnd h row /\ ~ atEnd w col) \/ (~ atEnd h row /\ atEnd w col) ->
     List.length (neighborsOf w h row col) = 5%nat) /\
    (~ atEnd h row /\ ~ atEnd w col ->
     List.length (neighborsOf w h row col) = 8%nat).
Proof.
  intros w h row col Hw Hh Hr Hc.
  pose proof (neighborsOf_length w h row col Hr Hc) as Hlen.
  cbv zeta in Hlen. unfold atEnd.
  repeat split; intros;
    destruct (Z.ltb_spec 0 row), (Z.ltb_spec row (h - 1)),
             (Z.ltb_spec 0 col), (Z.ltb_spec col (w - 1)); lia.
Qed.

(* ================================================================== *)
(** * Properties of the random move selector *)

Lemma hasRevealedNeighbor_spec (b : Board) :
  forall ps r, hasRevealedNeighbor b ps = Ok r -> r = existsb (isRevealed b) ps.
Proof.
  induction ps as [|[nr nc] tl IH]; intros r H; simpl in H.
  - inversion H; reflexivity.
  - simpl. unfold isRevealed at 1. simpl.
    destruct (getCell b nr nc) as [c|]; [|discriminate].
    destruct (revealed c); [inversion H; reflexivity|].
    simpl. apply IH. assumption.
Qed.

Lemma hasRevealedNeighbor_total (b : Board) :
  forall ps, (forall p, In p ps -> getCell b (fst p) (snd p) <> None) ->
             exists r, hasRevealedNeighbor b ps = Ok r.
Proof.
  induction ps as [|[nr nc] tl IH]; intros Hin; simpl.
  - eauto.
  - pose proof (Hin (nr, nc) (or_introl eq_refl)) as Hc. simpl in Hc.
    destruct (getCell b nr nc) as [c|]; [|congruence].
    destruct (revealed c); [eauto|].
    apply IH. intros p Hp. apply Hin. right; assumption.
Qed.

Lemma candidatesRow_spec (s : BoardState) (row : Z) :
  forall cols cs,
    candidatesRow s row cols = Ok cs ->
    cs = filter (frontier s) (map (fun col => (row, col)) cols).
Proof.
  induction cols as [|col tl IH]; intros cs H; simpl in H.
  - inversion H; reflexivity.
  - simpl. unfold frontier at 1, isUnopened. simpl.
    destruct (getCell (board s) row col) as [cell|]; [|discriminate].
    destruct (negb (revealed cell) && negb (flagged cell)).
    + destruct (hasRevealedNeighbor _ _) as [r|] eqn:Eh; [|discriminate].
      apply hasRevealedNeighbor_spec in Eh. rewrite <- Eh. simpl.
      destruct (candidatesRow s row tl) as [cs'|]; [|destruct r; discriminate].
      rewrite <- (IH cs' eq_refl).
      destruct r; inversion H; reflexivity.
    + simpl. destruct (candidatesRow s row tl) as [cs'|]; [|discriminate].
      rewrite <- (IH cs' eq_refl). inversion H; reflexivity.
Qed.

Lemma candidatesRows_spec (s : BoardState) :
  forall rows cs,
    candidatesRows s rows = Ok cs ->
    cs = filter (frontier s)
           (flat_map (fun row => map (fun col => (row, col)) (range (width s)))
                     rows).
Proof.
  induction rows as [|row tl IH]; intros cs H; simpl in H.
  - inversion H; reflexivity.
  - cbn [flat_map]. rewrite filter_app.
    destruct (candidatesRow s row (range (width s))) as [c|] eqn:Er;
      [|discriminate].
    destruct (candidatesRows s tl) as [cs'|]; [|discriminate].
    inversion H; subst.
    rewrite (candidatesRow_spec _ _ _ _ Er). f_equal. apply IH. reflexivity.
Qed.

Lemma candidates_spec (s : BoardState) (cs : list Pos) :
  candidates s = Ok cs -> cs = filter (frontier s) (positions s).
Proof. apply candidatesRows_spec. Qed.

Lemma candidatesRow_total (s : BoardState) (row : Z) :
  rectangular s -> 0 <= row < height s ->
  forall cols, (forall col, In col cols -> 0 <= col < width s) ->
               exists cs, candidatesRow s row cols = Ok cs.
Proof.
  intros Hrect Hrow. induction cols as [|col tl IH]; intros Hin; simpl.
  - eauto.
  - destruct (getCell_inside s row col Hrect Hrow) as [cell ->];
      [apply Hin; left; reflexivity|].
    destruct IH as [cs ->]; [intros c Hc; apply Hin; right; assumption|].
    destruct (negb (revealed cell) && negb (flagged cell)); [|eauto].
    destruct (hasRevealedNeighbor_total (board s)
                (neighborsOf (width s) (height s) row col)) as [r ->].
    + intros [nr nc] Hp. apply In_neighborsOf in Hp. simpl.
      destruct (getCell_inside s nr nc Hrect) as [c ->]; [lia|lia|congruence].
    + destruct r; eauto.
Qed.

Lemma candidates_total (s : BoardState) :
  rectangular s -> exists cs, candidates s = Ok cs.
Proof.
  intros Hrect. unfold candidates.
  assert (H : forall rows, (forall row, In row rows -> 0 <= row < height s) ->
                           exists cs, candidatesRows s rows = Ok cs).
  { induction rows as [|row tl IH]; intros Hin; simpl; [eauto|].
    destruct (candidatesRow_total s row Hrect) with (cols := range (width s))
      as [c ->].
    - apply Hin; left; reflexivity.
    - intros col Hc. apply In_range. assumption.
    - destruct IH as [cs ->]; [|eauto].
      intros r Hr. apply Hin. right; assumption. }
  apply H. intros row Hr. apply In_range. assumption.
Qed.

Lemma In_positions (s : BoardState) (row col : Z) :
  In (row, col) (positions s) <-> 0 <= row < height s /\ 0 <= col < width s.
Proof.
  unfold positions. rewrite in_flat_map. split.
  - intros (r & Hr & Hin). apply in_map_iff in Hin.
    destruct Hin as (c & Heq & Hc). inversion Heq; subst.
    apply In_range in Hr, Hc. auto.
  - intros [Hr Hc]. exists row. split; [apply In_range; assumption|].
    apply in_map. apply In_range. assumption.
Qed.

Lemma frontier_iff (s : BoardState) (row col : Z) :
  frontier s (row, col) = true <-> onFrontier s row col.
Proof.
  unfold frontier, onFrontier, isUnopened. simpl.
  rewrite andb_true_iff, existsb_exists. split.
  - intros [Hu ([nr nc] & Hin & Hr)].
    destruct (getCell (board s) row col) as [cell|]; [|discriminate].
    apply andb_true_iff in Hu. destruct Hu as [H1 H2].
    apply negb_true_iff in H1, H2.
    exists cell. repeat (split; [solve [auto]|]).
    unfold isRevealed in Hr. simpl in Hr.
    destruct (getCell (board s) nr nc) as [ncell|] eqn:En; [|discriminate].
    exists nr, nc, ncell. auto.
  - intros (cell & -> & H1 & H2 & nr & nc & ncell & Hin & Hn & Hr).
    rewrite H1, H2. split; [reflexivity|].
    exists (nr, nc). split; [assumption|].
    unfold isRevealed. simpl. rewrite Hn. assumption.
Qed.

(* ================================================================== *)
(** * A step returns on a well-behaved page

    The loops of [solveStep] run on fuel because the bounds [width] and
    [height] are re-read from every snapshot.  On a page whose snapshots
    keep the same dimensions, whose clicks do not fail and with a random
    index in range, a step returns a boolean as soon as the fuel exceeds
    both dimensions. *)

Section Totality.
Context {JS : JsRuntime} {World : Type} {B : Browser World}.
Variable Inv : World -> Prop.
Variables W0 H0 : Z.
Hypothesis WB : wellBehaved Inv W0 H0.

Let Inv_delay := @wb_delay _ _ _ _ _ _ WB.
Let Inv_page := @wb_page _ _ _ _ _ _ WB.
Let Inv_click := @wb_click _ _ _ _ _ _ WB.
Let Inv_random := @wb_random _ _ _ _ _ _ WB.

Let goodLocals := goodLocalsAt W0 H0.
Let finishes := finishesIn Inv W0 H0.

Lemma finishes_ret (L : Locals) (w : World) :
  goodLocals L -> Inv w -> finishes (ret (Next L) w).
Proof.
  intros HL Hw. split; [exact Hw|]. exists (Next L). split; [reflexivity|].
  intros L' HL'. inversion HL'; subst. exact HL.
Qed.

Lemma finishes_bind (m : M World Flow) (k : Locals -> M World Flow) (w : World) :
  finishes (m w) ->
  (forall L1 w1, goodLocals L1 -> Inv w1 -> finishes (k L1 w1)) ->
  finishes ((r <- m ;;
             match r with
             | Return b => ret (Return b)
             | Next L' => k L'
             end) w).
Proof.
  unfold finishes, finishesIn, worldOf, outcomeOf, bind.
  destruct (m w) as [[w1 evs1] r1]. simpl.
  intros [Hw (f & -> & Hf)] Hk.
  destruct f as [L1|b].
  - specialize (Hk L1 w1 (Hf L1 eq_refl) Hw).
    destruct (k L1 w1) as [[w2 evs2] r2]. simpl in *. exact Hk.
  - simpl. split; [exact Hw|]. exists (Return b). split; [reflexivity|].
    intros L' HL'. discriminate.
Qed.

Lemma getBoardState_total (w : World) :
  Inv w ->
  exists s, getBoardState w = (delay 1000 w, [EvSnapshot s], Done s) /\
            goodLocals (mkLocals s true) /\ Inv (delay 1000 w).
Proof.
  intros Hw. pose proof (Inv_delay 1000 w Hw) as Hw1.
  destruct (Inv_page _ Hw1) as (s & Hs & Hwd & Hht).
  exists s. split; [apply getBoardState_ok; assumption|].
  destruct (evalBoardState_wellformed _ _ Hs) as [Hrect _].
  split; [|assumption]. repeat split; try assumption; apply Hrect.
Qed.

Lemma refetch_total (w : World) :
  Inv w -> finishes (refetch w).
Proof.
  intros Hw. destruct (getBoardState_total w Hw) as (s & Hg & HL & Hw1).
  unfold refetch. unfold bind at 1. rewrite Hg.
  unfold bind at 1. rewrite (print_rectangular _ _ (proj1 HL)).
  destruct (gameOver s); simpl; (split; [exact Hw1|]).
  - exists (Return false). split; [reflexivity|]. intros; discriminate.
  - exists (Next (mkLocals s true)). split; [reflexivity|].
    intros L' HL'. inversion HL'; subst. exact HL.
Qed.

Lemma click_then_total (loop : Locals -> M World Flow) row col k (w : World) :
  Inv w ->
  (forall L1 w1, goodLocals L1 -> Inv w1 -> finishes (loop L1 w1)) ->
  finishes ((doClick row col k ;;;
             x <- refetch ;;
             match x with
             | Return b => ret (Return b)
             | Next L' => loop L'
             end) w).
Proof.
  intros Hw Hloop.
  destruct (Inv_click row col k w Hw) as (w1 & Hc & Hw1).
  pose proof (finishes_bind refetch loop w1 (refetch_total w1 Hw1) Hloop) as H.
  unfold bind at 1. unfold doClick. rewrite Hc.
  destruct ((x <- refetch ;; match x with
                              | Return b => ret (Return b)
                              | Next L' => loop L'
                              end) w1) as [[w2 evs2] r2].
  exact H.
Qed.

Lemma flagLoop_total :
  forall ns L w,
    goodLocals L -> Inv w ->
    (forall p, In p ns -> 0 <= fst p < H0 /\ 0 <= snd p < W0) ->
    finishes (flagLoop ns L w).
Proof.
  induction ns as [|[nr nc] tl IH]; intros L w HL Hw Hin; simpl.
  - apply finishes_ret; assumption.
  - destruct HL as (Hrect & Hwd & Hht).
    destruct (Hin (nr, nc) (or_introl eq_refl)) as [Hr Hc]. simpl in Hr, Hc.
    destruct (getCell_inside (state L) nr nc Hrect) as [c ->]; [lia|lia|].
    assert (Htl : forall p, In p tl -> 0 <= fst p < H0 /\ 0 <= snd p < W0)
      by (intros p Hp; apply Hin; right; assumption).
    destruct (flagged c).
    + unfold bind, emit.
      pose proof (IH L w (conj Hrect (conj Hwd Hht)) Hw Htl) as H.
      destruct (flagLoop tl L w) as [[w2 evs2] r2]. exact H.
    + apply click_then_total; [assumption|].
      intros L1 w1 HL1 Hw1. apply IH; assumption.
Qed.

Lemma revealLoop_total :
  forall ns L w, goodLocals L -> Inv w -> finishes (revealLoop ns L w).
Proof.
  induction ns as [|[nr nc] tl IH]; intros L w HL Hw; simpl.
  - apply finishes_ret; assumption.
  - apply click_then_total; [assumption|].
    intros L1 w1 HL1 Hw1. apply IH; assumption.
Qed.

Lemma countLoop_total (b : Board) :
  forall ps acc,
    (forall p, In p ps -> getCell b (fst p) (snd p) <> None) ->
    exists k, countLoop b ps acc = Ok k.
Proof.
  induction ps as [|[nr nc] tl IH]; intros acc Hin; simpl.
  - eauto.
  - pose proof (Hin (nr, nc) (or_introl eq_refl)) as Hc. simpl in Hc.
    destruct (getCell b nr nc) as [c|]; [|congruence].
    destruct (negb (revealed c) && negb (flagged c));
      [|destruct (flagged c)];
      apply IH; intros p Hp; apply Hin; right; assumption.
Qed.

Lemma countNeighbors_total (L : Locals) (row col : Z) :
  goodLocals L ->
  exists k, countNeighbors (state L) row col = Ok k /\
            forall p, In p (neighbors k) -> 0 <= fst p < H0 /\ 0 <= snd p < W0.
Proof.
  intros (Hrect & Hwd & Hht).
  destruct (countLoop_total (board (state L))
              (neighborsOf (width (state L)) (height (state L)) row col)
              (mkCounts 0 0 [])) as [k Hk].
  { intros [nr nc] Hp. apply In_neighborsOf in Hp. simpl.
    destruct (getCell_inside (state L) nr nc Hrect) as [c ->];
      [lia|lia|congruence]. }
  exists k. split; [exact Hk|].
  intros [nr nc] Hp.
  destruct (countNeighbors_spec _ _ _ _ Hk) as (Hn & _ & _).
  rewrite Hn in Hp. unfold unopenedOf in Hp. apply filter_In in Hp.
  destruct Hp as [Hp _]. apply In_neighborsOf in Hp. simpl. lia.
Qed.

Lemma applyRules_total (v : JsNum) (k : Counts) (L : Locals) (w : World) :
  goodLocals L -> Inv w ->
  (forall p, In p (neighbors k) -> 0 <= fst p < H0 /\ 0 <= snd p < W0) ->
  finishes (applyRules v k L w).
Proof.
  intros HL Hw Hin. unfold applyRules.
  apply finishes_bind.
  - destruct (_ && _); [apply flagLoop_total|apply finishes_ret]; assumption.
  - intros L1 w1 HL1 Hw1.
    destruct (_ && _); [apply revealLoop_total|apply finishes_ret]; assumption.
Qed.

Lemma cellBody_total (row col : Z) (L : Locals) (w : World) :
  goodLocals L -> Inv w -> 0 <= row < H0 -> 0 <= col < W0 ->
  finishes (cellBody row col L w).
Proof.
  intros HL Hw Hr Hc. unfold cellBody.
  pose proof HL as (Hrect & Hwd & Hht).
  destruct (getCell_inside (state L) row col Hrect) as [cell ->]; [lia|lia|].
  destruct (constraintValue cell) as [v|]; [|apply finishes_ret; assumption].
  destruct (countNeighbors_total L row col HL) as (k & Hk & Hin).
  rewrite Hk. simpl liftResult. rewrite bind_ret.
  apply applyRules_total; assumption.
Qed.

Lemma colLoop_total :
  forall fuel row col L w,
    goodLocals L -> Inv w -> 0 <= row < H0 -> 0 <= col ->
    (Z.to_nat (W0 - col) < fuel)%nat ->
    finishes (colLoop fuel row col L w).
Proof.
  induction fuel as [|n IH]; intros row col L w HL Hw Hr Hc Hf; [lia|].
  simpl. pose proof HL as (_ & Hwd & _). rewrite Hwd.
  destruct (Z.ltb_spec col W0); [|apply finishes_ret; assumption].
  apply finishes_bind; [apply cellBody_total; (assumption || lia)|].
  intros L1 w1 HL1 Hw1. apply IH; (assumption || lia).
Qed.

Lemma rowLoop_total (colFuel : nat) :
  (Z.to_nat W0 < colFuel)%nat ->
  forall fuel row L w,
    goodLocals L -> Inv w -> 0 <= row ->
    (Z.to_nat (H0 - row) < fuel)%nat ->
    finishes (rowLoop colFuel fuel row L w).
Proof.
  intros Hcf. induction fuel as [|n IH]; intros row L w HL Hw Hr Hf; [lia|].
  simpl. pose proof HL as (_ & _ & Hht). rewrite Hht.
  destruct (Z.ltb_spec row H0); [|apply finishes_ret; assumption].
  apply finishes_bind.
  - apply colLoop_total; try assumption; lia.
  - intros L1 w1 HL1 Hw1. apply IH; (assumption || lia).
Qed.

Lemma randomMove_total (L : Locals) (w : World) :
  goodLocals L -> Inv w ->
  exists w' evs b, randomMove L w = (w', evs, Done b) /\ Inv w'.
Proof.
  intros (Hrect & Hwd & Hht) Hw. unfold randomMove.
  destruct (candidates_total _ Hrect) as [cs ->].
  simpl liftResult. rewrite bind_ret.
  destruct (Z.gtb_spec (Z.of_nat (List.length cs)) 0) as [Hpos|Hnil];
    [|unfold ret; eauto].
  destruct (Inv_random (Z.of_nat (List.length cs)) w Hw) as [Hi Hw1]; [lia|].
  assert (Hp : pick (Z.of_nat (List.length cs)) w
               = (snd (randomIndex (Z.of_nat (List.length cs)) w), [],
                  Done (fst (randomIndex (Z.of_nat (List.length cs)) w)))).
  { unfold pick. destruct (randomIndex _ w). reflexivity. }
  rewrite (bind_done _ _ _ _ _ _ Hp). clear Hp.
  set (i := fst (randomIndex (Z.of_nat (List.length cs)) w)) in *.
  set (w1 := snd (randomIndex (Z.of_nat (List.length cs)) w)) in *.
  assert (Hn : exists p, nthPos cs i = Some p).
  { unfold nthPos. replace (i <? 0) with false by (symmetry; apply Z.ltb_ge; lia).
    destruct (nth_error cs (Z.to_nat i)) as [p|] eqn:E; [eauto|].
    apply nth_error_None in E. lia. }
  destruct Hn as [[row col] ->].
  destruct (Inv_click row col false w1 Hw1) as (w2 & Hc & Hw2).
  destruct (getBoardState_total w2 Hw2) as (s & Hg & HL & Hw3).
  rewrite (bind_done _ _ _ _ _ _ (doClick_ok _ _ _ _ _ Hc)).
  rewrite (bind_done _ _ _ _ _ _ Hg).
  rewrite (bind_done _ _ _ _ _ _ (print_rectangular _ _ (proj1 HL))).
  destruct (gameOver s); unfold ret, worldOf, traceOf, outcomeOf; simpl; eauto.
Qed.

(** On a page of the invariant, a step with enough fuel returns a
    boolean and leaves the page in the invariant. *)
Theorem solveStep_total (fuel : nat) (w : World) :
  Inv w -> (Z.to_nat W0 < fuel)%nat -> (Z.to_nat H0 < fuel)%nat ->
  exists w' evs b, solveStep fuel w = (w', evs, Done b) /\ Inv w'.
Proof.
  intros Hw Hfw Hfh. unfold solveStep.
  destruct (getBoardState_total w Hw) as (s & Hg & (Hrect & Hwd & Hht) & Hw1).
  rewrite (bind_done _ _ _ _ _ _ Hg).
  rewrite (bind_done _ _ _ _ _ _ (print_rectangular _ _ Hrect)).
  destruct (gameOver s);
    [unfold ret, worldOf, traceOf, outcomeOf; simpl; eauto|].
  assert (HL : goodLocals (mkLocals s false))
    by (split; [exact Hrect|split; assumption]).
  pose proof (rowLoop_total fuel Hfw fuel 0 (mkLocals s false) (delay 1000 w)
                HL Hw1 ltac:(lia) ltac:(lia)) as Hrow.
  destruct (rowLoop fuel fuel 0 (mkLocals s false) (delay 1000 w))
    as [[w2 evs2] r2] eqn:Er.
  destruct Hrow as [Hw2 (f & Hf & HL2)]. simpl in Hw2, Hf. subst r2.
  rewrite (bind_done _ _ _ _ _ _ Er).
  destruct f as [L|b];
    [|unfold ret, worldOf, traceOf, outcomeOf; simpl; eauto].
  destruct (actionTaken L);
    [unfold ret, worldOf, traceOf, outcomeOf; simpl; eauto|].
  cbn [negb]. cbv beta iota.
  destruct (randomMove_total L w2 (HL2 L eq_refl) Hw2) as (w3 & evs3 & b & -> & Hw3).
  unfold worldOf, traceOf, outcomeOf; simpl. eauto.
Qed.

(** And so the main loop ends with [Done]. *)
Theorem solvingLoop_total (fuel : nat) :
  (Z.to_nat W0 < fuel)%nat -> (Z.to_nat H0 < fuel)%nat ->
  forall (n : nat) (w : World),
    Inv w ->
    exists w' recs, solvingLoop fuel n w = (w', recs, Done tt) /\ Inv w'.
Proof.
  intros Hfw Hfh. induction n as [|n IH]; intros w Hw; simpl.
  - eauto.
  - destruct (solveStep_total fuel w Hw Hfw Hfh) as (w1 & evs & b & -> & Hw1).
    destruct b; simpl; [|eauto].
    destruct (IH (delay 1000 w1) (Inv_delay _ _ Hw1)) as (w2 & recs & -> & Hw2).
    eauto.
Qed.

End Totality.

(* ================================================================== *)
(** * Properties of the solver *)

Section Properties.
Context {JS : JsRuntime} {World : Type} {B : Browser World}.

Lemma constraintValue_numbered (cell : Cell) (v : Z) :
  revealed cell = true -> value cell = Some (Int v) -> 1 <= v <= 8 ->
  constraintValue cell = Some (Int v).
Proof.
  intros Hr Hv Hb. unfold constraintValue. rewrite Hr, Hv. simpl.
  replace (v =? 0) with false by (symmetry; apply Z.eqb_neq; lia).
  replace (v =? -1) with false by (symmetry; apply Z.eqb_neq; lia).
  replace (v =? -2) with false by (symmetry; apply Z.eqb_neq; lia).
  reflexivity.
Qed.

(** What [cellBody] does on a numbered cell: it counts, then runs the
    two rules. *)
Lemma cellBody_numbered (row col : Z) (L : Locals) (cell : Cell) (v : Z)
      (w w' : World) evs r :
  getCell (board (state L)) row col = Some cell ->
  revealed cell = true -> value cell = Some (Int v) -> 1 <= v <= 8 ->
  cellBody row col L w = (w', evs, r) ->
  (evs = [] /\ exists e, r = Thrown e) \/
  (exists k, countNeighbors (state L) row col = Ok k /\
             applyRules (Int v) k L w = (w', evs, r)).
Proof.
  intros Hget Hr Hv Hb H. unfold cellBody in H.
  rewrite Hget, (constraintValue_numbered _ _ Hr Hv Hb) in H.
  unfold bind, liftResult in H.
  destruct (countNeighbors (state L) row col) as [k|e].
  - right. exists k. split; [reflexivity|].
    unfold ret in H. destruct (applyRules (Int v) k L w) as [[w2 evs2] r2].
    simpl in H. exact H.
  - left. unfold throw in H. inversion H; subst. eauto.
Qed.



(** A snapshot, its console dump, and what follows. *)
Lemma snapshot_inv {X : Type} (K : BoardState -> M World X) w w' evs r :
  (s <- getBoardState ;; print s ;;; K s) w = (w', evs, r) ->
  (exists s evs2,
      evalBoardState (gameCells (delay 1000 w)) = Ok s /\
      evs = EvSnapshot s :: evs2 /\
      K s (delay 1000 w) = (w', evs2, r))
  \/ (evs = [] /\ exists e, r = Thrown e).
Proof.
  intros H. apply bind_inv in H.
  destruct H as [(w1 & evs1 & s & evs2 & Hg & Hk & ->)|[(e & Hg & ->)|[Hg ->]]];
    apply getBoardState_inv in Hg; destruct Hg as [-> Hg].
  - destruct Hg as [(s' & Es & -> & Hs & Hrect & _)|(e & _ & Hs)]; [|discriminate].
    inversion Hs; subst s'; clear Hs.
    unfold bind in Hk. rewrite (print_rectangular _ _ Hrect) in Hk.
    left. exists s, evs2. split; [assumption|]. split; [reflexivity|].
    destruct (K s (delay 1000 w)) as [[w2 evs3] r3]. simpl in Hk. exact Hk.
  - destruct Hg as [(s' & _ & _ & Hs & _)|(e' & -> & _)]; [discriminate|].
    right. eauto.
  - destruct Hg as [(s' & _ & _ & Hs & _)|(e' & _ & Hs)]; discriminate.
Qed.

(** Rule 3, case by case. *)
Lemma randomMove_trace (L : Locals) w w' evs r :
  randomMove L w = (w', evs, r) ->
  match candidates (state L) with
  | Throw e => evs = [] /\ r = Thrown e
  | Ok [] => evs = [] /\ r = Done (actionTaken L) /\ w' = w
  | Ok cs =>
      match nthPos cs (fst (randomIndex (Z.of_nat (List.length cs)) w)) with
      | None => evs = [] /\ r = Thrown TypeError
      | Some (row, col) =>
          (evs = [EvClick row col false] /\ exists e, r = Thrown e) \/
          (exists s, evs = [EvClick row col false; EvSnapshot s] /\
                     r = Done (negb (gameOver s)))
      end
  end.
Proof.
  unfold randomMove. intros H.
  destruct (candidates (state L)) as [cs|e]; simpl liftResult in H.
  - rewrite bind_ret in H. destruct cs as [|c0 cs0].
    + simpl in H. unfold ret in H. inversion H; subst. auto.
    + remember (c0 :: cs0) as cs.
      assert (Hpos : (Z.of_nat (List.length cs) >? 0) = true)
        by (subst cs; simpl; apply Z.gtb_lt; lia).
      rewrite Hpos in H.
      assert (Hcs : match cs with [] => False | _ :: _ => True end)
        by (subst cs; exact I).
      clear Heqcs Hpos.
      unfold bind at 1, pick in H.
      destruct (randomIndex (Z.of_nat (List.length cs)) w) as [i w1].
      simpl fst.
      destruct (nthPos cs i) as [[row col]|].
      * match type of H with
        | context [bind ?m ?k w1] => destruct (bind m k w1) as [[w2 evs2] r2] eqn:E
        end.
        simpl in H. inversion H; subst; clear H.
        destruct cs; [contradiction|].
        apply bind_inv in E.
        destruct E as [(w3 & evs3 & [] & evs4 & Hc & Hk & ->)|[(e & Hc & ->)|[Hc ->]]];
          apply doClick_inv in Hc; destruct Hc as [-> Hc].
        -- apply snapshot_inv in Hk.
           destruct Hk as [(s & evs5 & _ & -> & Hk)|(-> & e & ->)].
           ++ right. exists s.
              destruct (gameOver s); unfold ret in Hk; inversion Hk; subst; auto.
           ++ left. eauto.
        -- left. eauto.
        -- destruct Hc as [Hc|[e Hc]]; discriminate.
      * unfold throw in H. simpl in H. inversion H; subst.
        destruct cs; [contradiction|]. auto.
  - unfold bind, throw in H. inversion H; subst. auto.
Qed.

(** C6 (random fallback).  On a full grid the candidates of rule 3 are
    computed; whenever they are, they are exactly the in-bounds cells
    that are not revealed, not flagged and have a revealed neighbour; and
    when the board has no such cell the list is empty and the selector
    clicks nothing. *)
Theorem candidates_are_frontier_cells :
  forall s : BoardState,
    (rectangular s -> exists cs, candidates s = Ok cs) /\
    (forall cs,
        candidates s = Ok cs ->
        (forall row col,
            In (row, col) cs <->
            0 <= row < height s /\ 0 <= col < width s /\ onFrontier s row col) /\
        ((forall row col, ~ onFrontier s row col) ->
         cs = [] /\
         forall (taken : bool) (w : World),
           randomMove (mkLocals s taken) w = (w, [], Done taken))).
Proof.
  intros s. split; [apply candidates_total|].
  intros cs Hcs. pose proof (candidates_spec _ _ Hcs) as Heq.
  assert (Hin : forall row col,
             In (row, col) cs <->
             0 <= row < height s /\ 0 <= col < width s /\ onFrontier s row col).
  { intros row col. rewrite Heq, filter_In, In_positions, frontier_iff.
    tauto. }
  split; [exact Hin|].
  intros Hnone.
  assert (Hnil : cs = []).
  { destruct cs as [|[row col] tl]; [reflexivity|].
    exfalso. apply (Hnone row col). apply Hin. left; reflexivity. }
  split; [exact Hnil|].
  intros taken w. rewrite Hnil in Hcs.
  unfold randomMove. simpl state. rewrite Hcs. simpl liftResult.
  rewrite bind_ret. reflexivity.
Qed.


(** C9 (snapshot invariants).  A board returned by [getBoardState] is a
    full grid, and each of its cells has a value exactly when it is
    revealed and is not both flagged and revealed; a cell with class
    [hdd_opened] and no [hdd_type...] class is read as revealed with
    value 0. *)
Theorem snapshot_cell_invariants :
  forall (w w' : World) (evs : list Event) (s : BoardState),
    getBoardState w = (w', evs, Done s) ->
    rectangular s /\
    (forall r c cell,
        getCell (board s) r c = Some cell ->
        (value cell <> None <-> revealed cell = true) /\
        ~ (flagged cell = true /\ revealed cell = true)) /\
    (forall classes,
        includes "hdd_opened" classes = true ->
        find (startsWith "hdd_type") classes = None ->
        cellStateOf classes = (mkCell true false (Some (Int 0)), false)).
Proof.
  intros w w' evs s H. apply getBoardState_inv in H.
  destruct H as [_ [(s' & _ & _ & Hs & Hrect & Hinv)|(e & _ & He)]];
    [|discriminate].
  inversion Hs; subst s'; clear Hs.
  split; [assumption|]. split.
  - intros r c cell Hget.
    destruct (getCell_Forall cellInvariant _ _ _ _ Hinv Hget) as [Hv Hf].
    split; [assumption|].
    intros [Hfl Hre]. rewrite Hfl, Hre in Hf. discriminate.
  - intros classes Ho Hf. unfold cellStateOf. rewrite Ho, Hf. reflexivity.
Qed.

Lemma scenarioA_scan (fuel : nat) (w : World) :
  (4 <= fuel)%nat ->
  rowLoop fuel fuel 0 (mkLocals scenarioA false) w
  = (w, [], Done (Next (mkLocals scenarioA false))).
Proof.
  intros Hf. destruct fuel as [|[|[|[|n]]]]; try lia. reflexivity.
Qed.

(** C3 (scenario A).  On the 3x3 board whose centre is revealed with
    value 0 and whose eight other cells are unopened and unflagged, the
    two rules propose nothing, since a cell of value 0 is passed over; the
    eight neighbours are the candidates of rule 3, and the step clicks
    Reveal on the single one chosen by the random index (on none when the
    index is out of range). *)
Theorem scenarioA_one_random_reveal :
  forall (w w' : World) (fuel : nat) (evs : list Event) (r : outcome bool),
    (4 <= fuel)%nat ->
    evalBoardState (gameCells (delay 1000 w)) = Ok scenarioA ->
    solveStep fuel w = (w', evs, r) ->
    rowLoop fuel fuel 0 (mkLocals scenarioA false) (delay 1000 w)
    = (delay 1000 w, [], Done (Next (mkLocals scenarioA false))) /\
    candidates scenarioA = Ok (neighborsOf 3 3 1 1) /\
    actions evs =
      match nthPos (neighborsOf 3 3 1 1) (fst (randomIndex 8 (delay 1000 w))) with
      | Some p => [(p, Reveal)]
      | None => []
      end.
Proof.
  intros w w' fuel evs r Hf Hs H.
  split; [apply scenarioA_scan; assumption|].
  split; [reflexivity|].
  destruct (evalBoardState_wellformed _ _ Hs) as [Hrect _].
  unfold solveStep in H.
  unfold bind at 1 in H. rewrite (getBoardState_ok _ _ Hs) in H.
  unfold bind at 1 in H. rewrite (print_rectangular _ _ Hrect) in H.
  change (gameOver scenarioA) with false in H. cbv iota in H.
  unfold bind at 1 in H. rewrite (scenarioA_scan _ _ Hf) in H.
  cbv beta iota in H. cbn [actionTaken negb] in H.
  remember (randomMove (mkLocals scenarioA false) (delay 1000 w)) as m eqn:E.
  destruct m as [[w2 evs3] r3]. symmetry in E.
  simpl in H. inversion H; subst; clear H.
  apply randomMove_trace in E.
  change (candidates (state (mkLocals scenarioA false)))
    with (Ok (neighborsOf 3 3 1 1)) in E.
  change (neighborsOf 3 3 1 1)
    with [(0, 0); (0, 1); (0, 2); (1, 0); (1, 2); (2, 0); (2, 1); (2, 2)] in *.
  cbv beta iota in E.
  change (Z.of_nat (List.length
            [(0, 0); (0, 1); (0, 2); (1, 0); (1, 2); (2, 0); (2, 1); (2, 2)]))
    with 8 in E.
  simpl actions.
  destruct (nthPos _ _) as [[row col]|].
  - destruct E as [(-> & _)|(s' & -> & _)]; reflexivity.
  - destruct E as [-> _]. reflexivity.
Qed.

(** The main loop on any cap. *)
Lemma solvingLoop_spec (fuel : nat) :
  forall (n : nat) (w : World),
    let '(_, recs, r) := solvingLoop fuel n w in
    (List.length recs <= n)%nat /\
    (forall i rec, nth_error recs i = Some rec ->
                   (S i < List.length recs)%nat -> stepOutcome rec = Done true) /\
    match r with
    | Done _ =>
        (List.length recs = n /\
         forall rec, In rec recs -> stepOutcome rec = Done true)
        \/ (exists recs0 rec, recs = recs0 ++ [rec] /\ stepOutcome rec = Done false)
    | Thrown e =>
        exists recs0 rec, recs = recs0 ++ [rec] /\ stepOutcome rec = Thrown e
    | OutOfFuel =>
        exists recs0 rec, recs = recs0 ++ [rec] /\ stepOutcome rec = OutOfFuel
    end.
Proof.
  induction n as [|n IH]; intros w; simpl.
  - split; [lia|]. split; [intros [|i] rec H; discriminate|].
    left. split; [reflexivity|]. intros rec [].
  - destruct (solveStep fuel w) as [[w1 evs] [taken|e|]].
    + destruct taken; simpl.
      * specialize (IH (delay 1000 w1)).
        destruct (solvingLoop fuel n (delay 1000 w1)) as [[w2 recs] r].
        destruct IH as (Hlen & Hall & Hlast). simpl.
        split; [lia|]. split.
        -- intros [|i] rec Hn Hi; simpl in Hn.
           ++ inversion Hn; subst. reflexivity.
           ++ apply (Hall i rec Hn). lia.
        -- destruct r as [[]|e|].
           ++ destruct Hlast as [[Hl Ht]|(recs0 & rec & -> & Hr)].
              ** left. split; [lia|]. intros rec [<-|Hin]; auto.
              ** right. exists (mkStepRecord evs (Done true) :: recs0), rec. auto.
           ++ destruct Hlast as (recs0 & rec & -> & Hr).
              exists (mkStepRecord evs (Done true) :: recs0), rec. auto.
           ++ destruct Hlast as (recs0 & rec & -> & Hr).
              exists (mkStepRecord evs (Done true) :: recs0), rec. auto.
      * split; [lia|]. split.
        -- intros [|[|i]] rec Hn Hi; simpl in *; try lia; discriminate.
        -- right. exists [], (mkStepRecord evs (Done false)). auto.
    + simpl. split; [lia|]. split.
      * intros [|[|i]] rec Hn Hi; simpl in *; try lia; discriminate.
      * exists [], (mkStepRecord evs (Thrown e)). auto.
    + simpl. split; [lia|]. split.
      * intros [|[|i]] rec Hn Hi; simpl in *; try lia; discriminate.
      * exists [], (mkStepRecord evs OutOfFuel). auto.
Qed.


End Properties.

(* ================================================================== *)
(** * The properties on the sample worlds *)

#[local] Existing Instance Sample.asciiRuntime.
#[local] Existing Instance Sample.scriptBrowser.
#[local] Existing Instance Sample.gameBrowser.





(** C3 as stated fails: on scenario A the step issues one Reveal, not 8. *)
Lemma scenarioA_not_eight_reveals :
  evalBoardState (gameCells scenarioAScript) = Ok scenarioA /\
  actions (traceOf (solveStep 5 scenarioAScript)) = [((1, 2), Reveal)] /\
  List.length (actions (traceOf (solveStep 5 scenarioAScript))) <> 8%nat.
Proof. repeat split; vm_compute; try reflexivity; discriminate. Qed.

Lemma scenarioA_one_random_reveal_witness :
  actions (traceOf (solveStep 5 scenarioAScript)) = [((1, 2), Reveal)].
Proof.
  pose (run := solveStep 5 scenarioAScript).
  assert (Hf : (4 <= 5)%nat) by lia.
  assert (Hs : evalBoardState (gameCells (delay 1000 scenarioAScript))
               = Ok scenarioA) by (vm_compute; reflexivity).
  assert (Hrun : run = (worldOf run, traceOf run, outcomeOf run))
    by (vm_compute; reflexivity).
  destruct (scenarioA_one_random_reveal
              scenarioAScript (worldOf run) 5 (traceOf run) (outcomeOf run)
              Hf Hs Hrun)
    as (_ & _ & Hact).
  exact Hact.
Defined.

(** C4 as stated fails: a cell on an edge of a 3x3 board that is not a
    corner has 5 neighbours, not 4. *)
Lemma edge_cell_has_five_neighbors :
  0 <= 0 < 3 /\ 0 <= 1 < 3 /\ atEnd 3 0 /\ ~ atEnd 3 1 /\
  neighborsOf 3 3 0 1 = [(0, 0); (0, 2); (1, 0); (1, 1); (1, 2)] /\
  List.length (neighborsOf 3 3 0 1) <> 4%nat.
Proof.
  unfold atEnd. repeat split; try lia; vm_compute; discriminate.
Qed.

Lemma neighborsOf_clipped_witness :
  List.length (neighborsOf 3 3 0 1) = 5%nat.
Proof.
  assert (Hr : 0 <= 0 < 3) by lia.
  assert (Hc : 0 <= 1 < 3) by lia.
  assert (H3 : 2 <= 3) by lia.
  assert (He : (atEnd 3 0 /\ ~ atEnd 3 1) \/ (~ atEnd 3 0 /\ atEnd 3 1))
    by (unfold atEnd; lia).
  destruct (neighborsOf_clipped 3 3 0 1 Hr Hc) as (_ & _ & _ & _ & Hedge).
  exact (Hedge H3 H3 He).
Defined.

(** C5 as stated fails on a board of a single row: the corner (0, 0) of
    a 1x3 board has one neighbour, not 3. *)
Lemma corner_of_single_row_has_one_neighbor :
  0 <= 0 < 1 /\ 0 <= 0 < 3 /\ atEnd 1 0 /\ atEnd 3 0 /\
  neighborsOf 3 1 0 0 = [(0, 1)] /\
  List.length (neighborsOf 3 1 0 0) <> 3%nat.
Proof.
  unfold atEnd. repeat split; try lia; vm_compute; discriminate.
Qed.

Lemma neighbor_count_invariant_witness :
  List.length (neighborsOf 9 9 4 4) = 8%nat.
Proof.
  assert (H9 : 2 <= 9) by lia.
  assert (Hr : 0 <= 4 < 9) by lia.
  assert (Hi : ~ atEnd 9 4 /\ ~ atEnd 9 4) by (unfold atEnd; lia).
  destruct (neighbor_count_invariant 9 9 4 4 H9 H9 Hr Hr) as (_ & _ & Hint).
  exact (Hint Hi).
Defined.

Lemma scenarioA_rectangular : rectangular scenarioA.
Proof.
  unfold rectangular. simpl.
  split; [lia|]. split; [lia|]. split; [reflexivity|].
  repeat constructor.
Defined.

(** On scenario A the candidates are the eight cells around the centre. *)
Lemma candidates_are_frontier_cells_witness :
  (exists cs, candidates scenarioA = Ok cs) /\
  (In (0, 0) (neighborsOf 3 3 1 1) <->
   0 <= 0 < height scenarioA /\ 0 <= 0 < width scenarioA /\
   onFrontier scenarioA 0 0).
Proof.
  destruct (candidates_are_frontier_cells (World := Sample.Script) scenarioA)
    as [Htotal Hspec].
  split; [exact (Htotal scenarioA_rectangular)|].
  destruct (Hspec (neighborsOf 3 3 1 1) eq_refl) as [Hin _].
  exact (Hin 0 0).
Defined.

(** The steady page is well-behaved: it always shows its 3x1 board. *)
Lemma steadyScript_wellBehaved :
  wellBehaved (fun w => w = Sample.steadyScript) 3 1.
Proof.
  constructor.
  - intros ms w ->. reflexivity.
  - intros w ->. eexists. split; [vm_compute; reflexivity|]. split; reflexivity.
  - intros row col k w ->. exists Sample.steadyScript. split; reflexivity.
  - intros n w -> Hn. simpl. split; [lia|reflexivity].
Defined.



Lemma snapshot_cell_invariants_witness :
  rectangular wrongFlagBoard /\
  ((value (Sample.n 1) <> None <-> revealed (Sample.n 1) = true) /\
   ~ (flagged (Sample.n 1) = true /\ revealed (Sample.n 1) = true)).
Proof.
  assert (Hrun : getBoardState Sample.wrongFlagGame
                 = (Sample.wrongFlagGame, [EvSnapshot wrongFlagBoard],
                    Done wrongFlagBoard))
    by (vm_compute; reflexivity).
  destruct (snapshot_cell_invariants
              Sample.wrongFlagGame Sample.wrongFlagGame
              [EvSnapshot wrongFlagBoard] wrongFlagBoard Hrun)
    as (Hrect & Hcells & _).
  split; [exact Hrect|].
  exact (Hcells 0 1 (Sample.n 1) eq_refl).
Defined.

(** C10 (no re-check before a reveal).  Rule 1 never flags a cell that
    the latest snapshot shows flagged: it skips it.  Rule 2 has no such
    test: it clicks the recorded neighbours one after the other whatever
    the snapshots show.  So a step can reveal a cell that is already
    revealed: on [Sample.cascadeGame] the first reveal of the step opens
    (1, 1) as well, and the step still clicks Reveal on (1, 1). *)
Theorem reveal_targets_not_rechecked :
  (forall (JS : JsRuntime) (World : Type) (B : Browser World)
          (ns : list Pos) (L : Locals) (w : World),
      flagTraceOk (board (state L)) (traceOf (flagLoop ns L w)) = true) /\
  (forall (JS : JsRuntime) (World : Type) (B : Browser World)
          (ns : list Pos) (L : Locals) (w : World),
      skips (traceOf (revealLoop ns L w)) = [] /\
      (exists rest,
          map (fun p => (p, Reveal)) ns
          = actions (traceOf (revealLoop ns L w)) ++ rest) /\
      match outcomeOf (revealLoop ns L w) with
      | Done (Next _) =>
          actions (traceOf (revealLoop ns L w)) = map (fun p => (p, Reveal)) ns
      | _ => True
      end) /\
  (exists (s0 : BoardState) (evs1 evs2 : list Event),
      traceOf (solveStep 5 Sample.cascadeGame)
      = EvSnapshot s0 :: evs1 ++ EvClick 1 1 false :: evs2 /\
      isRevealed (board s0) (1, 1) = false /\
      hasClick evs1 = true /\
      isRevealed (latestBoard (board s0) evs1) (1, 1) = true).
Proof.
  split; [|split].
  - intros JS World B ns L w.
    destruct (flagLoop ns L w) as [[w' evs] r] eqn:E.
    apply flagLoop_trace in E. apply E.
  - intros JS World B ns L w.
    destruct (revealLoop ns L w) as [[w' evs] r] eqn:E.
    apply revealLoop_trace in E. destruct E as (Hs & Hpre & Hnext).
    unfold traceOf, outcomeOf. simpl.
    split; [assumption|]. split; [assumption|].
    destruct r as [[L'|b]|e|]; try exact I. apply (Hnext L' eq_refl).
  - remember (traceOf (solveStep 5 Sample.cascadeGame)) as evs eqn:E.
    vm_compute in E.
    match type of E with
    | _ = EvSnapshot ?s :: ?a :: ?b :: ?c :: ?d :: ?rest =>
        exists s, [a; b; c; d]
    end.
    match type of E with
    | _ = _ :: _ :: _ :: _ :: _ :: EvClick 1 1 false :: ?rest => exists rest
    end.
    split; [exact E|]. vm_compute. auto.
Qed.

(* ================================================================== *)
(** * Further properties of the snapshot reader *)

Lemma nth_error_setNth {A : Type} (xs : list A) :
  forall i x xs' j,
    setNth xs i x = Some xs' ->
    nth_error xs' j = if (j =? i)%nat then Some x else nth_error xs j.
Proof.
  induction xs as [|y tl IH]; intros i x xs' j H; simpl in H.
  - discriminate.
  - destruct i as [|i].
    + inversion H; subst. destruct j; reflexivity.
    + destruct (setNth tl i x) as [tl'|] eqn:E; [|discriminate].
      inversion H; subst. destruct j as [|j]; [reflexivity|].
      simpl. apply (IH i x tl' j E).
Qed.

(** [board[row][col] = cell] changes that cell and no other. *)
Lemma getCell_setCell (b b' : Board) (row col : nat) (cell : Cell) :
  setCell b row col cell = Some b' ->
  forall r c : nat,
    getCell b' (Z.of_nat r) (Z.of_nat c) =
    if ((r =? row) && (c =? col))%nat then Some cell
    else getCell b (Z.of_nat r) (Z.of_nat c).
Proof.
  unfold setCell, getCell. intros H r c.
  replace ((Z.of_nat r <? 0) || (Z.of_nat c <? 0)) with false
    by (symmetry; apply orb_false_iff; split; apply Z.ltb_ge; lia).
  rewrite !Nat2Z.id.
  destruct (nth_error b row) as [rw|] eqn:Er; [|discriminate].
  destruct (setNth rw col cell) as [rw'|] eqn:Ec; [|discriminate].
  rewrite (nth_error_setNth _ _ _ _ r H).
  destruct (Nat.eqb_spec r row) as [->|Hr]; simpl.
  - rewrite (nth_error_setNth _ _ _ _ c Ec), Er.
    destruct (c =? col)%nat; reflexivity.
  - reflexivity.
Qed.

Lemma In_list_max_attained (l : list nat) : l <> [] -> In (list_max l) l.
Proof.
  induction l as [|x tl IH]; intros Hne; [congruence|].
  destruct tl as [|y tl'].
  - simpl. left. lia.
  - assert (Htl : In (list_max (y :: tl')) (y :: tl')) by (apply IH; discriminate).
    change (list_max (x :: y :: tl')) with (Nat.max x (list_max (y :: tl'))).
    destruct (Nat.max_spec x (list_max (y :: tl'))) as [[_ ->]|[_ ->]];
      [right; exact Htl|left; reflexivity].
Qed.

Section ReaderProperties.
Context {JS : JsRuntime}.

Lemma parseCoords_bad (ids : list string) :
  (exists i, In i ids /\ matchCellId i = None) ->
  parseCoords ids = Throw TypeError.
Proof.
  induction ids as [|i tl IH]; intros (j & Hin & Hj); simpl.
  - contradiction.
  - destruct Hin as [<-|Hin].
    + rewrite Hj. reflexivity.
    + destruct (matchCellId i) as [[col row]|]; [|reflexivity].
      rewrite IH; [reflexivity|eauto].
Qed.

Lemma parseCoords_rows_cols (ids : list string) (coords : list (nat * nat)) :
  parseCoords ids = Ok coords ->
  forall row col,
    In (row, col) coords ->
    exists i, In i ids /\ matchCellId i = Some (col, row).
Proof.
  revert coords. induction ids as [|i tl IH]; intros coords H row col Hin;
    simpl in H.
  - inversion H; subst. contradiction.
  - destruct (matchCellId i) as [[c r]|] eqn:E; [|discriminate].
    destruct (parseCoords tl) as [cs|]; [|discriminate].
    inversion H; subst. destruct Hin as [Heq|Hin].
    + inversion Heq; subst. exists i. split; [left; reflexivity|assumption].
    + destruct (IH cs eq_refl row col Hin) as (j & Hj & Hm).
      exists j. split; [right; assumption|assumption].
Qed.


Lemma populate_lookup :
  forall cells b over b' over',
    populate cells b over = Ok (b', over') ->
    forall row col : nat,
      getCell b' (Z.of_nat row) (Z.of_nat col) =
      match lastWriter cells row col with
      | Some e => Some (fst (cellStateOf (classList e)))
      | None => getCell b (Z.of_nat row) (Z.of_nat col)
      end.
Proof.
  induction cells as [|e tl IH]; intros b over b' over' H row col; simpl in H.
  - inversion H; subst. reflexivity.
  - cbn [lastWriter].
    destruct (startsWith "cell_" (id e)) eqn:Es; simpl in H.
    + destruct (matchCellId (id e)) as [[c r]|]; [|discriminate].
      destruct (cellStateOf (classList e)) as [st mine] eqn:Est.
      destruct (setCell b r c st) as [b1|] eqn:E1; [|discriminate].
      rewrite (IH _ _ _ _ H row col).
      destruct (lastWriter tl row col) as [e'|]; [reflexivity|].
      rewrite (getCell_setCell _ _ _ _ _ E1 row col). simpl.
      destruct ((row =? r)%nat && (col =? c)%nat) eqn:Eq.
      * apply andb_true_iff in Eq. destruct Eq as [Hr Hc].
        apply Nat.eqb_eq in Hr, Hc. subst.
        rewrite !Nat.eqb_refl. simpl. rewrite Est. reflexivity.
      * replace ((r =? row)%nat && (c =? col)%nat) with false; [reflexivity|].
        rewrite <- Eq, (Nat.eqb_sym r row), (Nat.eqb_sym c col). reflexivity.
    + rewrite (IH _ _ _ _ H row col).
      destruct (lastWriter tl row col); reflexivity.
Qed.

(** X2 (which element fills a cell).  In a board the reader returns, the
    cell at an in-bounds [(row, col)] is the state read from the last
    element whose id names that cell, and the empty cell (not revealed,
    not flagged, no value) when no element names it. *)
Theorem evalBoardState_lookup :
  forall (cells : list Element) (s : BoardState) (row col : nat),
    evalBoardState (Some cells) = Ok s ->
    Z.of_nat row < height s -> Z.of_nat col < width s ->
    getCell (board s) (Z.of_nat row) (Z.of_nat col) =
    Some match lastWriter cells row col with
         | Some e => fst (cellStateOf (classList e))
         | None => emptyCell
         end.
Proof.
  intros cells s row col H Hr Hc. unfold evalBoardState in H.
  destruct (parseCoords _) as [coords|]; [|discriminate].
  destruct (List.length coords =? 0)%nat; [discriminate|].
  set (h := S (list_max (map fst coords))) in *.
  set (w := S (list_max (map snd coords))) in *.
  clearbody h w.
  destruct (populate cells (repeat (repeat emptyCell w) h) false)
    as [[b over]|] eqn:E; [|discriminate].
  inversion H; subst; clear H. cbn [board width height] in *.
  rewrite (populate_lookup _ _ _ _ _ E row col).
  destruct (lastWriter cells row col); [reflexivity|].
  unfold getCell.
  replace ((Z.of_nat row <? 0) || (Z.of_nat col <? 0)) with false
    by (symmetry; apply orb_false_iff; split; apply Z.ltb_ge; lia).
  rewrite !Nat2Z.id.
  rewrite nth_error_repeat by lia. rewrite nth_error_repeat by lia.
  reflexivity.
Qed.

Lemma cellStateOf_mine (classes : list string) :
  snd (cellStateOf classes) = true <-> showsMine classes.
Proof.
  unfold cellStateOf, showsMine.
  destruct (includes "hdd_opened" classes).
  - destruct (find (startsWith "hdd_type") classes) as [vc|].
    + destruct (parseInt (replaceFirst "hdd_type" vc)) as [z|] eqn:Ep; simpl.
      * destruct (Z.eqb_spec z 10) as [->|H10]; simpl.
        -- split; [intros _|reflexivity].
           split; [reflexivity|]. exists vc. split; [reflexivity|]. left. assumption.
        -- destruct (Z.eqb_spec z 11) as [->|H11]; simpl.
           ++ split; [intros _|reflexivity].
              split; [reflexivity|]. exists vc. split; [reflexivity|]. right.
              assumption.
           ++ split; [discriminate|].
              intros (_ & vc' & Hvc & [H|H]); inversion Hvc; subst vc';
                rewrite Ep in H; inversion H; congruence.
      * split; [discriminate|].
        intros (_ & vc' & Hvc & [H|H]); inversion Hvc; subst vc';
          rewrite Ep in H; discriminate.
    + simpl. split; [discriminate|].
      intros (_ & vc' & Hvc & _). discriminate.
  - destruct (includes "hdd_flag" classes); simpl;
      (split; [discriminate|intros [H _]; discriminate]).
Qed.

Lemma populate_gameOver :
  forall cells b over b' over',
    populate cells b over = Ok (b', over') ->
    over' = over ||
            existsb (fun e => startsWith "cell_" (id e) &&
                              snd (cellStateOf (classList e))) cells.
Proof.
  induction cells as [|e tl IH]; intros b over b' over' H; simpl in H.
  - inversion H; subst. simpl. rewrite orb_false_r. reflexivity.
  - simpl. destruct (startsWith "cell_" (id e)); simpl in *.
    + destruct (matchCellId (id e)) as [[c r]|]; [|discriminate].
      destruct (cellStateOf (classList e)) as [st mine].
      destruct (setCell b r c st) as [b1|]; [|discriminate].
      rewrite (IH _ _ _ _ H). simpl. symmetry. apply orb_assoc.
    + apply (IH _ _ _ _ H).
Qed.

(** X3 (terminal detection).  A board the reader returns has [gameOver]
    set exactly when some element whose id starts with ["cell_"] is opened
    with a value class that reads 10 or 11. *)
Theorem evalBoardState_gameOver :
  forall (cells : list Element) (s : BoardState),
    evalBoardState (Some cells) = Ok s ->
    (gameOver s = true <->
     exists e, In e cells /\ startsWith "cell_" (id e) = true /\
               showsMine (classList e)).
Proof.
  intros cells s H. unfold evalBoardState in H.
  destruct (parseCoords _) as [coords|]; [|discriminate].
  destruct (List.length coords =? 0)%nat; [discriminate|].
  destruct (populate cells _ false) as [[b over]|] eqn:E; [|discriminate].
  inversion H; subst; clear H. cbn [gameOver].
  rewrite (populate_gameOver _ _ _ _ _ E). simpl.
  rewrite existsb_exists. split.
  - intros (e & Hin & He). apply andb_true_iff in He. destruct He as [Hs Hm].
    exists e. split; [assumption|]. split; [assumption|].
    apply cellStateOf_mine. assumption.
  - intros (e & Hin & Hs & Hm). exists e. split; [assumption|].
    apply andb_true_iff. split; [assumption|].
    apply cellStateOf_mine. assumption.
Qed.

(** X4 (the dimensions).  A board the reader returns has at least one
    row and one column; every element named by a ["cell_"] id lies inside
    it; and some element lies in its last row and some element in its
    last column. *)
Theorem evalBoardState_dimensions :
  forall (cells : list Element) (s : BoardState),
    evalBoardState (Some cells) = Ok s ->
    1 <= height s /\ 1 <= width s /\
    (forall e col row,
        In e cells -> startsWith "cell_" (id e) = true ->
        matchCellId (id e) = Some (col, row) ->
        Z.of_nat row < height s /\ Z.of_nat col < width s) /\
    (exists e col row,
        In e cells /\ startsWith "cell_" (id e) = true /\
        matchCellId (id e) = Some (col, row) /\ Z.of_nat row = height s - 1) /\
    (exists e col row,
        In e cells /\ startsWith "cell_" (id e) = true /\
        matchCellId (id e) = Some (col, row) /\ Z.of_nat col = width s - 1).
Proof.
  intros cells s H. unfold evalBoardState in H.
  destruct (parseCoords (filter (startsWith "cell_") (map id cells)))
    as [coords|] eqn:Ep; [|discriminate].
  destruct (List.length coords =? 0)%nat eqn:El; [discriminate|].
  destruct (populate cells _ false) as [[b over]|] eqn:E; [|discriminate].
  inversion H; subst; clear H. cbn [width height].
  assert (Hne : coords <> []).
  { intros ->. simpl in El. discriminate. }
  assert (Hback : forall row col, In (row, col) coords ->
            exists e, In e cells /\ startsWith "cell_" (id e) = true /\
                      matchCellId (id e) = Some (col, row)).
  { intros row col Hin.
    destruct (parseCoords_rows_cols _ _ Ep row col Hin) as (i & Hi & Hm).
    apply filter_In in Hi. destruct Hi as [Hi Hs].
    apply in_map_iff in Hi. destruct Hi as (e & <- & He). eauto. }
  split; [lia|]. split; [lia|]. split; [|split].
  - intros e col row Hin Hs Hm.
    destruct (parseCoords_total (filter (startsWith "cell_") (map id cells)))
      as (coords' & Hp' & _ & Hfwd).
    { intros i Hi Hnone.
      rewrite (parseCoords_bad _ (ex_intro _ i (conj Hi Hnone))) in Ep.
      discriminate. }
    rewrite Ep in Hp'. inversion Hp'; subst coords'.
    assert (Hc : In (row, col) coords).
    { apply (Hfwd (id e)); [|assumption].
      apply filter_In. split; [apply in_map; assumption|assumption]. }
    split.
    + assert (row <= list_max (map fst coords))%nat; [|lia].
      apply In_list_max. change row with (fst (row, col)).
      apply in_map. assumption.
    + assert (col <= list_max (map snd coords))%nat; [|lia].
      apply In_list_max. change col with (snd (row, col)).
      apply in_map. assumption.
  - assert (Hm : In (list_max (map fst coords)) (map fst coords)).
    { apply In_list_max_attained. destruct coords; [congruence|discriminate]. }
    apply in_map_iff in Hm. destruct Hm as ([row col] & Hrow & Hin).
    destruct (Hback row col Hin) as (e & He & Hs & Hmatch).
    exists e, col, row. repeat (split; [assumption|]).
    simpl in Hrow. lia.
  - assert (Hm : In (list_max (map snd coords)) (map snd coords)).
    { apply In_list_max_attained. destruct coords; [congruence|discriminate]. }
    apply in_map_iff in Hm. destruct Hm as ([row col] & Hcol & Hin).
    destruct (Hback row col Hin) as (e & He & Hs & Hmatch).
    exists e, col, row. repeat (split; [assumption|]).
    simpl in Hcol. lia.
Qed.

End ReaderProperties.

(* ================================================================== *)
(** * Further properties of the console dump *)

Lemma printRow_cells (b : Board) (row : Z) :
  forall (cells : list Cell) (k : nat) (acc : string),
    (forall j cell, nth_error cells j = Some cell ->
                    getCell b row (Z.of_nat (k + j)) = Some cell) ->
    printRow b row (map Z.of_nat (seq k (List.length cells))) acc
    = Ok (fold_left (fun rowState cell => (rowState ++ showCell cell)%string)
                    cells acc).
Proof.
  induction cells as [|c tl IH]; intros k acc Hget; simpl.
  - reflexivity.
  - pose proof (Hget O c eq_refl) as H0. rewrite Nat.add_0_r in H0.
    rewrite H0. apply IH.
    intros j cell Hj. replace (S k + j)%nat with (k + S j)%nat by lia.
    apply Hget. exact Hj.
Qed.

Lemma printRows_rows (b : Board) (w : Z) :
  forall (rows : list (list Cell)) (k : nat),
    (forall j rw, nth_error rows j = Some rw ->
                  nth_error b (k + j) = Some rw /\
                  List.length rw = Z.to_nat w) ->
    printRows b w (map Z.of_nat (seq k (List.length rows)))
    = Ok (map showRow rows).
Proof.
  induction rows as [|rw tl IH]; intros k Hrows; simpl.
  - reflexivity.
  - destruct (Hrows O rw eq_refl) as [Hrw Hlen]. rewrite Nat.add_0_r in Hrw.
    unfold range. rewrite <- Hlen.
    rewrite (printRow_cells b (Z.of_nat k) rw 0 EmptyString).
    + rewrite IH; [reflexivity|].
      intros j r Hj. replace (S k + j)%nat with (k + S j)%nat by lia.
      apply Hrows. exact Hj.
    + intros j cell Hj. unfold getCell.
      replace ((Z.of_nat k <? 0) || (Z.of_nat (0 + j) <? 0)) with false
        by (symmetry; apply orb_false_iff; split; apply Z.ltb_ge; lia).
      rewrite !Nat2Z.id, Hrw. exact Hj.
Qed.



(* ================================================================== *)
(** * Further properties of a solving step *)

Lemma flagTraceOk_actions (b : Board) (evs : list Event) :
  flagTraceOk b evs = true -> forall a, In a (actions evs) -> snd a = Flag.
Proof.
  revert b. induction evs as [|[s|r c k|r c] tl IH]; intros b H a Hin; simpl in *.
  - contradiction.
  - eapply IH; eauto.
  - apply andb_true_iff in H. destruct H as [H Htl].
    apply andb_true_iff in H. destruct H as [Hk _].
    destruct Hin as [<-|Hin]; [subst k; reflexivity|eapply IH; eauto].
  - apply andb_true_iff in H. destruct H as [_ Htl]. eapply IH; eauto.
Qed.

Lemma visited_no_skips (evs : list Event) :
  skips evs = [] -> visited evs = map fst (actions evs).
Proof.
  induction evs as [|[s|r c k|r c] tl IH]; intros H; simpl in *.
  - reflexivity.
  - apply IH. assumption.
  - rewrite IH by assumption. reflexivity.
  - discriminate.
Qed.

Lemma snapshotBetweenClicks_app (p : bool) (e1 e2 : list Event) :
  snapshotBetweenClicks p (e1 ++ e2) =
  snapshotBetweenClicks p e1 && snapshotBetweenClicks (pendingAfter p e1) e2.
Proof.
  revert p. induction e1 as [|[s|r c k|r c] tl IH]; intros p; simpl;
    rewrite ?IH, ?andb_assoc; reflexivity.
Qed.

Lemma pendingAfter_app (p : bool) (e1 e2 : list Event) :
  pendingAfter p (e1 ++ e2) = pendingAfter (pendingAfter p e1) e2.
Proof.
  revert p. induction e1 as [|[s|r c k|r c] tl IH]; intros p; simpl;
    rewrite ?IH; reflexivity.
Qed.

Lemma sepOk_app {X Y : Type} (e1 e2 : list Event) (a : X) (r : outcome Y) :
  sepOk e1 (Done a) -> sepOk e2 r -> sepOk (e1 ++ e2) r.
Proof.
  unfold sepOk. intros [H1 P1] [H2 P2].
  rewrite snapshotBetweenClicks_app, pendingAfter_app, P1, H1, H2.
  split; [reflexivity|exact P2].
Qed.

Section StepProperties.
Context {JS : JsRuntime} {World : Type} {B : Browser World}.

(** The test of rule 1, then the test of rule 2: at most one succeeds. *)
Lemma applyRules_one_rule (v : JsNum) (k : Counts) (L : Locals) w w' evs r :
  applyRules v k L w = (w', evs, r) ->
  flagLoop (neighbors k) L w = (w', evs, r)
  \/ revealLoop (neighbors k) L w = (w', evs, r)
  \/ (w' = w /\ evs = [] /\ r = Done (Next L)).
Proof.
  intros H. apply applyRules_inv in H.
  destruct H as (w1 & evs1 & r1 & evs2 & H1 & -> & H2).
  destruct (unopenedNeighbors k >? 0) eqn:Eu; simpl in H1, H2.
  - destruct (numSub v (flaggedNeighbors k)) as [d|] eqn:Ed.
    + destruct (Z.eqb_spec (unopenedNeighbors k) d) as [Heq|Hne].
      * left.
        assert (H2' : numIs v (flaggedNeighbors k) = false).
        { destruct v as [z|]; [|reflexivity]. simpl in *.
          inversion Ed; subst d. apply Z.eqb_neq.
          apply Z.gtb_lt in Eu. lia. }
        rewrite H2' in H2.
        destruct r1 as [[L1|b]|e|].
        -- unfold ret in H2. inversion H2; subst. rewrite app_nil_r. exact H1.
        -- destruct H2 as (-> & -> & ->). rewrite app_nil_r. exact H1.
        -- destruct H2 as (-> & -> & ->). rewrite app_nil_r. exact H1.
        -- destruct H2 as (-> & -> & ->). rewrite app_nil_r. exact H1.
      * unfold ret in H1. inversion H1; subst w1 evs1 r1. simpl.
        destruct (numIs v (flaggedNeighbors k));
          [right; left; exact H2|].
        unfold ret in H2. inversion H2; subst. right; right. auto.
    + unfold ret in H1. inversion H1; subst w1 evs1 r1. simpl.
      destruct v as [z|]; [discriminate|]. simpl in H2.
      unfold ret in H2. inversion H2; subst. right; right. auto.
  - unfold ret in H1. inversion H1; subst w1 evs1 r1. simpl.
    unfold ret in H2. inversion H2; subst. right; right. auto.
Qed.

(** The body of the scan on any cell: nothing happens, or the cell is a
    revealed numbered cell whose counts were taken and one rule ran. *)
Lemma cellBody_cases (row col : Z) (L : Locals) w w' evs r :
  cellBody row col L w = (w', evs, r) ->
  evs = []
  \/ (exists cell v k,
         getCell (board (state L)) row col = Some cell /\
         constraintValue cell = Some v /\
         countNeighbors (state L) row col = Ok k /\
         (flagLoop (neighbors k) L w = (w', evs, r)
          \/ revealLoop (neighbors k) L w = (w', evs, r))).
Proof.
  unfold cellBody. intros H.
  destruct (getCell (board (state L)) row col) as [cell|] eqn:Eg;
    [|unfold throw in H; inversion H; auto].
  destruct (constraintValue cell) as [v|] eqn:Ev;
    [|unfold ret in H; inversion H; auto].
  destruct (countNeighbors (state L) row col) as [k|e] eqn:Ek;
    simpl liftResult in H.
  - rewrite bind_ret in H.
    destruct (applyRules_one_rule _ _ _ _ _ _ _ H) as [Hf|[Hr|(_ & -> & _)]];
      [right|right|left; reflexivity];
      exists cell, v, k; auto.
  - unfold bind, throw in H. inversion H; auto.
Qed.

(** X6 (one rule per cell).  Whatever the board, the clicks the scan
    makes for one cell are all of one kind: all Flag, or all Reveal with
    no cell skipped.  Rule 1 and rule 2 never both act on a cell. *)
Theorem cellBody_one_kind :
  forall (row col : Z) (L : Locals) (w w' : World) (evs : list Event)
         (r : outcome Flow),
    cellBody row col L w = (w', evs, r) ->
    (forall a, In a (actions evs) -> snd a = Flag)
    \/ (skips evs = [] /\ forall a, In a (actions evs) -> snd a = Reveal).
Proof.
  intros row col L w w' evs r H.
  destruct (cellBody_cases _ _ _ _ _ _ _ H)
    as [->|(cell & v & k & _ & _ & _ & [Hf|Hr])].
  - left. intros a [].
  - left. apply flagLoop_trace in Hf. destruct Hf as (Hok & _).
    apply (flagTraceOk_actions _ _ Hok).
  - right. apply revealLoop_trace in Hr. destruct Hr as (Hs & [rest Hpre] & _).
    split; [assumption|]. intros a Ha.
    assert (Hin : In a (map (fun p : Pos => (p, Reveal)) (neighbors k)))
      by (rewrite Hpre; apply in_or_app; left; assumption).
    apply in_map_iff in Hin. destruct Hin as (p & <- & _). reflexivity.
Qed.

(** X7 (what the scan clicks).  Every cell the scan clicks or skips for
    the cell [(row, col)] is a neighbour of it inside the board that the
    current board shows neither revealed nor flagged; and the scan acts
    only for a revealed cell whose value is a number other than 0, -1
    and -2. *)
Theorem cellBody_targets :
  forall (row col : Z) (L : Locals) (w w' : World) (evs : list Event)
         (r : outcome Flow) (p : Pos),
    cellBody row col L w = (w', evs, r) ->
    In p (visited evs) ->
    In p (neighborsOf (width (state L)) (height (state L)) row col) /\
    isUnopened (board (state L)) p = true /\
    exists cell v,
      getCell (board (state L)) row col = Some cell /\
      revealed cell = true /\ value cell = Some v /\
      numIs v 0 = false /\ numIs v (-1) = false /\ numIs v (-2) = false.
Proof.
  intros row col L w w' evs r p H Hp.
  destruct (cellBody_cases _ _ _ _ _ _ _ H)
    as [->|(cell & v & k & Hg & Hv & Hk & Hrule)]; [contradiction|].
  destruct (countNeighbors_spec _ _ _ _ Hk) as (Hn & _ & _).
  assert (Hin : In p (neighbors k)).
  { destruct Hrule as [Hf|Hr].
    - apply flagLoop_trace in Hf. destruct Hf as (_ & [rest Hpre] & _).
      rewrite Hpre. apply in_or_app. left. assumption.
    - apply revealLoop_trace in Hr. destruct Hr as (Hs & [rest Hpre] & _).
      rewrite (visited_no_skips _ Hs) in Hp.
      apply in_map_iff in Hp. destruct Hp as (a & <- & Ha).
      assert (Hm : In a (map (fun q : Pos => (q, Reveal)) (neighbors k)))
        by (rewrite Hpre; apply in_or_app; left; assumption).
      apply in_map_iff in Hm. destruct Hm as (q & <- & Hq). exact Hq. }
  rewrite Hn in Hin. unfold unopenedOf in Hin. apply filter_In in Hin.
  destruct Hin as [Hnb Hun]. split; [assumption|]. split; [assumption|].
  exists cell. unfold constraintValue in Hv.
  destruct (revealed cell); simpl in Hv; [|discriminate].
  destruct (value cell) as [v0|]; [|discriminate].
  destruct (numIs v0 0 || numIs v0 (-1) || numIs v0 (-2)) eqn:E; [discriminate|].
  apply orb_false_iff in E. destruct E as [E E2].
  apply orb_false_iff in E. destruct E as [E0 E1].
  exists v0. repeat split; assumption.
Qed.

Lemma cellBody_quiet (row col : Z) (L : Locals) (w : World) :
  rectangular (state L) ->
  0 <= row < height (state L) -> 0 <= col < width (state L) ->
  ruleApplies (state L) row col = false ->
  cellBody row col L w = (w, [], Done (Next L)).
Proof.
  intros Hrect Hr Hc Hno. unfold cellBody. unfold ruleApplies in Hno.
  destruct (getCell_inside (state L) row col Hrect Hr Hc) as [cell Hg].
  rewrite Hg in *.
  destruct (constraintValue cell) as [v|]; [|reflexivity].
  destruct (countNeighbors_total (width (state L)) (height (state L)) L row col)
    as (k & Hk & _); [split; [assumption|split; reflexivity]|].
  destruct (countNeighbors_spec _ _ _ _ Hk) as (_ & Hu & Hf).
  rewrite Hk. simpl liftResult. rewrite bind_ret.
  unfold applyRules. rewrite Hu, Hf.
  destruct (Z.of_nat (List.length (unopenedOf (state L) row col)) >? 0);
    simpl in *; [|rewrite bind_ret; reflexivity].
  apply orb_false_iff in Hno. destruct Hno as [H1 H2].
  rewrite H1, H2. rewrite bind_ret. reflexivity.
Qed.

Lemma colLoop_quiet (s : BoardState) (taken : bool) (w : World) (row : Z) :
  rectangular s -> 0 <= row < height s ->
  (forall col, 0 <= col < width s -> ruleApplies s row col = false) ->
  forall fuel col,
    0 <= col -> (Z.to_nat (width s - col) < fuel)%nat ->
    colLoop fuel row col (mkLocals s taken) w
    = (w, [], Done (Next (mkLocals s taken))).
Proof.
  intros Hrect Hr Hno. induction fuel as [|n IH]; intros col Hc Hf; [lia|].
  simpl. destruct (Z.ltb_spec col (width s)); [|reflexivity].
  rewrite (bind_done _ _ _ _ _ _
             (cellBody_quiet row col (mkLocals s taken) w Hrect Hr
                             (conj Hc H) (Hno col (conj Hc H)))).
  rewrite IH by lia. reflexivity.
Qed.

Lemma rowLoop_quiet (s : BoardState) (taken : bool) (w : World) (colFuel : nat) :
  rectangular s -> (Z.to_nat (width s) < colFuel)%nat ->
  (forall row col, 0 <= row < height s -> 0 <= col < width s ->
                   ruleApplies s row col = false) ->
  forall fuel row,
    0 <= row -> (Z.to_nat (height s - row) < fuel)%nat ->
    rowLoop colFuel fuel row (mkLocals s taken) w
    = (w, [], Done (Next (mkLocals s taken))).
Proof.
  intros Hrect Hcf Hno. induction fuel as [|n IH]; intros row Hr Hf; [lia|].
  simpl. destruct (Z.ltb_spec row (height s)); [|reflexivity].
  rewrite (bind_done _ _ _ _ _ _
             (colLoop_quiet s taken w row Hrect (conj Hr H)
                            (fun col Hc => Hno row col (conj Hr H) Hc)
                            colFuel 0
                            ltac:(lia) ltac:(lia))).
  rewrite IH by lia. reflexivity.
Qed.

(** Rule 3 clicks at most once, a Reveal on a cell of the frontier. *)
Lemma randomMove_actions (L : Locals) (w w' : World) evs (r : outcome bool) :
  randomMove L w = (w', evs, r) ->
  skips evs = [] /\
  (actions evs = [] \/
   exists row col,
     actions evs = [((row, col), Reveal)] /\
     0 <= row < height (state L) /\ 0 <= col < width (state L) /\
     onFrontier (state L) row col).
Proof.
  intros H. apply randomMove_trace in H.
  destruct (candidates (state L)) as [cs|e] eqn:Ec.
  - destruct cs as [|c0 cs0]; [destruct H as (-> & _); auto|].
    destruct (nthPos (c0 :: cs0) _) as [[row col]|] eqn:En;
      [|destruct H as (-> & _); auto].
    assert (Hin : In (row, col) (c0 :: cs0)).
    { unfold nthPos in En. destruct (_ <? 0); [discriminate|].
      eapply nth_error_In; eauto. }
    rewrite (candidates_spec _ _ Ec) in Hin. apply filter_In in Hin.
    destruct Hin as [Hpos Hfr]. apply In_positions in Hpos.
    apply frontier_iff in Hfr.
    assert (Hgoal : exists row0 col0,
               [((row, col), Reveal)] = [((row0, col0), Reveal)] /\
               0 <= row0 < height (state L) /\ 0 <= col0 < width (state L) /\
               onFrontier (state L) row0 col0)
      by (exists row, col; tauto).
    destruct H as [(-> & _)|(s & -> & _)]; simpl; auto.
  - destruct H as (-> & _). auto.
Qed.

(** X8 (no certain move).  When the board of the snapshot is such that
    neither rule's test succeeds for any of its cells, the scan of the step
    clicks nothing, and the whole step makes at most one click: a Reveal
    on a cell that is not revealed, not flagged and has a revealed
    neighbour. *)
Theorem solveStep_without_certain_move :
  forall (fuel : nat) (w w' : World) (s : BoardState) (evs : list Event)
         (r : outcome bool),
    evalBoardState (gameCells (delay 1000 w)) = Ok s ->
    (Z.to_nat (width s) < fuel)%nat -> (Z.to_nat (height s) < fuel)%nat ->
    (forall row col, 0 <= row < height s -> 0 <= col < width s ->
                     ruleApplies s row col = false) ->
    solveStep fuel w = (w', evs, r) ->
    rowLoop fuel fuel 0 (mkLocals s false) (delay 1000 w)
    = (delay 1000 w, [], Done (Next (mkLocals s false))) /\
    (actions evs = [] \/
     exists row col,
       actions evs = [((row, col), Reveal)] /\
       0 <= row < height s /\ 0 <= col < width s /\ onFrontier s row col).
Proof.
  intros fuel w w' s evs r Hs Hfw Hfh Hno H.
  destruct (evalBoardState_wellformed _ _ Hs) as [Hrect _].
  assert (Hscan : rowLoop fuel fuel 0 (mkLocals s false) (delay 1000 w)
                  = (delay 1000 w, [], Done (Next (mkLocals s false))))
    by (apply rowLoop_quiet; (assumption || lia)).
  split; [exact Hscan|].
  unfold solveStep in H.
  rewrite (bind_done _ _ _ _ _ _ (getBoardState_ok _ _ Hs)) in H.
  rewrite (bind_done _ _ _ _ _ _ (print_rectangular _ _ Hrect)) in H.
  destruct (gameOver s).
  - unfold ret, worldOf, traceOf, outcomeOf in H. simpl in H.
    inversion H; subst. left. reflexivity.
  - rewrite (bind_done _ _ _ _ _ _ Hscan) in H.
    cbv beta iota in H. cbn [actionTaken negb] in H.
    remember (randomMove (mkLocals s false) (delay 1000 w)) as run eqn:E.
    destruct run as [[w2 evs2] r2]. symmetry in E.
    unfold worldOf, traceOf, outcomeOf in H. simpl in H.
    inversion H; subst. simpl.
    apply randomMove_actions in E. exact (proj2 E).
Qed.

(** X9, for one click of a rule with its snapshot and the rest of the
    loop. *)
Lemma click_then_sep (loop : Locals -> M World Flow) row col k w w' evs r :
  (forall L1 w1 w2 evs2 r2, loop L1 w1 = (w2, evs2, r2) -> sepOk evs2 r2) ->
  (doClick row col k ;;;
   x <- refetch ;;
   match x with
   | Return b => ret (Return b)
   | Next L' => loop L'
   end) w = (w', evs, r) ->
  sepOk evs r.
Proof.
  intros Hloop H. apply click_refetch_inv in H.
  destruct H as [(-> & e & ->)|(s & w1 & evs2 & -> & HK)].
  - split; [reflexivity|exact I].
  - assert (Hk : sepOk evs2 r).
    { destruct (gameOver s); [|eapply Hloop; eauto].
      unfold ret in HK. inversion HK; subst. split; reflexivity. }
    exact Hk.
Qed.

Lemma flagLoop_sep :
  forall ns L w w' evs r, flagLoop ns L w = (w', evs, r) -> sepOk evs r.
Proof.
  induction ns as [|[nr nc] tl IH]; intros L w w' evs r H; simpl in H.
  - unfold ret in H. inversion H; subst. split; reflexivity.
  - destruct (getCell (board (state L)) nr nc) as [c|];
      [|unfold throw in H; inversion H; subst; split; [reflexivity|exact I]].
    destruct (flagged c).
    + unfold bind, emit in H.
      destruct (flagLoop tl L w) as [[w2 evs2] r2] eqn:E2.
      inversion H; subst; clear H. apply IH in E2. exact E2.
    + eapply click_then_sep; [|exact H]. intros; eapply IH; eauto.
Qed.

Lemma revealLoop_sep :
  forall ns L w w' evs r, revealLoop ns L w = (w', evs, r) -> sepOk evs r.
Proof.
  induction ns as [|[nr nc] tl IH]; intros L w w' evs r H; simpl in H.
  - unfold ret in H. inversion H; subst. split; reflexivity.
  - eapply click_then_sep; [|exact H]. intros; eapply IH; eauto.
Qed.

Lemma cellBody_sep (row col : Z) (L : Locals) w w' evs r :
  cellBody row col L w = (w', evs, r) -> sepOk evs r.
Proof.
  intros H. pose proof (cellBody_flow _ _ _ _ _ _ _ H) as Hflow.
  destruct (cellBody_cases _ _ _ _ _ _ _ H)
    as [->|(cell & v & k & _ & _ & _ & [Hf|Hr])].
  - split; [reflexivity|]. destruct r; try exact I. reflexivity.
  - eapply flagLoop_sep; eauto.
  - eapply revealLoop_sep; eauto.
Qed.

Lemma colLoop_sep :
  forall fuel row col L w w' evs r,
    colLoop fuel row col L w = (w', evs, r) -> sepOk evs r.
Proof.
  induction fuel as [|n IH]; intros row col L w w' evs r H; simpl in H.
  - unfold outOfFuel in H. inversion H; subst. split; [reflexivity|exact I].
  - destruct (col <? width (state L));
      [|unfold ret in H; inversion H; subst; split; reflexivity].
    apply bind_inv in H.
    destruct H as [(w1 & evs1 & x & evs2 & H1 & Hk & ->)|[(e & H1 & ->)|[H1 ->]]].
    + apply cellBody_sep in H1. eapply sepOk_app; [exact H1|].
      destruct x as [L1|b]; [eapply IH; eauto|].
      unfold ret in Hk. inversion Hk; subst. split; reflexivity.
    + apply cellBody_sep in H1. exact H1.
    + apply cellBody_sep in H1. exact H1.
Qed.

Lemma rowLoop_sep (colFuel : nat) :
  forall fuel row L w w' evs r,
    rowLoop colFuel fuel row L w = (w', evs, r) -> sepOk evs r.
Proof.
  induction fuel as [|n IH]; intros row L w w' evs r H; simpl in H.
  - unfold outOfFuel in H. inversion H; subst. split; [reflexivity|exact I].
  - destruct (row <? height (state L));
      [|unfold ret in H; inversion H; subst; split; reflexivity].
    apply bind_inv in H.
    destruct H as [(w1 & evs1 & x & evs2 & H1 & Hk & ->)|[(e & H1 & ->)|[H1 ->]]].
    + apply colLoop_sep in H1. eapply sepOk_app; [exact H1|].
      destruct x as [L1|b]; [eapply IH; eauto|].
      unfold ret in Hk. inversion Hk; subst. split; reflexivity.
    + apply colLoop_sep in H1. exact H1.
    + apply colLoop_sep in H1. exact H1.
Qed.

Lemma randomMove_sep (L : Locals) w w' evs (r : outcome bool) :
  randomMove L w = (w', evs, r) -> sepOk evs r.
Proof.
  intros H. apply randomMove_trace in H.
  destruct (candidates (state L)) as [[|c0 cs0]|e].
  - destruct H as (-> & -> & _). split; reflexivity.
  - destruct (nthPos _ _) as [[row col]|].
    + destruct H as [(-> & e & ->)|(s & -> & ->)];
        split; first [reflexivity | exact I].
    + destruct H as (-> & ->). split; [reflexivity|exact I].
  - destruct H as (-> & ->). split; [reflexivity|exact I].
Qed.

Lemma solveStep_sep (fuel : nat) (w w' : World) evs (r : outcome bool) :
  solveStep fuel w = (w', evs, r) ->
  ((evs = [] /\ exists e, r = Thrown e)
   \/ exists s tl, evs = EvSnapshot s :: tl) /\ sepOk evs r.
Proof.
  intros H. unfold solveStep in H. apply snapshot_inv in H.
  destruct H as [(s & evs2 & _ & -> & H)|(-> & e & ->)];
    [|split; [left; eauto|split; [reflexivity|exact I]]].
  split; [right; eauto|].
  change (sepOk evs2 r).
  destruct (gameOver s).
  { unfold ret in H. inversion H; subst. split; reflexivity. }
  apply bind_inv in H.
  destruct H as [(w1 & evs1 & x & evs3 & H1 & Hk & ->)|[(e & H1 & ->)|[H1 ->]]].
  - apply rowLoop_sep in H1. eapply sepOk_app; [exact H1|].
    destruct x as [L|b].
    + destruct (actionTaken L); simpl in Hk.
      * unfold ret in Hk. inversion Hk; subst. split; reflexivity.
      * eapply randomMove_sep; eauto.
    + unfold ret in Hk. inversion Hk; subst. split; reflexivity.
  - apply rowLoop_sep in H1. exact H1.
  - apply rowLoop_sep in H1. exact H1.
Qed.

(** X9 (a fresh snapshot between actions).  In every step, whatever its
    outcome: the trace is empty or starts with a snapshot; no click
    follows another click without a snapshot taken in between; and a step
    that returns a boolean has taken a snapshot after its last click. *)
Theorem solveStep_snapshot_between_clicks :
  forall (fuel : nat) (w : World),
    (traceOf (solveStep fuel w) = [] \/
     exists s tl, traceOf (solveStep fuel w) = EvSnapshot s :: tl) /\
    snapshotBetweenClicks false (traceOf (solveStep fuel w)) = true /\
    match outcomeOf (solveStep fuel w) with
    | Done _ => pendingAfter false (traceOf (solveStep fuel w)) = false
    | _ => True
    end.
Proof.
  intros fuel w.
  destruct (solveStep fuel w) as [[w' evs] r] eqn:H.
  unfold traceOf, outcomeOf. simpl.
  destruct (solveStep_sep _ _ _ _ _ H) as [Hstart [Hsep Hend]].
  split; [destruct Hstart as [[-> _]|Hstart]; auto|].
  split; [exact Hsep|]. exact Hend.
Qed.

Lemma liveClicks_app (b : bool) (e1 e2 : list Event) :
  liveClicks b (e1 ++ e2) = liveClicks b e1 && liveClicks (liveAfter b e1) e2.
Proof.
  revert b. induction e1 as [|[s|r c k|r c] tl IH]; intros b; simpl;
    rewrite ?IH, ?andb_assoc; reflexivity.
Qed.

Lemma liveAfter_app (b : bool) (e1 e2 : list Event) :
  liveAfter b (e1 ++ e2) = liveAfter (liveAfter b e1) e2.
Proof.
  revert b. induction e1 as [|[s|r c k|r c] tl IH]; intros b; simpl;
    rewrite ?IH; reflexivity.
Qed.

Lemma liveOk_app (e1 e2 : list Event) (L : Locals) (r : outcome Flow) :
  liveOk e1 (Done (Next L)) -> liveOk e2 r -> liveOk (e1 ++ e2) r.
Proof.
  unfold liveOk. intros [H1 P1] [H2 P2].
  rewrite liveClicks_app, liveAfter_app, P1, H1, H2.
  split; [reflexivity|exact P2].
Qed.

Lemma liveOk_then (e1 : list Event) (x : Flow) (e2 : list Event) r :
  liveOk e1 (Done x) ->
  (forall L, x = Next L -> liveOk e2 r) ->
  (forall b, x = Return b -> e2 = [] /\ r = Done (Return b)) ->
  liveOk (e1 ++ e2) r.
Proof.
  intros H1 Hn Hr. destruct x as [L|b].
  - eapply liveOk_app; [exact H1|]. apply (Hn L). reflexivity.
  - destruct (Hr b eq_refl) as [-> ->]. rewrite app_nil_r.
    split; [exact (proj1 H1)|exact I].
Qed.

Lemma click_then_live (loop : Locals -> M World Flow) row col k w w' evs r :
  (forall L1 w1 w2 evs2 r2, loop L1 w1 = (w2, evs2, r2) -> liveOk evs2 r2) ->
  (doClick row col k ;;;
   x <- refetch ;;
   match x with
   | Return b => ret (Return b)
   | Next L' => loop L'
   end) w = (w', evs, r) ->
  liveOk evs r.
Proof.
  intros Hloop H. apply click_refetch_inv in H.
  destruct H as [(-> & e & ->)|(s & w1 & evs2 & -> & HK)].
  - split; [reflexivity|exact I].
  - unfold liveOk. simpl. destruct (gameOver s); simpl.
    + unfold ret in HK. inversion HK; subst. split; [reflexivity|exact I].
    + eapply Hloop; eauto.
Qed.

Lemma flagLoop_live :
  forall ns L w w' evs r, flagLoop ns L w = (w', evs, r) -> liveOk evs r.
Proof.
  induction ns as [|[nr nc] tl IH]; intros L w w' evs r H; simpl in H.
  - unfold ret in H. inversion H; subst. split; reflexivity.
  - destruct (getCell (board (state L)) nr nc) as [c|];
      [|unfold throw in H; inversion H; subst; split; [reflexivity|exact I]].
    destruct (flagged c).
    + unfold bind, emit in H.
      destruct (flagLoop tl L w) as [[w2 evs2] r2] eqn:E2.
      inversion H; subst; clear H. apply IH in E2. exact E2.
    + eapply click_then_live; [|exact H]. intros; eapply IH; eauto.
Qed.

Lemma revealLoop_live :
  forall ns L w w' evs r, revealLoop ns L w = (w', evs, r) -> liveOk evs r.
Proof.
  induction ns as [|[nr nc] tl IH]; intros L w w' evs r H; simpl in H.
  - unfold ret in H. inversion H; subst. split; reflexivity.
  - eapply click_then_live; [|exact H]. intros; eapply IH; eauto.
Qed.

Lemma cellBody_live (row col : Z) (L : Locals) w w' evs r :
  cellBody row col L w = (w', evs, r) -> liveOk evs r.
Proof.
  intros H.
  destruct (cellBody_cases _ _ _ _ _ _ _ H)
    as [->|(cell & v & k & _ & _ & _ & [Hf|Hr])].
  - split; [reflexivity|]. destruct r as [[L1|b]|e|]; try exact I. reflexivity.
  - eapply flagLoop_live; eauto.
  - eapply revealLoop_live; eauto.
Qed.

Lemma colLoop_live :
  forall fuel row col L w w' evs r,
    colLoop fuel row col L w = (w', evs, r) -> liveOk evs r.
Proof.
  induction fuel as [|n IH]; intros row col L w w' evs r H; simpl in H.
  - unfold outOfFuel in H. inversion H; subst. split; [reflexivity|exact I].
  - destruct (col <? width (state L));
      [|unfold ret in H; inversion H; subst; split; reflexivity].
    apply bind_inv in H.
    destruct H as [(w1 & evs1 & x & evs2 & H1 & Hk & ->)|[(e & H1 & ->)|[H1 ->]]].
    + apply cellBody_live in H1.
      apply (liveOk_then evs1 x evs2 r H1).
      * intros L1 ->. eapply IH; eauto.
      * intros b ->. unfold ret in Hk. inversion Hk; subst. auto.
    + apply cellBody_live in H1. split; [exact (proj1 H1)|exact I].
    + apply cellBody_live in H1. split; [exact (proj1 H1)|exact I].
Qed.

Lemma rowLoop_live (colFuel : nat) :
  forall fuel row L w w' evs r,
    rowLoop colFuel fuel row L w = (w', evs, r) -> liveOk evs r.
Proof.
  induction fuel as [|n IH]; intros row L w w' evs r H; simpl in H.
  - unfold outOfFuel in H. inversion H; subst. split; [reflexivity|exact I].
  - destruct (row <? height (state L));
      [|unfold ret in H; inversion H; subst; split; reflexivity].
    apply bind_inv in H.
    destruct H as [(w1 & evs1 & x & evs2 & H1 & Hk & ->)|[(e & H1 & ->)|[H1 ->]]].
    + apply colLoop_live in H1.
      apply (liveOk_then evs1 x evs2 r H1).
      * intros L1 ->. eapply IH; eauto.
      * intros b ->. unfold ret in Hk. inversion Hk; subst. auto.
    + apply colLoop_live in H1. split; [exact (proj1 H1)|exact I].
    + apply colLoop_live in H1. split; [exact (proj1 H1)|exact I].
Qed.

Lemma randomMove_live (L : Locals) w w' evs (r : outcome bool) :
  randomMove L w = (w', evs, r) -> liveClicks true evs = true.
Proof.
  intros H. apply randomMove_trace in H.
  destruct (candidates (state L)) as [[|c0 cs0]|e].
  - destruct H as (-> & _). reflexivity.
  - destruct (nthPos _ _) as [[row col]|].
    + destruct H as [(-> & _)|(s & -> & _)]; reflexivity.
    + destruct H as (-> & _). reflexivity.
  - destruct H as (-> & _). reflexivity.
Qed.

Lemma solveStep_live (fuel : nat) (w w' : World) evs (r : outcome bool) :
  solveStep fuel w = (w', evs, r) -> liveClicks false evs = true.
Proof.
  intros H. unfold solveStep in H. apply snapshot_inv in H.
  destruct H as [(s & evs2 & _ & -> & H)|(-> & _)]; [|reflexivity].
  simpl. destruct (gameOver s); simpl.
  { unfold ret in H. inversion H; subst. reflexivity. }
  apply bind_inv in H.
  destruct H as [(w1 & evs1 & x & evs3 & H1 & Hk & ->)|[(e & H1 & ->)|[H1 ->]]].
  - apply rowLoop_live in H1. destruct H1 as [Hc Ha].
    rewrite liveClicks_app, Hc. simpl.
    destruct x as [L|b].
    + rewrite Ha. destruct (actionTaken L); simpl in Hk.
      * unfold ret in Hk. inversion Hk; subst. reflexivity.
      * eapply randomMove_live; eauto.
    + unfold ret in Hk. inversion Hk; subst. reflexivity.
  - apply rowLoop_live in H1. exact (proj1 H1).
  - apply rowLoop_live in H1. exact (proj1 H1).
Qed.

(** X10 (no click on a lost game).  In every step, whatever its outcome,
    each click is made on a live board: a snapshot was taken since the
    click before it, and the last snapshot before the click shows no
    mine.  Once a snapshot shows a mine the step clicks no more. *)
Theorem solveStep_clicks_on_live_board :
  forall (fuel : nat) (w : World),
    liveClicks false (traceOf (solveStep fuel w)) = true.
Proof.
  intros fuel w.
  destruct (solveStep fuel w) as [[w' evs] r] eqn:H.
  exact (solveStep_live _ _ _ _ _ H).
Qed.

End StepProperties.

(* ================================================================== *)
(** * Further properties of the click on a cell *)

Ltac no_such_event Hin ev :=
  exfalso; simpl in Hin;
  repeat (destruct Hin as [Hin|Hin]; [subst ev; discriminate|]);
  exact Hin.

Section ClickProperties.
Context {World : Type} {P : Puppeteer World}.

(** What follows the click, on any page. *)
Lemma afterClick_shape (selector : string) (w : World) (before : list PageEvent) :
  exists (failed : nat) (w' : World),
    (failed <= 3)%nat /\
    afterClick selector w before =
    (w',
     before ++ flat_map (failedAttempt selector) (seq 1 failed)
       ++ (if (failed <? 3)%nat then [PgWait selector true] else [PgGaveUp])
       ++ [PgDelay 1000],
     Ok tt).
Proof.
  unfold afterClick, waitLoop.
  destruct (page_waitForFunction selector w) as [w1 [|]];
    [exists 0%nat; eexists; split; [lia|reflexivity]|].
  destruct (page_waitForFunction selector (timer_delay 1000 w1)) as [w2 [|]];
    [exists 1%nat; eexists; split; [lia|reflexivity]|].
  destruct (page_waitForFunction selector (timer_delay 1000 w2)) as [w3 [|]];
    [exists 2%nat; eexists; split; [lia|reflexivity]|].
  exists 3%nat; eexists; split; [lia|reflexivity].
Qed.

(** The click on any page: nothing, a failure before any click went
    through, or one click that went through and the wait after it. *)
Lemma clickCellOnPage_cases (row col : Z) (k : bool) (w : World) :
  exists (w' : World) (before : list PageEvent),
    (before = [PgQuery (cellSelector row col)]
     \/ before = [PgQuery (cellSelector row col); PgClick (cellSelector row col) k false; PgBox (cellSelector row col)]
     \/ exists x y, before = [PgQuery (cellSelector row col); PgClick (cellSelector row col) k false; PgBox (cellSelector row col);
                              PgMouse x y k false]) /\
    (exists r, clickCellOnPage row col k w = (w', before, r))
    \/
    (before = [PgQuery (cellSelector row col); PgClick (cellSelector row col) k true]
     \/ exists x y, before = [PgQuery (cellSelector row col); PgClick (cellSelector row col) k false; PgBox (cellSelector row col);
                              PgMouse x y k true]) /\
    exists failed : nat,
      (failed <= 3)%nat /\
      clickCellOnPage row col k w =
      (w',
       before ++ flat_map (failedAttempt (cellSelector row col)) (seq 1 failed)
         ++ (if (failed <? 3)%nat then [PgWait (cellSelector row col) true] else [PgGaveUp])
         ++ [PgDelay 1000],
       Ok tt).
Proof.
  unfold clickCellOnPage. cbv zeta.
  generalize (cellSelector row col) as sel. intros sel.
  destruct (page_query sel w) as [w1 [[|]|e]];
    [|exists w1, [PgQuery sel]; left; split; [auto|eauto]
     |exists w1, [PgQuery sel]; left; split; [auto|eauto]].
  destruct (page_click sel k w1) as [w2 [|]].
  - destruct (afterClick_shape sel w2 [PgQuery sel; PgClick sel k true])
      as (failed & w' & Hle & ->).
    exists w', [PgQuery sel; PgClick sel k true]. right.
    split; [auto|]. exists failed. auto.
  - destruct (handle_boundingBox sel w2) as [w3 [[bb|]|e]];
      [|exists w3, [PgQuery sel; PgClick sel k false; PgBox sel];
        left; split; [auto|eauto]
       |exists w3, [PgQuery sel; PgClick sel k false; PgBox sel];
        left; split; [auto|eauto]].
    destruct (mouse_click _ _ k w3) as [w4 [[]|e]].
    + match goal with
      | |- context [afterClick sel w4 ?b] =>
          destruct (afterClick_shape sel w4 b) as (failed & w' & Hle & ->);
          exists w', b
      end.
      right. split; [right; eauto|]. exists failed. auto.
    + eexists w4, _. left. split; [right; right; eauto|eauto].
Qed.

(** X11 (the wait after a click).  When a click went through, [clickCell]
    waits for the cell to change at most three times, stops at the first
    wait that succeeds, warns with the number of the attempt (1, 2, 3)
    and sleeps a second after each one that timed out, warns that the
    update failed exactly when all three did, and in every case ends by
    sleeping a second and returns normally. *)
Theorem clickCell_waits_at_most_three_times :
  forall (row col : Z) (k : bool) (w w' : World) (evs : list PageEvent)
         (r : result unit),
    clickCellOnPage row col k w = (w', evs, r) ->
    (exists ev, In ev evs /\ wentThrough ev = true) ->
    exists (before : list PageEvent) (failed : nat),
      (failed <= 3)%nat /\
      Forall (fun ev => isWaiting ev = false) before /\
      evs = before
              ++ flat_map (failedAttempt (cellSelector row col)) (seq 1 failed)
              ++ (if (failed <? 3)%nat
                  then [PgWait (cellSelector row col) true]
                  else [PgGaveUp])
              ++ [PgDelay 1000] /\
      r = Ok tt.
Proof.
  intros row col k w w' evs r H.
  destruct (clickCellOnPage_cases row col k w)
    as (w1 & before & [[Hb [r1 E]]|[Hb (failed & Hle & E)]]);
    rewrite E in H; inversion H; subst; clear H.
  - intros [ev [Hin Hw]].
    destruct Hb as [->|[->|(x & y & ->)]]; no_such_event Hin ev.
  - intros _. exists before, failed. split; [assumption|].
    split; [|split; reflexivity].
    destruct Hb as [->|(x & y & ->)]; repeat constructor.
Qed.

(** X12 (the click is made once, on the cell asked for).  On any page:
    every call of [clickCell] is about the element [#cell_<col>_<row>]
    and the button asked for; at most one click goes through; the mouse
    is used only after [page.click] failed; [clickCell] waits or sleeps
    only after a click went through; and it throws only when no click
    went through. *)
Theorem clickCell_discipline :
  forall (row col : Z) (k : bool) (w w' : World) (evs : list PageEvent)
         (r : result unit),
    clickCellOnPage row col k w = (w', evs, r) ->
    Forall (addresses (cellSelector row col) k) evs /\
    (List.length (filter wentThrough evs) <= 1)%nat /\
    (forall x y b res, In (PgMouse x y b res) evs ->
                       In (PgClick (cellSelector row col) k false) evs) /\
    ((exists ev, In ev evs /\ isWaiting ev = true) ->
     exists ev, In ev evs /\ wentThrough ev = true) /\
    ((exists ev, In ev evs /\ wentThrough ev = true) -> r = Ok tt).
Proof.
  intros row col k w w' evs r H.
  destruct (clickCellOnPage_cases row col k w)
    as (w1 & before & [[Hb [r1 E]]|[Hb (failed & Hle & E)]]);
    rewrite E in H; inversion H; subst; clear H E.
  - destruct Hb as [->|[->|(x & y & ->)]];
      (split; [solve [simpl; repeat constructor]|]);
      (split; [simpl; lia|]);
      (split; [intros x0 y0 b res Hin; simpl in Hin |- *;
               repeat (destruct Hin as [Hin|Hin]; try discriminate);
               solve [contradiction | auto]|]);
      (split; intros [ev [Hin Hw]]; no_such_event Hin ev).
  - assert (Hf : (failed = 0 \/ failed = 1 \/ failed = 2 \/ failed = 3)%nat) by lia.
    destruct Hb as [->|(x & y & ->)];
      destruct Hf as [-> | [-> | [-> | ->]]];
      (split; [solve [simpl; repeat constructor]|]);
      (split; [simpl; lia|]);
      (split; [intros x0 y0 b res Hin; simpl in Hin |- *;
               repeat (destruct Hin as [Hin|Hin]; try discriminate);
               solve [contradiction | auto]|]);
      (split; [intros _|intros _; reflexivity]);
      first [ solve [eexists; split; [right; left; reflexivity|reflexivity]]
            | solve [eexists; split; [do 3 right; left; reflexivity|reflexivity]] ].
Qed.

End ClickProperties.

(* ================================================================== *)
(** * Further properties of the main function and of the status *)

Lemma evalBoardState_positive {JS : JsRuntime}
      (game : option (list Element)) (s : BoardState) :
  evalBoardState game = Ok s -> 1 <= height s /\ 1 <= width s.
Proof.
  unfold evalBoardState. intros H.
  destruct game as [cells|]; [|discriminate].
  destruct (parseCoords _) as [coords|]; [|discriminate].
  destruct (List.length coords =? 0)%nat; [discriminate|].
  destruct (populate cells _ false) as [[b over]|]; [|discriminate].
  inversion H; subst; clear H. cbn [width height]. lia.
Qed.

Section MainProperties.
Context {JS : JsRuntime} {World : Type} {B : Browser World}
        {SP : StatusPage World}.

(** The opening on any page. *)
Lemma opening_inv (w w' : World) evs (r : outcome BoardState) :
  opening w = (w', evs, r) ->
  match evalBoardState (gameCells (delay 1000 w)) with
  | Throw e => evs = [] /\ r = Thrown e
  | Ok s =>
      (evs = [EvSnapshot s; EvClick (height s / 2) (width s / 2) false] /\
       exists e, r = Thrown e)
      \/ exists initial,
           evs = [EvSnapshot s; EvClick (height s / 2) (width s / 2) false;
                  EvSnapshot initial] /\
           r = Done initial
  end.
Proof.
  unfold opening. intros H.
  destruct (evalBoardState (gameCells (delay 1000 w))) as [s|e] eqn:Es.
  - rewrite (bind_done _ _ _ _ _ _ (getBoardState_ok _ _ Es)) in H.
    remember ((doClick (height s / 2) (width s / 2) false ;;;
               initial <- getBoardState ;; print initial ;;; ret initial)
                (delay 1000 w)) as run eqn:Erun.
    destruct run as [[w2 evs2] r2]. symmetry in Erun.
    unfold worldOf, traceOf, outcomeOf in H. simpl in H.
    inversion H; subst; clear H.
    apply bind_inv in Erun.
    destruct Erun as [(w3 & evs3 & [] & evs4 & Hc & Hk & ->)
                     |[(e & Hc & ->)|[Hc ->]]];
      apply doClick_inv in Hc; destruct Hc as [-> Hc].
    + apply snapshot_inv in Hk.
      destruct Hk as [(initial & evs5 & _ & -> & Hr)|(-> & e & ->)].
      * unfold ret in Hr. inversion Hr; subst. right. exists initial. auto.
      * left. split; [reflexivity|eauto].
    + left. split; [reflexivity|eauto].
    + destruct Hc as [Hc|[e Hc]]; discriminate.
  - unfold bind, getBoardState in H. rewrite Es in H.
    inversion H; subst. auto.
Qed.

(** X13 (the opening click).  On a page whose first snapshot is the board
    [s], the script starts with exactly one click before its loop: a
    reveal of the cell [(floor(height / 2), floor(width / 2))], which lies
    inside the board; and when the snapshot taken after that click shows a
    mine, no step is run and the status is read at once. *)
Theorem main_opening_click :
  forall (fuel : nat) (w w' : World) (s : BoardState) (evs : list Event)
         (recs : list StepRecord) (r : outcome string),
    evalBoardState (gameCells (delay 1000 w)) = Ok s ->
    main fuel w = (w', evs, recs, r) ->
    0 <= height s / 2 < height s /\ 0 <= width s / 2 < width s /\
    actions evs = [((height s / 2, width s / 2), Reveal)] /\
    ((evs = [EvSnapshot s; EvClick (height s / 2) (width s / 2) false] /\
      recs = [] /\ exists e, r = Thrown e)
     \/ exists initial,
          evs = [EvSnapshot s; EvClick (height s / 2) (width s / 2) false;
                 EvSnapshot initial] /\
          (gameOver initial = true -> recs = [] /\ r = Done (statusOf w'))).
Proof.
  intros fuel w w' s evs recs r Hs H.
  destruct (evalBoardState_positive _ _ Hs) as [Hh Hw].
  split; [split; [apply Z.div_pos; lia|apply Z.div_lt_upper_bound; lia]|].
  split; [split; [apply Z.div_pos; lia|apply Z.div_lt_upper_bound; lia]|].
  unfold main in H.
  destruct (opening w) as [[w1 evs1] r1] eqn:Eo.
  apply opening_inv in Eo. rewrite Hs in Eo.
  destruct Eo as [(-> & e & ->)|(initial & -> & ->)].
  - inversion H; subst. split; [reflexivity|]. left. eauto.
  - split.
    + destruct (gameOver initial);
        [|destruct (solvingLoop fuel maxIterations w1) as [[w2 recs2] [[]|e|]]];
        inversion H; subst; reflexivity.
    + right. exists initial.
      destruct (gameOver initial).
      * inversion H; subst. auto.
      * destruct (solvingLoop fuel maxIterations w1) as [[w2 recs2] [[]|e|]];
          inversion H; subst; (split; [reflexivity|discriminate]).
Qed.

Lemma startsFresh_live (b : bool) (evs : list Event) :
  (evs = [] \/ exists s tl, evs = EvSnapshot s :: tl) ->
  liveClicks b evs = liveClicks false evs.
Proof. intros [->|(s & tl & ->)]; reflexivity. Qed.

Lemma startsFresh_sep (p : bool) (evs : list Event) :
  (evs = [] \/ exists s tl, evs = EvSnapshot s :: tl) ->
  snapshotBetweenClicks p evs = snapshotBetweenClicks false evs.
Proof. intros [->|(s & tl & ->)]; reflexivity. Qed.

(** The steps of the loop, one after the other. *)
Lemma solvingLoop_trace (fuel : nat) :
  forall (n : nat) (w w' : World) recs (r : outcome unit),
    solvingLoop fuel n w = (w', recs, r) ->
    (flat_map stepEvents recs = [] \/
     exists s tl, flat_map stepEvents recs = EvSnapshot s :: tl) /\
    snapshotBetweenClicks false (flat_map stepEvents recs) = true /\
    liveClicks false (flat_map stepEvents recs) = true /\
    (r = Done tt -> pendingAfter false (flat_map stepEvents recs) = false).
Proof.
  induction n as [|n IH]; intros w w' recs r H; simpl in H.
  - inversion H; subst. simpl. auto.
  - destruct (solveStep fuel w) as [[w1 evs] r1] eqn:Es.
    pose proof (solveStep_live _ _ _ _ _ Es) as Hlive.
    destruct (solveStep_sep _ _ _ _ _ Es) as [Hstart [Hsep Hend]].
    assert (Hfresh : evs = [] \/ exists s tl, evs = EvSnapshot s :: tl)
      by (destruct Hstart as [[-> _]|Hst]; auto).
    destruct r1 as [taken|e|].
    + destruct Hstart as [[_ [e He]]|(s & tl & ->)]; [discriminate|].
      destruct taken; simpl in H.
      * destruct (solvingLoop fuel n (delay 1000 w1)) as [[w2 recs2] r2] eqn:El.
        inversion H; subst; clear H. cbn [flat_map stepEvents].
        destruct (IH _ _ _ _ El) as (IHf & IHs & IHl & IHp).
        split; [right; simpl; eauto|]. split; [|split].
        -- rewrite snapshotBetweenClicks_app, Hsep, Hend. exact IHs.
        -- rewrite liveClicks_app, Hlive, (startsFresh_live _ _ IHf). exact IHl.
        -- intros Hd. rewrite pendingAfter_app, Hend. auto.
      * inversion H; subst; clear H. cbn [flat_map stepEvents].
        rewrite app_nil_r. split; [right; eauto|]. auto.
    + inversion H; subst; clear H. cbn [flat_map stepEvents].
      rewrite app_nil_r.
      split; [exact Hfresh|]. split; [exact Hsep|]. split; [exact Hlive|].
      discriminate.
    + inversion H; subst; clear H. cbn [flat_map stepEvents].
      rewrite app_nil_r.
      split; [exact Hfresh|]. split; [exact Hsep|]. split; [exact Hlive|].
      discriminate.
Qed.

(** X14 (the whole run).  Over the opening and all the steps of the
    loop: no click follows another without a snapshot taken in between;
    every click of the loop is made after a snapshot that shows no mine;
    the loop runs at most 100 steps; and when the script ends normally,
    the board was read after the last click and the status is the one of
    the page as the run left it. *)
Theorem main_run_discipline :
  forall (fuel : nat) (w w' : World) (evs : list Event)
         (recs : list StepRecord) (r : outcome string),
    main fuel w = (w', evs, recs, r) ->
    snapshotBetweenClicks false (evs ++ flat_map stepEvents recs) = true /\
    liveClicks false (flat_map stepEvents recs) = true /\
    (List.length recs <= 100)%nat /\
    (forall st, r = Done st ->
                st = statusOf w' /\
                pendingAfter false (evs ++ flat_map stepEvents recs) = false).
Proof.
  intros fuel w w' evs recs r H. unfold main in H.
  destruct (opening w) as [[w1 evs1] r1] eqn:Eo.
  apply opening_inv in Eo.
  destruct (evalBoardState (gameCells (delay 1000 w))) as [s|e0].
  - destruct Eo as [(-> & e & ->)|(initial & -> & ->)].
    + inversion H; subst. simpl. split; [reflexivity|]. split; [reflexivity|].
      split; [lia|]. discriminate.
    + destruct (gameOver initial).
      * inversion H; subst. simpl. split; [reflexivity|]. split; [reflexivity|].
        split; [lia|]. intros st Hst. inversion Hst; subst. auto.
      * destruct (solvingLoop fuel maxIterations w1) as [[w2 recs2] r2] eqn:El.
        pose proof (solvingLoop_spec fuel maxIterations w1) as Hspec.
        rewrite El in Hspec. destruct Hspec as [Hlen _].
        destruct (solvingLoop_trace _ _ _ _ _ _ El) as (Hf & Hs & Hl & Hp).
        assert (Hrun : snapshotBetweenClicks false
                         ([EvSnapshot s;
                           EvClick (height s / 2) (width s / 2) false;
                           EvSnapshot initial] ++ flat_map stepEvents recs2)
                       = true)
          by (simpl; exact Hs).
        destruct r2 as [[]|e|]; inversion H; subst;
          (split; [exact Hrun|]); (split; [exact Hl|]);
          (split; [exact Hlen|]); try discriminate.
        intros st Hst. inversion Hst; subst. split; [reflexivity|].
        simpl. apply Hp. reflexivity.
  - destruct Eo as [-> ->]. inversion H; subst. simpl.
    split; [reflexivity|]. split; [reflexivity|]. split; [lia|]. discriminate.
Qed.

End MainProperties.

Lemma includes_In (x : string) (xs : list string) :
  includes x xs = true <-> In x xs.
Proof.
  unfold includes. rewrite existsb_exists. split.
  - intros (y & Hin & He). apply String.eqb_eq in He. subst y. exact Hin.
  - intros Hin. exists x. split; [exact Hin|apply String.eqb_refl].
Qed.

(** X15 (the status of the game).  The status is "lost" exactly when the
    smiley carries [hd_lose] or [hdd_lose] or the game element carries
    [gameover]; it is "won" exactly when there is no such sign of a loss
    and the smiley carries [hd_win]; it is "ongoing" otherwise.  A sign of
    a loss wins over [hd_win], and a page without smiley is never won. *)
Theorem gameStatus_cases :
  forall (smiley game : option (list string)),
    let lost :=
      (exists classes, smiley = Some classes /\
                       (In "hd_lose"%string classes \/
                        In "hdd_lose"%string classes))
      \/ (exists classes, game = Some classes /\
                          In "gameover"%string classes) in
    let won := exists classes, smiley = Some classes /\
                               In "hd_win"%string classes in
    (gameStatus smiley game = "lost"%string <-> lost) /\
    (gameStatus smiley game = "won"%string <-> ~ lost /\ won) /\
    (gameStatus smiley game = "ongoing"%string <-> ~ lost /\ ~ won).
Proof.
  intros smiley game lost won.
  assert (Hl : lossCondition smiley game = true <-> lost).
  { unfold lossCondition, lost. rewrite orb_true_iff. split.
    - intros [H|H].
      + destruct smiley as [cs|]; [|discriminate].
        apply orb_true_iff in H. rewrite !includes_In in H. left. eauto.
      + destruct game as [cs|]; [|discriminate].
        apply includes_In in H. right. eauto.
    - intros [(cs & -> & H)|(cs & -> & H)].
      + left. apply orb_true_iff. rewrite !includes_In. exact H.
      + right. apply includes_In. exact H. }
  assert (Hw : match smiley with
               | Some classes => includes "hd_win" classes
               | None => false
               end = true <-> won).
  { unfold won. split.
    - destruct smiley as [cs|]; [|discriminate].
      intros H. apply includes_In in H. eauto.
    - intros (cs & -> & H). apply includes_In. exact H. }
  unfold gameStatus.
  destruct (lossCondition smiley game).
  - assert (HL : lost) by (apply Hl; reflexivity).
    split; [split; auto|].
    split; (split; [discriminate|intros [Hn _]; contradiction]).
  - assert (HL : ~ lost) by (intros H; apply Hl in H; discriminate).
    destruct (match smiley with
              | Some classes => includes "hd_win" classes
              | None => false
              end).
    + assert (HW : won) by (apply Hw; reflexivity).
      split; [split; [discriminate|contradiction]|].
      split; [split; auto|].
      split; [discriminate|intros [_ Hn]; contradiction].
    + assert (HW : ~ won) by (intros H; apply Hw in H; discriminate).
      split; [split; [discriminate|contradiction]|].
      split; [split; [discriminate|intros [_ H]; contradiction]|].
      split; auto.
Qed.

(* ================================================================== *)
(** * The id of a cell, written and read *)

Lemma uintValue_acc (d : Decimal.uint) :
  forall acc : positive,
    uintValue d (Z.pos acc) = Z.pos (Pos.of_uint_acc d acc).
Proof.
  induction d; intros acc; cbn [uintValue Pos.of_uint_acc];
    try reflexivity;
    match goal with
    | |- uintValue _ ?a = Z.pos (Pos.of_uint_acc _ ?b) =>
        replace a with (Z.pos b)
          by (rewrite ?Pos2Z.inj_add, ?Pos2Z.inj_mul; lia);
        apply IHd
    end.
Qed.

Lemma uintValue_of_uint (d : Decimal.uint) :
  uintValue d 0 = Z.of_N (Pos.of_uint d).
Proof.
  induction d; cbn [uintValue Pos.of_uint];
    try reflexivity; try exact IHd;
    match goal with
    | |- uintValue _ ?a = Z.of_N (N.pos (Pos.of_uint_acc _ ?b)) =>
        replace a with (Z.pos b) by lia; apply uintValue_acc
    end.
Qed.

Lemma readDigits_uint (d : Decimal.uint) (rest : string) :
  forall acc : option Z,
    Sample.readDigits 10 (NilEmpty.string_of_uint d ++ rest) acc
    = match d with
      | Decimal.Nil => Sample.readDigits 10 rest acc
      | _ => Sample.readDigits 10 rest
               (Some (uintValue d match acc with Some a => a | None => 0 end))
      end.
Proof.
  induction d; intros acc; [reflexivity| ..];
    cbn [NilEmpty.string_of_uint append Sample.readDigits];
    (match goal with
     | |- context [Sample.digitVal 10 ?c] =>
         change (Sample.digitVal 10 c) with (Some (Z.of_nat (nat_of_ascii c) - 48))
     end);
    cbv iota; rewrite IHd; destruct d; reflexivity.
Qed.

Lemma spanDigits_uint (d : Decimal.uint) (rest : string) :
  Sample.spanDigits (NilEmpty.string_of_uint d ++ rest)
  = (NilEmpty.string_of_uint d ++ fst (Sample.spanDigits rest),
     snd (Sample.spanDigits rest))%string.
Proof.
  induction d; [simpl; destruct (Sample.spanDigits rest); reflexivity| ..];
    cbn [NilEmpty.string_of_uint append Sample.spanDigits];
    (match goal with
     | |- context [Sample.digitVal 10 ?c] =>
         change (Sample.digitVal 10 c) with (Some (Z.of_nat (nat_of_ascii c) - 48))
     end);
    cbv iota; rewrite IHd; reflexivity.
Qed.

Lemma substring_all (s : string) :
  String.substring 0 (String.length s) s = s.
Proof. induction s as [|c tl IH]; simpl; [reflexivity|rewrite IH; reflexivity]. Qed.

(** The decimal writing of a number that is not negative. *)
Lemma numToString_digits (z : Z) :
  0 <= z ->
  exists d c tl,
    numToString (Int z) = NilEmpty.string_of_uint d /\
    NilEmpty.string_of_uint d = String c tl /\
    d <> Decimal.Nil /\ uintValue d 0 = z.
Proof.
  intros Hz. unfold numToString.
  destruct z as [|p|p]; [| |lia].
  - exists (Decimal.D0 Decimal.Nil), "0"%char, EmptyString.
    repeat split; discriminate.
  - simpl Z.to_int. cbn [NilZero.string_of_int].
    pose proof (DecimalPos.Unsigned.to_uint_nonnil p) as Hn.
    pose proof (DecimalPos.Unsigned.of_to p) as Hof.
    exists (Pos.to_uint p).
    destruct (Pos.to_uint p) eqn:E; [contradiction| ..];
      (eexists; eexists; split; [reflexivity|]; split; [reflexivity|];
       split; [discriminate|]; rewrite uintValue_of_uint, Hof; reflexivity).
Qed.

Lemma append_empty (s : string) : (s ++ "")%string = s.
Proof. induction s as [|c tl IH]; simpl; [reflexivity|rewrite IH; reflexivity]. Qed.

Lemma spanDigits_uint_end (d : Decimal.uint) (rest : string) :
  Sample.spanDigits rest = (EmptyString, rest) ->
  Sample.spanDigits (NilEmpty.string_of_uint d ++ rest)
  = (NilEmpty.string_of_uint d, rest).
Proof.
  intros H. rewrite spanDigits_uint, H. simpl. rewrite append_empty. reflexivity.
Qed.

Lemma numberOfDigits_uint (d : Decimal.uint) :
  d <> Decimal.Nil ->
  Sample.numberOfDigits (NilEmpty.string_of_uint d) = Z.to_nat (uintValue d 0).
Proof.
  intros Hd. unfold Sample.numberOfDigits.
  rewrite <- (append_empty (NilEmpty.string_of_uint d)), readDigits_uint.
  destruct d; [contradiction| ..]; reflexivity.
Qed.

Lemma matchCellId_at (s : string) (m : nat * nat) :
  Sample.matchCellIdAt s = Some m -> Sample.matchCellId s = Some m.
Proof.
  intros H. destruct s; cbn [Sample.matchCellId]; rewrite H; reflexivity.
Qed.

Lemma prefix_cell (x : string) : String.prefix "cell_" ("cell_" ++ x) = true.
Proof.
  cbn [append String.prefix]. repeat rewrite Ascii.eqb_refl.
  destruct x; reflexivity.
Qed.

Lemma substring_after_prefix (x : string) :
  String.substring 5 (String.length ("cell_" ++ x) - 5) ("cell_" ++ x) = x.
Proof. simpl. rewrite Nat.sub_0_r. apply substring_all. Qed.



(* ================================================================== *)
(** * The rules click on the frontier *)

Section FrontierProperties.
Context {JS : JsRuntime} {World : Type} {B : Browser World}.

(** The cells visited for a cell are among its recorded neighbours. *)
Lemma cellBody_visited (row col : Z) (L : Locals) w w' evs r (p : Pos) :
  cellBody row col L w = (w', evs, r) ->
  In p (visited evs) ->
  exists cell v,
    getCell (board (state L)) row col = Some cell /\
    constraintValue cell = Some v /\
    In p (unopenedOf (state L) row col).
Proof.
  intros H Hp.
  destruct (cellBody_cases _ _ _ _ _ _ _ H)
    as [->|(cell & v & k & Hg & Hv & Hk & Hrule)]; [contradiction|].
  destruct (countNeighbors_spec _ _ _ _ Hk) as (Hn & _ & _).
  exists cell, v. split; [assumption|]. split; [assumption|].
  rewrite <- Hn.
  destruct Hrule as [Hf|Hr].
  - apply flagLoop_trace in Hf. destruct Hf as (_ & [rest Hpre] & _).
    rewrite Hpre. apply in_or_app. left. assumption.
  - apply revealLoop_trace in Hr. destruct Hr as (Hs & [rest Hpre] & _).
    rewrite (visited_no_skips _ Hs) in Hp.
    apply in_map_iff in Hp. destruct Hp as (a & <- & Ha).
    assert (Hm : In a (map (fun q : Pos => (q, Reveal)) (neighbors k)))
      by (rewrite Hpre; apply in_or_app; left; assumption).
    apply in_map_iff in Hm. destruct Hm as (q & <- & Hq). exact Hq.
Qed.

(** X17 (the rules click on the frontier).  Every cell that the scan
    clicks or skips for an in-bounds cell is, on the board current when
    the counts were taken, a cell of the frontier: not revealed, not
    flagged, with a revealed neighbour.  It is thus one of the candidates
    that rule 3 computes on that board. *)
Theorem cellBody_clicks_frontier :
  forall (row col : Z) (L : Locals) (w w' : World) (evs : list Event)
         (r : outcome Flow) (nr nc : Z),
    0 <= row < height (state L) -> 0 <= col < width (state L) ->
    cellBody row col L w = (w', evs, r) ->
    In (nr, nc) (visited evs) ->
    onFrontier (state L) nr nc /\
    forall cs, candidates (state L) = Ok cs -> In (nr, nc) cs.
Proof.
  intros row col L w w' evs r nr nc Hrow Hcol H Hp.
  destruct (cellBody_visited _ _ _ _ _ _ _ _ H Hp) as (cell & v & Hg & Hv & Hin).
  unfold unopenedOf in Hin. apply filter_In in Hin. destruct Hin as [Hnb Hun].
  pose proof Hnb as Hnb'. apply In_neighborsOf in Hnb'.
  destruct Hnb' as (Hnr & Hnc & Har & Hac & Hne).
  assert (Hrev : revealed cell = true).
  { unfold constraintValue in Hv. destruct (revealed cell); [reflexivity|].
    simpl in Hv. discriminate. }
  assert (Hfr : onFrontier (state L) nr nc).
  { unfold isUnopened in Hun. simpl in Hun.
    destruct (getCell (board (state L)) nr nc) as [c|] eqn:Ec; [|discriminate].
    apply andb_true_iff in Hun. destruct Hun as [H1 H2].
    apply negb_true_iff in H1, H2.
    exists c. split; [exact Ec|]. split; [assumption|]. split; [assumption|].
    exists row, col, cell. split; [|split; assumption].
    apply In_neighborsOf.
    split; [assumption|]. split; [assumption|].
    split; [lia|]. split; [lia|].
    intros Heq. apply Hne. inversion Heq; subst. reflexivity. }
  split; [exact Hfr|].
  intros cs Hcs. rewrite (candidates_spec _ _ Hcs).
  apply filter_In. split.
  - apply In_positions. split; assumption.
  - apply frontier_iff. exact Hfr.
Qed.

End FrontierProperties.

(* ================================================================== *)
(** * A page on which a step never ends *)

#[local] Existing Instance SampleGrowth.growingBrowser.

Lemma matchCellId_cellId (row col : Z) :
  0 <= row -> 0 <= col ->
  startsWith "cell_" (cellId row col) = true /\
  Sample.matchCellId (cellId row col) = Some (Z.to_nat col, Z.to_nat row).
Proof.
  intros Hrow Hcol.
  destruct (numToString_digits col Hcol) as (dc & cc & tc & Ec & Sc & Nc & Vc).
  destruct (numToString_digits row Hrow) as (dr & cr & tr & Er & Sr & Nr & Vr).
  unfold cellId. rewrite Ec, Er.
  split; [apply prefix_cell|].
  apply matchCellId_at. unfold Sample.matchCellIdAt.
  rewrite prefix_cell, substring_after_prefix.
  rewrite (spanDigits_uint_end dc) by reflexivity.
  rewrite (numberOfDigits_uint dc Nc), Vc, Sc. cbn [append].
  rewrite <- (append_empty (NilEmpty.string_of_uint dr)).
  rewrite (spanDigits_uint_end dr) by reflexivity.
  rewrite (numberOfDigits_uint dr Nr), Vr, Sr.
  reflexivity.
Qed.

Lemma only_member {A : Type} (x : A) (l : list A) :
  NoDup l -> (forall y, In y l <-> y = x) -> l = [x].
Proof.
  intros Hnd Hin. destruct l as [|a tl].
  - exfalso. apply (proj2 (Hin x) eq_refl).
  - assert (a = x) by (apply Hin; left; reflexivity). subst a.
    destruct tl as [|b tl']; [reflexivity|].
    exfalso. inversion Hnd; subst.
    assert (b = x) by (apply Hin; right; left; reflexivity). subst b.
    apply H1. left. reflexivity.
Qed.

Lemma no_member {A : Type} (l : list A) : (forall y, ~ In y l) -> l = [].
Proof.
  destruct l as [|a tl]; [reflexivity|].
  intros H. exfalso. apply (H a). left. reflexivity.
Qed.

Lemma growing_snapshot (k : nat) : exists s, shownAfter k s.
Proof.
  assert (Hid : forall c : nat,
             startsWith "cell_" (cellId 0 (Z.of_nat c)) = true /\
             matchCellId (cellId 0 (Z.of_nat c)) = Some (c, 0%nat)).
  { intros c. destruct (matchCellId_cellId 0 (Z.of_nat c)) as [Hp Hm]; [lia|lia|].
    split; [exact Hp|].
    change (Sample.matchCellId (cellId 0 (Z.of_nat c)) = Some (c, 0%nat)).
    rewrite Hm, Nat2Z.id. reflexivity. }
  destruct (evalBoardState_total (SampleGrowth.cellsAfter k)) as [s Hs].
  { intros cell Hin _. destruct k as [|j]; simpl in Hin;
      repeat (destruct Hin as [<-|Hin]; [apply eq_sym in Hin || idtac|]);
      try contradiction;
      cbn [id SampleGrowth.opened1 SampleGrowth.closed];
      rewrite (proj2 (Hid _)); discriminate. }
  { exists (SampleGrowth.opened1 k). split; [|exact (proj1 (Hid k))].
    destruct k; simpl; auto. }
  exists s. split; [exact Hs|].
  split; [exact (proj1 (evalBoardState_wellformed _ _ Hs))|].
  destruct (Hid k) as [P2 M2].
  destruct (Hid (S k)) as [P3 M3].
  assert (Hk : (S k =? k)%nat = false) by (apply Nat.eqb_neq; lia).
  unfold evalBoardState, SampleGrowth.cellsAfter in Hs.
  destruct k as [|j].
  - cbn [app map id filter SampleGrowth.opened1 SampleGrowth.closed] in Hs.
    rewrite P2, P3 in Hs. cbn [parseCoords] in Hs. rewrite M2, M3 in Hs.
    cbn [List.length Nat.eqb map fst snd] in Hs.
    match type of Hs with
    | context [populate ?cs ?b0 false] =>
        destruct (populate cs b0 false) as [[b over]|] eqn:E; [|discriminate];
        pose proof (populate_lookup _ _ _ _ _ E 0%nat) as Hlook;
        change (Z.of_nat 0) with 0 in Hlook;
        pose proof (populate_gameOver _ _ _ _ _ E) as Hover
    end.
    inversion Hs; subst s; clear Hs. cbn [width height gameOver board].
    split; [reflexivity|]. split; [reflexivity|]. split.
    { rewrite Hover. cbn [existsb id classList SampleGrowth.opened1 SampleGrowth.closed]. rewrite P2, P3. reflexivity. }
    split; [|split].
    + rewrite (Hlook 0%nat). cbn [lastWriter id SampleGrowth.opened1 SampleGrowth.closed]. rewrite P2, P3, M2, M3.
      reflexivity.
    + change (Z.of_nat 0 + 1) with (Z.of_nat 1).
      rewrite (Hlook 1%nat). cbn [lastWriter id SampleGrowth.opened1 SampleGrowth.closed]. rewrite P3, M3. reflexivity.
    + intros Hpos. simpl in Hpos. lia.
  - destruct (Hid j) as [P1 M1].
    cbn [app map id filter SampleGrowth.opened1 SampleGrowth.closed] in Hs.
    rewrite P1, P2, P3 in Hs. cbn [parseCoords] in Hs. rewrite M1, M2, M3 in Hs.
    cbn [List.length Nat.eqb map fst snd] in Hs.
    match type of Hs with
    | context [populate ?cs ?b0 false] =>
        destruct (populate cs b0 false) as [[b over]|] eqn:E; [|discriminate];
        pose proof (populate_lookup _ _ _ _ _ E 0%nat) as Hlook;
        change (Z.of_nat 0) with 0 in Hlook;
        pose proof (populate_gameOver _ _ _ _ _ E) as Hover
    end.
    inversion Hs; subst s; clear Hs. cbn [width height gameOver board].
    split; [simpl list_max; lia|]. split; [reflexivity|]. split.
    { rewrite Hover. cbn [existsb id classList SampleGrowth.opened1 SampleGrowth.closed]. rewrite P1, P2, P3.
      reflexivity. }
    split; [|split].
    + rewrite (Hlook (S j)). cbn [lastWriter id SampleGrowth.opened1 SampleGrowth.closed].
      rewrite P1, P2, P3, M1, M2, M3.
      rewrite Hk, (Nat.eqb_refl (S j)). reflexivity.
    + replace (Z.of_nat (S j) + 1) with (Z.of_nat (S (S j))) by lia.
      rewrite (Hlook (S (S j))). cbn [lastWriter id SampleGrowth.opened1 SampleGrowth.closed]. rewrite P3, M3.
      rewrite (Nat.eqb_refl (S (S j))). reflexivity.
    + intros _.
      replace (Z.of_nat (S j) - 1) with (Z.of_nat j) by lia.
      rewrite (Hlook j). cbn [lastWriter id SampleGrowth.opened1 SampleGrowth.closed].
      rewrite P1, P2, P3, M1, M2, M3.
      assert (H1 : (S (S j) =? j)%nat = false) by (apply Nat.eqb_neq; lia).
      assert (H2 : (S j =? j)%nat = false) by (apply Nat.eqb_neq; lia).
      rewrite H1, H2, (Nat.eqb_refl j). reflexivity.
Qed.

(** Around the cell [(0, k)] of that board: one unopened neighbour, to
    its right, and no flag. *)
Lemma growing_neighbors (k : nat) (s : BoardState) :
  shownAfter k s ->
  unopenedOf s 0 (Z.of_nat k) = [(0, Z.of_nat k + 1)] /\
  flaggedOf s 0 (Z.of_nat k) = [].
Proof.
  intros (_ & Hrect & Hw & Hh & _ & Hk & Hright & Hleft).
  assert (Hnd : NoDup (neighborsOf (width s) (height s) 0 (Z.of_nat k)))
    by (apply neighborsOf_NoDup; lia).
  assert (Hcases : forall nr nc,
             In (nr, nc) (neighborsOf (width s) (height s) 0 (Z.of_nat k)) ->
             nr = 0 /\ (nc = Z.of_nat k + 1 \/ (0 < Z.of_nat k /\ nc = Z.of_nat k - 1))).
  { intros nr nc Hin. apply In_neighborsOf in Hin.
    destruct Hin as (Hr & Hc & Har & Hac & Hne).
    assert (nr = 0) by lia. subst nr. split; [reflexivity|].
    assert (nc <> Z.of_nat k) by (intros ->; apply Hne; reflexivity).
    lia. }
  split.
  - apply only_member.
    + unfold unopenedOf. apply NoDup_filter. exact Hnd.
    + intros [nr nc]. unfold unopenedOf. rewrite filter_In. split.
      * intros [Hin Hun]. destruct (Hcases _ _ Hin) as [-> [->|[Hpos ->]]];
          [reflexivity|].
        unfold isUnopened in Hun. simpl in Hun. rewrite (Hleft Hpos) in Hun.
        discriminate.
      * intros Heq. inversion Heq; subst. split.
        -- apply In_neighborsOf. repeat split; try lia.
           intros H. inversion H. lia.
        -- unfold isUnopened. simpl. rewrite Hright. reflexivity.
  - apply no_member. intros [nr nc] Hin. unfold flaggedOf in Hin.
    apply filter_In in Hin. destruct Hin as [Hin Hfl].
    unfold isFlagged in Hfl. simpl in Hfl.
    destruct (Hcases _ _ Hin) as [-> [->|[Hpos ->]]].
    + rewrite Hright in Hfl. discriminate.
    + rewrite (Hleft Hpos) in Hfl. discriminate.
Qed.

(** The scan at the cell [(0, k)] after [k] clicks: rule 1 flags the
    cell to the right, and the row is one cell longer. *)
Lemma growing_cellBody (k : nat) (s : BoardState) (taken : bool) :
  shownAfter k s ->
  exists evs s',
    shownAfter (S k) s' /\
    cellBody 0 (Z.of_nat k) (mkLocals s taken) (SampleGrowth.mkPage k)
    = (SampleGrowth.mkPage (S k), evs, Done (Next (mkLocals s' true))).
Proof.
  intros Hs. pose proof Hs as (_ & Hrect & Hw & Hh & _ & Hk & Hright & _).
  destruct (growing_neighbors k s Hs) as [Hun Hfl].
  destruct (growing_snapshot (S k)) as [s' Hs'].
  pose proof Hs' as (He' & Hrect' & _ & _ & Hover' & _).
  destruct (countNeighbors_total (width s) (height s) (mkLocals s taken) 0 (Z.of_nat k))
    as (c & Hc & _); [split; [assumption|split; reflexivity]|].
  destruct (countNeighbors_spec _ _ _ _ Hc) as (Hn & Hu & Hf).
  cbn [state] in Hc, Hn, Hu, Hf. rewrite Hun in Hn, Hu. rewrite Hfl in Hf.
  change (unopenedNeighbors c = 1) in Hu. change (flaggedNeighbors c = 0) in Hf.
  assert (Hsnap : getBoardState (SampleGrowth.mkPage (S k))
                  = (SampleGrowth.mkPage (S k), [EvSnapshot s'], Done s'))
    by exact (getBoardState_ok (SampleGrowth.mkPage (S k)) s' He').
  assert (Hclick : doClick 0 (Z.of_nat k + 1) true (SampleGrowth.mkPage k)
                   = (SampleGrowth.mkPage (S k),
                      [EvClick 0 (Z.of_nat k + 1) true], Done tt))
    by reflexivity.
  assert (Hre : refetch (SampleGrowth.mkPage (S k))
                = (SampleGrowth.mkPage (S k), [EvSnapshot s'],
                   Done (Next (mkLocals s' true)))).
  { unfold refetch. rewrite (bind_done _ _ _ _ _ _ Hsnap).
    rewrite (bind_done _ _ _ _ _ _ (print_rectangular s' _ Hrect')).
    rewrite Hover'. reflexivity. }
  assert (Hflag : flagLoop [(0, Z.of_nat k + 1)] (mkLocals s taken)
                           (SampleGrowth.mkPage k)
                  = (SampleGrowth.mkPage (S k),
                     [EvClick 0 (Z.of_nat k + 1) true; EvSnapshot s'],
                     Done (Next (mkLocals s' true)))).
  { cbn [flagLoop state]. rewrite Hright.
    change (flagged Sample.o) with false. cbv iota.
    rewrite (bind_done _ _ _ _ _ _ Hclick).
    rewrite (bind_done _ _ _ _ _ _ Hre). reflexivity. }
  exists [EvClick 0 (Z.of_nat k + 1) true; EvSnapshot s'], s'.
  split; [exact Hs'|].
  unfold cellBody. cbn [state]. rewrite Hk.
  change (constraintValue (Sample.n 1)) with (Some (Int 1)).
  rewrite Hc. simpl liftResult. rewrite bind_ret.
  unfold applyRules. rewrite Hu, Hf, Hn.
  change ((1 >? 0) && match numSub (Int 1) 0 with
                       | Int d => 1 =? d
                       | NaN => false
                       end) with true.
  change ((1 >? 0) && numIs (Int 1) 0) with false.
  cbv iota.
  rewrite (bind_done _ _ _ _ _ _ Hflag). reflexivity.
Qed.

Lemma outcome_bind_fuel {World X Y : Type} (m : M World X) (k : X -> M World Y)
      (w : World) :
  outcomeOf (m w) = OutOfFuel -> outcomeOf (bind m k w) = OutOfFuel.
Proof.
  unfold bind, outcomeOf. destruct (m w) as [[w1 evs] [a|e|]]; simpl;
    intros H; try discriminate. reflexivity.
Qed.

(** The scan of the only row never reaches the end of the row. *)
Lemma growing_colLoop :
  forall (fuel k : nat) (s : BoardState) (taken : bool),
    shownAfter k s ->
    outcomeOf (colLoop fuel 0 (Z.of_nat k) (mkLocals s taken)
                       (SampleGrowth.mkPage k)) = OutOfFuel.
Proof.
  induction fuel as [|n IH]; intros k s taken Hs; [reflexivity|].
  pose proof Hs as (_ & _ & Hw & _).
  destruct (growing_cellBody k s taken Hs) as (evs & s' & Hs' & Hbody).
  cbn [colLoop state]. rewrite Hw.
  assert (Hlt : (Z.of_nat k <? Z.of_nat k + 2) = true) by (apply Z.ltb_lt; lia).
  rewrite Hlt. rewrite (bind_done _ _ _ _ _ _ Hbody).
  unfold outcomeOf at 1. cbn [snd].
  replace (Z.of_nat k + 1) with (Z.of_nat (S k)) by lia.
  apply IH. exact Hs'.
Qed.

Lemma growing_solveStep (fuel : nat) :
  outcomeOf (solveStep fuel SampleGrowth.start) = OutOfFuel.
Proof.
  destruct (growing_snapshot 0) as [s Hs].
  pose proof Hs as (He & Hrect & _ & Hh & Hover & _).
  assert (Hsnap : getBoardState SampleGrowth.start
                  = (SampleGrowth.start, [EvSnapshot s], Done s))
    by exact (getBoardState_ok SampleGrowth.start s He).
  unfold solveStep.
  rewrite (bind_done _ _ _ _ _ _ Hsnap).
  unfold outcomeOf at 1. cbn [snd].
  rewrite (bind_done _ _ _ _ _ _ (print_rectangular s _ Hrect)).
  unfold outcomeOf at 1. cbn [snd].
  rewrite Hover. apply outcome_bind_fuel.
  destruct fuel as [|n]; [reflexivity|].
  cbn [rowLoop state]. rewrite Hh. change (0 <? 1) with true. cbv iota.
  apply outcome_bind_fuel.
  exact (growing_colLoop (S n) 0 s false Hs).
Qed.

Lemma growing_solvingLoop (n fuel : nat) :
  snd (solvingLoop fuel (S n) SampleGrowth.start) = OutOfFuel /\
  List.length (snd (fst (solvingLoop fuel (S n) SampleGrowth.start))) = 1%nat.
Proof.
  pose proof (growing_solveStep fuel) as H.
  cbn [solvingLoop].
  destruct (solveStep fuel SampleGrowth.start) as [[w1 evs] [taken|e|]];
    unfold outcomeOf in H; simpl in H; try discriminate.
  split; reflexivity.
Qed.


(* ================================================================== *)
(** * Sample runs of the further properties *)

#[local] Existing Instance SamplePage.scriptedPage.
#[local] Existing Instance SamplePage.gameStatusPage.


(** The flag written last is what the board shows at (0, 1). *)
Lemma evalBoardState_lookup_witness :
  getCell [[Sample.o; Sample.F]] 0 1 = Some Sample.F.
Proof.
  assert (H : evalBoardState (Some SamplePage.twiceWritten)
              = Ok (mkBoardState [[Sample.o; Sample.F]] 2 1 false))
    by (vm_compute; reflexivity).
  assert (Hr : Z.of_nat 0 < 1) by (vm_compute; reflexivity).
  assert (Hc : Z.of_nat 1 < 2) by (vm_compute; reflexivity).
  exact (evalBoardState_lookup SamplePage.twiceWritten _ 0 1 H Hr Hc).
Defined.

Lemma evalBoardState_gameOver_witness :
  exists e, In e SamplePage.mineShown /\ startsWith "cell_" (id e) = true /\
            showsMine (classList e).
Proof.
  assert (H : evalBoardState (Some SamplePage.mineShown)
              = Ok (mkBoardState [[Sample.n (-1); Sample.o]] 2 1 true))
    by (vm_compute; reflexivity).
  exact (proj1 (evalBoardState_gameOver SamplePage.mineShown _ H) eq_refl).
Defined.

Lemma evalBoardState_dimensions_witness :
  1 <= 1 /\ 1 <= 2 /\
  (forall e col row,
      In e SamplePage.twiceWritten -> startsWith "cell_" (id e) = true ->
      matchCellId (id e) = Some (col, row) ->
      Z.of_nat row < 1 /\ Z.of_nat col < 2) /\
  (exists e col row,
      In e SamplePage.twiceWritten /\ startsWith "cell_" (id e) = true /\
      matchCellId (id e) = Some (col, row) /\ Z.of_nat row = 1 - 1) /\
  (exists e col row,
      In e SamplePage.twiceWritten /\ startsWith "cell_" (id e) = true /\
      matchCellId (id e) = Some (col, row) /\ Z.of_nat col = 2 - 1).
Proof.
  assert (H : evalBoardState (Some SamplePage.twiceWritten)
              = Ok (mkBoardState [[Sample.o; Sample.F]] 2 1 false))
    by (vm_compute; reflexivity).
  exact (evalBoardState_dimensions SamplePage.twiceWritten _ H).
Defined.

(** Rule 1 on the 2 between two mines: two flags, no reveal. *)
Lemma cellBody_one_kind_witness :
  (forall a,
      In a (actions (traceOf (cellBody 0 1 (mkLocals Sample.rule1Board false)
                                       Sample.rule1Game))) ->
      snd a = Flag)
  \/ (skips (traceOf (cellBody 0 1 (mkLocals Sample.rule1Board false)
                               Sample.rule1Game)) = [] /\
      forall a,
        In a (actions (traceOf (cellBody 0 1 (mkLocals Sample.rule1Board false)
                                         Sample.rule1Game))) ->
        snd a = Reveal).
Proof.
  pose (run := cellBody 0 1 (mkLocals Sample.rule1Board false) Sample.rule1Game).
  assert (Hrun : run = (worldOf run, traceOf run, outcomeOf run))
    by (vm_compute; reflexivity).
  exact (cellBody_one_kind 0 1 _ _ _ _ _ Hrun).
Defined.

Lemma cellBody_targets_witness :
  In (0, 2) (neighborsOf 3 1 0 1) /\
  isUnopened (board Sample.rule1Board) (0, 2) = true /\
  exists cell v,
    getCell (board Sample.rule1Board) 0 1 = Some cell /\
    revealed cell = true /\ value cell = Some v /\
    numIs v 0 = false /\ numIs v (-1) = false /\ numIs v (-2) = false.
Proof.
  pose (run := cellBody 0 1 (mkLocals Sample.rule1Board false) Sample.rule1Game).
  assert (Hrun : run = (worldOf run, traceOf run, outcomeOf run))
    by (vm_compute; reflexivity).
  assert (Hin : In (0, 2) (visited (traceOf run)))
    by (vm_compute; right; left; reflexivity).
  exact (cellBody_targets 0 1 _ _ _ _ _ (0, 2) Hrun Hin).
Defined.

(** Scenario A: no rule applies, and the step reveals one cell of the
    frontier. *)
Lemma solveStep_without_certain_move_witness :
  rowLoop 4 4 0 (mkLocals scenarioA false) (delay 1000 scenarioAScript)
  = (delay 1000 scenarioAScript, [], Done (Next (mkLocals scenarioA false))) /\
  (actions (traceOf (solveStep 4 scenarioAScript)) = [] \/
   exists row col,
     actions (traceOf (solveStep 4 scenarioAScript)) = [((row, col), Reveal)] /\
     0 <= row < height scenarioA /\ 0 <= col < width scenarioA /\
     onFrontier scenarioA row col).
Proof.
  pose (run := solveStep 4 scenarioAScript).
  assert (Hrun : run = (worldOf run, traceOf run, outcomeOf run))
    by (vm_compute; reflexivity).
  assert (Hs : evalBoardState (gameCells (delay 1000 scenarioAScript))
               = Ok scenarioA)
    by (vm_compute; reflexivity).
  assert (Hw : (Z.to_nat (width scenarioA) < 4)%nat) by (vm_compute; lia).
  assert (Hh : (Z.to_nat (height scenarioA) < 4)%nat) by (vm_compute; lia).
  assert (Hno : forall row col,
             0 <= row < height scenarioA -> 0 <= col < width scenarioA ->
             ruleApplies scenarioA row col = false).
  { intros row col Hr Hc. simpl in Hr, Hc.
    assert (Er : row = 0 \/ row = 1 \/ row = 2) by lia.
    assert (Ec : col = 0 \/ col = 1 \/ col = 2) by lia.
    destruct Er as [-> | [-> | ->]]; destruct Ec as [-> | [-> | ->]];
      reflexivity. }
  exact (solveStep_without_certain_move 4 scenarioAScript _ scenarioA _ _
           Hs Hw Hh Hno Hrun).
Defined.

(** On the slow page the mouse click goes through and the third wait
    succeeds. *)
Lemma clickCell_waits_at_most_three_times_witness :
  exists (before : list PageEvent) (failed : nat),
    (failed <= 3)%nat /\
    Forall (fun ev => isWaiting ev = false) before /\
    snd (fst (clickCellOnPage 4 1 true SamplePage.slowPage))
    = before
        ++ flat_map (failedAttempt (cellSelector 4 1)) (seq 1 failed)
        ++ (if (failed <? 3)%nat
            then [PgWait (cellSelector 4 1) true]
            else [PgGaveUp])
        ++ [PgDelay 1000] /\
    snd (clickCellOnPage 4 1 true SamplePage.slowPage) = Ok tt.
Proof.
  pose (run := clickCellOnPage 4 1 true SamplePage.slowPage).
  assert (Hrun : run = (fst (fst run), snd (fst run), snd run))
    by (vm_compute; reflexivity).
  assert (Hclick : exists ev, In ev (snd (fst run)) /\ wentThrough ev = true).
  { exists (PgMouse 22 32 true true).
    split; [vm_compute; do 3 right; left; reflexivity|reflexivity]. }
  exact (clickCell_waits_at_most_three_times 4 1 true SamplePage.slowPage
           _ _ _ Hrun Hclick).
Defined.

Lemma clickCell_discipline_witness :
  Forall (addresses (cellSelector 4 1) true)
         (snd (fst (clickCellOnPage 4 1 true SamplePage.slowPage))) /\
  snd (clickCellOnPage 4 1 true SamplePage.slowPage) = Ok tt.
Proof.
  pose (run := clickCellOnPage 4 1 true SamplePage.slowPage).
  assert (Hrun : run = (fst (fst run), snd (fst run), snd run))
    by (vm_compute; reflexivity).
  destruct (clickCell_discipline 4 1 true SamplePage.slowPage _ _ _ Hrun)
    as (Haddr & _ & _ & _ & Hok).
  split; [exact Haddr|]. apply Hok.
  exists (PgMouse 22 32 true true).
  split; [vm_compute; do 3 right; left; reflexivity|reflexivity].
Defined.

(** The first click opens the mine in the centre: no step is run and the
    game is lost. *)
Lemma main_opening_click_witness :
  actions (snd (fst (fst (main 5 SamplePage.centreMineGame))))
  = [((1, 1), Reveal)].
Proof.
  pose (run := main 5 SamplePage.centreMineGame).
  assert (Hrun : run = (fst (fst (fst run)), snd (fst (fst run)),
                        snd (fst run), snd run))
    by (vm_compute; reflexivity).
  assert (Hs : evalBoardState (gameCells (delay 1000 SamplePage.centreMineGame))
               = Ok (mkBoardState
                       [[Sample.o; Sample.o; Sample.o];
                        [Sample.o; Sample.o; Sample.o];
                        [Sample.o; Sample.o; Sample.o]] 3 3 false))
    by (vm_compute; reflexivity).
  destruct (main_opening_click 5 SamplePage.centreMineGame _ _ _ _ _ Hs Hrun)
    as (_ & _ & Hact & _).
  exact Hact.
Defined.

(** On the row with a 2 between two mines the script flags both and
    wins: the board was read after the last click. *)
Lemma main_run_discipline_witness :
  "won"%string = statusOf (fst (fst (fst (main 5 Sample.rule1Game)))) /\
  pendingAfter false
    (snd (fst (fst (main 5 Sample.rule1Game)))
       ++ flat_map stepEvents (snd (fst (main 5 Sample.rule1Game)))) = false.
Proof.
  pose (run := main 5 Sample.rule1Game).
  assert (Hrun : run = (fst (fst (fst run)), snd (fst (fst run)),
                        snd (fst run), snd run))
    by (vm_compute; reflexivity).
  destruct (main_run_discipline 5 Sample.rule1Game _ _ _ _ Hrun)
    as (_ & _ & _ & Hend).
  apply Hend. vm_compute. reflexivity.
Defined.

(** The two cells that rule 1 flags around the 2 are the candidates of
    rule 3 on that row. *)
Lemma cellBody_clicks_frontier_witness :
  onFrontier Sample.rule1Board 0 2 /\
  forall cs, candidates Sample.rule1Board = Ok cs -> In (0, 2) cs.
Proof.
  pose (run := cellBody 0 1 (mkLocals Sample.rule1Board false) Sample.rule1Game).
  assert (Hrun : run = (worldOf run, traceOf run, outcomeOf run))
    by (vm_compute; reflexivity).
  assert (Hin : In (0, 2) (visited (traceOf run)))
    by (vm_compute; right; left; reflexivity).
  assert (Hr : 0 <= 0 < height (state (mkLocals Sample.rule1Board false)))
    by (vm_compute; split; [discriminate|reflexivity]).
  assert (Hc : 0 <= 1 < width (state (mkLocals Sample.rule1Board false)))
    by (vm_compute; split; [discriminate|reflexivity]).
  exact (cellBody_clicks_frontier 0 1 _ _ _ _ _ 0 2 Hr Hc Hrun Hin).
Defined.
